(** * Spectrogram engine: a shallow embedding of the generator

    Embedded here are [spectrogram-generator.ts], the decoding of the PCM
    buffer in [audio-processor.ts] and, from the decoded audio on, the
    action of the command in [index.ts].

    The TypeScript source computes on ECMAScript numbers, that is on IEEE 754
    binary64 values, and keeps frames and spectra in [Float32Array]s.  The
    embedding below follows it at that level:

    - numbers are Rocq's primitive binary64 floats ([PrimFloat]), whose
      [+ - * /] and comparisons are the ones an ECMAScript engine runs;
    - the functions of the [Math] object that the standard leaves
      implementation-approximated ([Math.cos], [Math.log10], ...) are the fields
      of a record [MathLib]; theorems quantify over it;
    - the numerical kernel (window, FFT, power, dB) is written once over the
      signature [Number] of the operations it uses and is read twice: in
      binary64, which is what runs, and in the real numbers, which is what the
      algorithm computes when no rounding happens;
    - exceptions and non-terminating loops are the constructors of [outcome]. *)

From Stdlib Require Import String.
From Stdlib Require Import ZArith List Bool Lia Floats Reals Lra.
From Stdlib Require Strings.Byte.
Import ListNotations.

Set Warnings "-inexact-float".
Set Implicit Arguments.

(** ** Outcomes of a call *)

Inductive jsError : Type :=
| RangeError (msg : string)
| TypeError (msg : string)
| Error (msg : string).

Inductive outcome (A : Type) : Type :=
| Returns (a : A)
| Throws (e : jsError)
| Diverges.

Arguments Returns {A} a.
Arguments Throws {A} e.
Arguments Diverges {A}.

Definition bind {A B : Type} (c : outcome A) (k : A -> outcome B) : outcome B :=
  match c with
  | Returns a => k a
  | Throws e => Throws e
  | Diverges => Diverges
  end.

Notation "x <- c ;; k" := (bind c (fun x => k))
  (at level 61, c at next level, right associativity).

(** [for (const x of xs) acc = body(acc, x)] where the body may throw. *)
Fixpoint foldM {A B : Type} (body : A -> B -> outcome A) (xs : list B) (acc : A)
  : outcome A :=
  match xs with
  | [] => Returns acc
  | x :: rest => acc' <- body acc x ;; foldM body rest acc'
  end.

(** [xs.map(f)] where [f] may throw. *)
Fixpoint mapM {A B : Type} (f : A -> outcome B) (xs : list A) : outcome (list B) :=
  match xs with
  | [] => Returns []
  | x :: rest => y <- f x ;; ys <- mapM f rest ;; Returns (y :: ys)
  end.

(** Whether a call returned. *)
Definition returned {A : Type} (c : outcome A) : bool :=
  match c with Returns _ => true | _ => false end.

(** ** ECMAScript numbers as binary64 *)

Module F64.

(** The number whose value is the integer [z] (exact below 2^53). *)
Definition of_Z (z : Z) : float :=
  SF2Prim (binary_normalize prec emax z 0 false).

Definition of_nat (n : nat) : float := of_Z (Z.of_nat n).

(** A decimal literal of the source: the binary64 nearest to [p/q]. *)
Definition dec (p q : Z) : float := (of_Z p / of_Z q)%float.

(** The integer part, rounded down, of a finite number. *)
Definition floorZ (x : float) : option Z :=
  match Prim2SF x with
  | S754_zero _ => Some 0%Z
  | S754_finite s m e =>
      let v := if s then Zneg m else Zpos m in
      Some (if (0 <=? e)%Z then v * 2 ^ e else v / 2 ^ (- e))%Z
  | _ => None
  end.

(** [Math.floor]. *)
Definition floor (x : float) : float :=
  match Prim2SF x with
  | S754_finite _ _ e =>
      if (e <? 0)%Z
      then match floorZ x with Some z => of_Z z | None => x end
      else x
  | _ => x
  end.

(** The integer a number is, when it is one ([-0] is [0]). *)
Definition integral (x : float) : option Z :=
  match floorZ x with
  | Some z => if (of_Z z =? x)%float then Some z else None
  | None => None
  end.

(** The element index a number denotes in [a[x]]. *)
Definition to_index (x : float) : option nat :=
  match integral x with
  | Some z => if (0 <=? z)%Z then Some (Z.to_nat z) else None
  | None => None
  end.

(** [new Array(x)]: the length, or a RangeError. *)
Definition to_length (x : float) : option nat :=
  match integral x with
  | Some z => if ((0 <=? z) && (z <? 2 ^ 32))%Z then Some (Z.to_nat z) else None
  | None => None
  end.

(** [new Float32Array(x)]: [ToIndex] truncates, NaN is 0, a negative length
    is a RangeError. *)
Definition to_typed_length (x : float) : option nat :=
  match Prim2SF x with
  | S754_nan => Some 0
  | S754_zero _ => Some 0
  | S754_infinity _ => None
  | S754_finite s m e =>
      let t := (if (0 <=? e) then Zpos m * 2 ^ e else Zpos m / 2 ^ (- e))%Z in
      if (t =? 0)%Z then Some 0
      else if s then None
      else if (t <? 2 ^ 53)%Z then Some (Z.to_nat t) else None
  end.

(** How often the body of [for (let i = 0; i < b; i++)] runs; [None] when the
    loop never ends ([i++] stops growing at 2^53). *)
Definition iterations (b : float) : option nat :=
  match Prim2SF b with
  | S754_nan => Some 0
  | S754_zero _ => Some 0
  | S754_infinity s => if s then Some 0 else None
  | S754_finite s m e =>
      if s then Some 0
      else
        let c := (if (0 <=? e) then Zpos m * 2 ^ e
                  else - ((- Zpos m) / 2 ^ (- e)))%Z in
        if (c <=? 2 ^ 53)%Z then Some (Z.to_nat c) else None
  end.

(** [Math.min] and [Math.max] of two arguments. *)
Definition min (a b : float) : float :=
  if (is_nan a || is_nan b)%bool then nan
  else if (a <? b)%float then a
  else if (b <? a)%float then b
  else if get_sign a then a else b.

Definition max (a b : float) : float :=
  if (is_nan a || is_nan b)%bool then nan
  else if (a <? b)%float then b
  else if (b <? a)%float then a
  else if get_sign a then b else a.

(** [Math.min(...xs)] and [Math.max(...xs)]. *)
Definition min_list (xs : list float) : float := fold_left min xs infinity.
Definition max_list (xs : list float) : float := fold_left max xs neg_infinity.

(** [ToBoolean]: [0], [-0] and [NaN] are falsy. *)
Definition truthy (x : float) : bool := negb (is_nan x || is_zero x).

(** [a || b] on numbers. *)
Definition or_else (a b : float) : float := if truthy a then a else b.

(** [x % 1]: the fractional part, with the sign of [x]. *)
Definition rem1 (x : float) : float :=
  match Prim2SF x with
  | S754_finite s m e =>
      if (0 <=? e)%Z then (if s then neg_zero else zero)
      else SF2Prim (binary_normalize prec emax
                      (cond_Zopp s (Zpos m mod 2 ^ (- e))%Z) e s)
  | S754_zero _ => x
  | _ => nan
  end.

(** The value a [Float32Array] keeps of a number: rounded to binary32. *)
Definition fround (x : float) : float :=
  match Prim2SF x with
  | S754_finite s m e => SF2Prim (binary_round 24 128 s m e)
  | _ => x
  end.

End F64.

(** ** 32-bit integer operators

    [<<], [>>], [|] and [&] first bring their operands to signed 32-bit
    integers. *)

Definition ToInt32 (z : Z) : Z := ((z + 2 ^ 31) mod 2 ^ 32 - 2 ^ 31)%Z.
Definition shl32 (a b : Z) : Z := ToInt32 (Z.shiftl (ToInt32 a) (b mod 32)).
Definition sar32 (a b : Z) : Z := Z.shiftr (ToInt32 a) (b mod 32).
Definition or32 (a b : Z) : Z := Z.lor (ToInt32 a) (ToInt32 b).
Definition and32 (a b : Z) : Z := Z.land (ToInt32 a) (ToInt32 b).

(** ** The operations the numerical kernel uses *)

Class Number (T : Type) : Type := {
  of_Z : Z -> T;                       (* an integer-valued number *)
  dec : Z -> Z -> T;                   (* the decimal literal p/q *)
  PI : T;                              (* Math.PI *)
  add : T -> T -> T;
  sub : T -> T -> T;
  mul : T -> T -> T;
  div : T -> T -> T;
  gtb : T -> T -> bool;                (* a > b *)
  cos : T -> T;                        (* Math.cos *)
  sin : T -> T;                        (* Math.sin *)
  log2 : T -> T;                       (* Math.log2 *)
  log10 : T -> T;                      (* Math.log10 *)
  fround : T -> T;                     (* what a Float32Array keeps *)
  undef : T;                           (* a read past the end, used as a number *)
  to_length : T -> option nat;         (* new Array(x) *)
  iterations : T -> option nat;        (* for (i = 0; i < x; i++) *)
  spread_min : list T -> T;            (* Math.min(...xs) *)
  spread_max : list T -> T             (* Math.max(...xs) *)
}.

Definition of_nat {T} `{Number T} (n : nat) : T := of_Z (Z.of_nat n).

(** The [Math] functions ECMAScript leaves implementation-approximated. *)
Record MathLib : Type := {
  Math_cos : float -> float;
  Math_sin : float -> float;
  Math_log2 : float -> float;
  Math_log10 : float -> float;
  Math_pow : float -> float -> float;
  Math_atan : float -> float;
  Math_exp : float -> float
}.

(** Binary64: what the engine runs. *)
Definition Math_PI : float := 3.141592653589793%float.

Definition binary64 (M : MathLib) : Number float := {|
  of_Z := F64.of_Z;
  dec := F64.dec;
  PI := Math_PI;
  add := PrimFloat.add;
  sub := PrimFloat.sub;
  mul := PrimFloat.mul;
  div := PrimFloat.div;
  gtb := fun a b => PrimFloat.ltb b a;
  cos := Math_cos M;
  sin := Math_sin M;
  log2 := Math_log2 M;
  log10 := Math_log10 M;
  fround := F64.fround;
  undef := nan;
  to_length := F64.to_length;
  iterations := F64.iterations;
  spread_min := F64.min_list;
  spread_max := F64.max_list
|}.

(** The real numbers: what the kernel computes when nothing is rounded.
    There is no NaN and no infinity here: a read past the end and the
    minimum of no number are given the value 0, and no theorem below reads
    either. *)
Module Ideal.

Definition to_length (r : R) : option nat :=
  let z := Int_part r in
  if Req_dec_T (IZR z) r
  then if ((0 <=? z) && (z <? 2 ^ 32))%Z then Some (Z.to_nat z) else None
  else None.

Definition iterations (r : R) : option nat :=
  let z := Int_part r in
  Some (Z.to_nat (if Req_dec_T (IZR z) r then z else z + 1)).

Definition gtb (a b : R) : bool := if Rgt_dec a b then true else false.

Definition spread_min (xs : list R) : R :=
  match xs with [] => 0%R | x :: r => fold_left Rmin r x end.
Definition spread_max (xs : list R) : R :=
  match xs with [] => 0%R | x :: r => fold_left Rmax r x end.

End Ideal.

#[export] Instance ideal : Number R := {
  of_Z := IZR;
  dec := fun p q => (IZR p / IZR q)%R;
  PI := Rtrigo1.PI;
  add := Rplus;
  sub := Rminus;
  mul := Rmult;
  div := Rdiv;
  gtb := Ideal.gtb;
  cos := Rtrigo_def.cos;
  sin := Rtrigo_def.sin;
  log2 := fun x => (ln x / ln 2)%R;
  log10 := fun x => (ln x / ln 10)%R;
  fround := fun x => x;
  undef := 0%R;
  to_length := Ideal.to_length;
  iterations := Ideal.iterations;
  spread_min := Ideal.spread_min;
  spread_max := Ideal.spread_max
}.

(** ** enums.ts *)

Inductive WindowType : Type := HANNING | HAMMING | BLACKMAN | RECTANGULAR.
Inductive ColorPreset : Type := GRAY | INVGRAY | HEAT | INFERNO.
Inductive FrequencyScale : Type :=
  LINEAR_SCALE | LOG_SCALE | MEL | BARK | ERB.
Inductive MappingType : Type := LINEAR | LOG | POWER | SQRT | SIGMOID.

(** ** types.ts *)

Record FFTResult (T : Type) : Type := {
  complexValues : list T;
  size : nat
}.

Record PowerSpectrum (T : Type) : Type := {
  powerValues : list T;
  numBins : T;
  binResolution : T                    (* frequencyResolution *)
}.

Record DBSpectrum (T : Type) : Type := {
  dbValues : list T;
  dbNumBins : T;                       (* numBins *)
  referenceLevel : T;
  spectrumMinDb : T;                   (* minDb *)
  spectrumMaxDb : T                    (* maxDb *)
}.

(** ** Arrays *)

(** [a[i] = v] on a list: a store past the end changes nothing. *)
Fixpoint update {A : Type} (a : list A) (i : nat) (v : A) : list A :=
  match a, i with
  | [], _ => []
  | _ :: rest, O => v :: rest
  | x :: rest, S j => x :: update rest j v
  end.

(** ** The numerical kernel of [SpectrogramGenerator] *)

Section Kernel.

Context {T : Type} `{Number T}.

(** constants.ts *)
Definition MIN_DB_DISPLAY : T := of_Z (-120).
Definition MAX_DB_THEORETICAL : T := of_Z 0.
Definition REFERENCE_LEVEL : T := of_Z 1.
Definition MIN_POWER_VALUE : T := dec 1 (10 ^ 12).

Definition HANNING_COEFFICIENT : T := dec 5 10.
Definition HAMMING_COEFFICIENT_A : T := dec 54 100.
Definition HAMMING_COEFFICIENT_B : T := dec 46 100.
Definition BLACKMAN_COEFFICIENT_A : T := dec 42 100.
Definition BLACKMAN_COEFFICIENT_B : T := dec 5 10.
Definition BLACKMAN_COEFFICIENT_C : T := dec 8 100.
Definition RECTANGULAR_COEFFICIENT : T := of_Z 1.

(** Reading a typed array, the result used as a number. *)
Definition get (a : list T) (i : nat) : T := nth i a undef.

Definition getZ (a : list T) (z : Z) : T :=
  if ((0 <=? z) && (z <? Z.of_nat (length a)))%Z
  then nth (Z.to_nat z) a undef else undef.

(** Storing into a [Float32Array]. *)
Definition put (a : list T) (i : nat) (v : T) : list T :=
  update a i (fround v).

(** [windowValue] after the [switch] of [applyWindow], at index [i] of a
    frame of [len] samples. *)
Definition windowValue (windowType : WindowType) (i len : nat) : T :=
  let phase k :=
    div (mul (mul (of_Z k) PI) (of_nat i)) (sub (of_nat len) (of_Z 1)) in
  match windowType with
  | HANNING =>
      mul HANNING_COEFFICIENT (sub (of_Z 1) (cos (phase 2%Z)))
  | HAMMING =>
      sub HAMMING_COEFFICIENT_A (mul HAMMING_COEFFICIENT_B (cos (phase 2%Z)))
  | BLACKMAN =>
      let term1 := BLACKMAN_COEFFICIENT_A in
      let term2 := mul BLACKMAN_COEFFICIENT_B (cos (phase 2%Z)) in
      let term3 := mul BLACKMAN_COEFFICIENT_C (cos (phase 4%Z)) in
      add (sub term1 term2) term3
  | RECTANGULAR => RECTANGULAR_COEFFICIENT
  end.

Definition applyWindow (samples : list T) (windowType : WindowType) : list T :=
  map (fun i =>
         fround (mul (get samples i) (windowValue windowType i (length samples))))
      (seq 0 (length samples)).

(** One turn of the loop of [reverseBits], on [(result, x)]. *)
Definition reverseStep (st : Z * Z) : Z * Z :=
  let (result, x) := st in
  (or32 (shl32 result 1) (and32 x 1), sar32 x 1).

Definition reverseBits (x : Z) (bits : T) : outcome Z :=
  match iterations bits with
  | None => Diverges
  | Some k => Returns (fst (Nat.iter k reverseStep (0%Z, x)))
  end.

(** The body of the innermost loop of [performFFT]. *)
Definition butterfly (halfSize : nat) (angleStep : T) (start : nat)
  (complexValues : list T) (i : nat) : list T :=
  let angle := mul angleStep (of_nat i) in
  let cos_ := cos angle in
  let sin_ := sin angle in
  let evenReal := get complexValues ((start + i) * 2) in
  let evenImag := get complexValues ((start + i) * 2 + 1) in
  let oddReal := get complexValues ((start + i + halfSize) * 2) in
  let oddImag := get complexValues ((start + i + halfSize) * 2 + 1) in
  let tempReal := sub (mul cos_ oddReal) (mul sin_ oddImag) in
  let tempImag := add (mul cos_ oddImag) (mul sin_ oddReal) in
  let cv := put complexValues ((start + i + halfSize) * 2) (sub evenReal tempReal) in
  let cv := put cv ((start + i + halfSize) * 2 + 1) (sub evenImag tempImag) in
  let cv := put cv ((start + i) * 2) (add evenReal tempReal) in
  put cv ((start + i) * 2 + 1) (add evenImag tempImag).

(** [for (let start = 0; start < n; start += size)]: the values of [start]. *)
Definition starts (n size : nat) : list nat :=
  map (fun b => b * size) (seq 0 ((n + size - 1) / size)).

(** One turn of the loop over [size]: all blocks of width [size]. *)
Definition pass (n size : nat) (complexValues : list T) : list T :=
  let halfSize := size / 2 in
  let angleStep := div (mul (of_Z (-2)) PI) (of_nat size) in
  fold_left
    (fun cv start =>
       fold_left (butterfly halfSize angleStep start) (seq 0 halfSize) cv)
    (starts n size) complexValues.

(** [for (let size = 2; size <= n; size *= 2)], from a given [size]. *)
Fixpoint sizeLoop (fuel n size : nat) (complexValues : list T) : list T :=
  match fuel with
  | O => complexValues
  | S fuel' =>
      if size <=? n
      then sizeLoop fuel' n (size * 2) (pass n size complexValues)
      else complexValues
  end.

(** The bit-reversal loop of [performFFT]. *)
Definition permute (samples : list T) : outcome (list T) :=
  let n := length samples in
  foldM (fun cv i =>
           reversed <- reverseBits (Z.of_nat i) (log2 (of_nat n)) ;;
           let cv := put cv (i * 2) (getZ samples reversed) in
           Returns (put cv (i * 2 + 1) (of_Z 0)))
        (seq 0 n) (repeat (of_Z 0) (n * 2)).

Definition performFFT (samples : list T) : outcome (FFTResult T) :=
  let n := length samples in
  cv <- permute samples ;;
  Returns {| complexValues := sizeLoop n n 2 cv; size := n |}.

Definition calculatePowerSpectrum (fftResult : FFTResult T) (fftSize : T)
  : outcome (PowerSpectrum T) :=
  match to_length (div fftSize (of_Z 2)) with
  | None => Throws (RangeError "Invalid array length")
  | Some bins =>
      let powerValues :=
        map (fun i =>
               let real := get (complexValues fftResult) (i * 2) in
               let imag := get (complexValues fftResult) (i * 2 + 1) in
               add (mul real real) (mul imag imag))
            (seq 0 bins) in
      let frequencyResolution :=
        if gtb (of_nat (size fftResult)) (of_Z 0)
        then div (of_Z 1) (of_nat (size fftResult)) else of_Z 0 in
      Returns {| powerValues := powerValues;
                 numBins := div fftSize (of_Z 2);
                 binResolution := frequencyResolution |}
  end.

(** The function mapped over the power values by [convertToDBSpectrum]. *)
Definition powerToDb (fftSize : T) (power : T) : T :=
  let normalizationFactor := mul fftSize fftSize in
  let normalizedPower := div power normalizationFactor in
  if gtb normalizedPower MIN_POWER_VALUE
  then mul (of_Z 10) (log10 (div normalizedPower REFERENCE_LEVEL))
  else MIN_DB_DISPLAY.

Definition convertToDBSpectrum (powerSpectrum : PowerSpectrum T) (fftSize : T)
  : DBSpectrum T :=
  let dbValues := map (powerToDb fftSize) (powerValues powerSpectrum) in
  {| dbValues := dbValues;
     dbNumBins := numBins powerSpectrum;
     referenceLevel := REFERENCE_LEVEL;
     spectrumMinDb := spread_min dbValues;
     spectrumMaxDb := spread_max dbValues |}.

(** Window, FFT, power and dB of one frame: the body of the frame loop of
    [calculateSpectrogram] after the samples are copied. *)
Definition processFrame (windowType : WindowType) (frameSamples : list T)
  (fftSize : T) : outcome (DBSpectrum T) :=
  let windowedSamples := applyWindow frameSamples windowType in
  fftResult <- performFFT windowedSamples ;;
  powerSpectrum <- calculatePowerSpectrum fftResult fftSize ;;
  Returns (convertToDBSpectrum powerSpectrum fftSize).

End Kernel.

(** ** Records of the pipeline, in binary64 *)

(** [AudioData]: the fields the generator reads. *)
Record AudioData : Type := {
  samples : list float;                (* a Float32Array *)
  sampleRate : float;
  duration : float
}.

(** [audioData.duration], for where a parameter is called [duration]. *)
Definition audioDuration (audioData : AudioData) : float := duration audioData.

Record SpectrogramFrame : Type := {
  frequencyBins : list float;
  timePosition : float;
  frameDuration : float
}.

Record SpectrogramData : Type := {
  frames : list SpectrogramFrame;
  dataSampleRate : float;              (* sampleRate *)
  dataFftSize : float;                 (* fftSize *)
  dataHopSize : float;                 (* hopSize *)
  dataDuration : float;                (* duration *)
  numFrequencyBins : float;
  frequencyResolution : float;
  timeResolution : float
}.

Record GlobalDBRange : Type := {
  minDb : float;
  maxDb : float;
  dynamicRange : float
}.

Record RGB : Type := { r : float; g : float; b : float }.

(** [OPTIONS] *)
Inductive DownsampleStrategy : Type := average | peak.
Inductive UpsampleStrategy : Type := bilinear | linear.
Definition DOWNSAMPLE_STRATEGY : DownsampleStrategy := peak.
Definition UPSAMPLE_STRATEGY : UpsampleStrategy := bilinear.

(** constants.ts *)
Definition DEFAULT_FFT_SIZE : float := 2048%float.
Definition DEFAULT_HOP_SIZE : float := 512%float.
Definition DEFAULTS_FFT_SIZE : float := DEFAULT_FFT_SIZE.
Definition DEFAULTS_HOP_SIZE : float := DEFAULT_HOP_SIZE.
Definition MAX_CANVAS_SIZE : float := 16384%float.

(** ** Reading plain arrays *)

(** The index [x] denotes in an array of [len] elements, if it is one. *)
Definition index_in (len : nat) (x : float) : option nat :=
  match F64.integral x with
  | Some z =>
      if ((0 <=? z) && (z <? Z.of_nat len))%Z then Some (Z.to_nat z) else None
  | None => None
  end.

(** [a[x]] used as a number: [undefined] becomes NaN. *)
Definition read (a : list float) (x : float) : float :=
  match index_in (length a) x with
  | Some j => nth j a nan
  | None => nan
  end.

(** [data[x]] where [data] is an array of arrays, [None] for [undefined]. *)
Definition readFrame (data : list (list float)) (x : float) : option (list float) :=
  match index_in (length data) x with
  | Some j => nth_error data j
  | None => None
  end.

Definition undefinedFrame {A : Type} : outcome A :=
  Throws (TypeError "Cannot read properties of undefined").

(** ** Colour maps (no [Math] function besides [floor], [min], [max]) *)

Section Colours.

Local Open Scope float_scope.

Definition heatMap (t : float) : RGB :=
  let t := F64.max 0 (F64.min 1 t) in
  if t <? 0.33 then
    let factor := t / 0.33 in
    {| r := F64.floor (factor * 255); g := 0; b := 0 |}
  else if t <? 0.67 then
    let factor := (t - 0.33) / 0.34 in
    {| r := 255; g := F64.floor (factor * 255); b := 0 |}
  else
    let factor := (t - 0.67) / 0.33 in
    {| r := 255; g := 255; b := F64.floor (factor * 255) |}.

Definition infernoMap (t : float) : RGB :=
  let t := F64.max 0 (F64.min 1 t) in
  if t <? 0.2 then
    let factor := t / 0.2 in
    {| r := F64.floor (factor * 50); g := 0; b := F64.floor (factor * 100) |}
  else if t <? 0.4 then
    let factor := (t - 0.2) / 0.2 in
    {| r := F64.floor (50 + factor * 100); g := 0;
       b := F64.floor (100 + factor * 100) |}
  else if t <? 0.6 then
    let factor := (t - 0.4) / 0.2 in
    {| r := F64.floor (150 + factor * 105); g := 0;
       b := F64.floor (200 - factor * 200) |}
  else if t <? 0.8 then
    let factor := (t - 0.6) / 0.2 in
    {| r := 255; g := F64.floor (factor * 128); b := 0 |}
  else
    let factor := (t - 0.8) / 0.2 in
    {| r := 255; g := F64.floor (128 + factor * 127);
       b := F64.floor (factor * 255) |}.

Definition getColor (normalized : float) (colorPreset : ColorPreset) : RGB :=
  match colorPreset with
  | GRAY =>
      let intensity := F64.floor (normalized * 255) in
      {| r := 255 - intensity; g := 255 - intensity; b := 255 - intensity |}
  | INVGRAY =>
      let intensity2 := F64.floor (normalized * 255) in
      {| r := intensity2; g := intensity2; b := intensity2 |}
  | HEAT => heatMap normalized
  | INFERNO => infernoMap normalized
  end.

End Colours.

(** ** Temporal resampling (no [Math] function besides [floor], [min], [max]) *)

Section Resampling.

Local Open Scope float_scope.

(** [peak[k] = Math.max(peak[k], frame[k])] for every [k] of [frame]; a
    frame longer than [peak] extends it with NaN. *)
Fixpoint mergePeak (peakFrame frame : list float) : list float :=
  match peakFrame, frame with
  | p :: ps, v :: vs => F64.max p v :: mergePeak ps vs
  | [], _ :: vs => nan :: mergePeak [] vs
  | ps, [] => ps
  end.

(** [sum[k] += frame[k]] for every [k] of [frame]. *)
Fixpoint mergeSum (averagedFrame frame : list float) : list float :=
  match averagedFrame, frame with
  | p :: ps, v :: vs => (p + v) :: mergeSum ps vs
  | [], _ :: vs => nan :: mergeSum [] vs
  | ps, [] => ps
  end.

(** [for (let frameIdx = startFrame; frameIdx < endFrame; frameIdx++)] over
    the frames of [data].  Both bounds come out of [Math.floor] and
    [Math.min]: they are integers, NaN or infinite.  A turn at an index
    outside [data] throws on [frame.length]. *)
Definition windowLoop (merge : list float -> list float -> list float)
  (data : list (list float)) (startFrame endFrame : float)
  (init : list float) : outcome (list float) :=
  if startFrame <? endFrame then
    match F64.integral startFrame, F64.integral endFrame with
    | Some s, Some e =>
        if ((0 <=? s) && (e <=? Z.of_nat (length data)))%Z
        then Returns (fold_left merge
                        (firstn (Z.to_nat (e - s)) (skipn (Z.to_nat s) data))
                        init)
        else undefinedFrame
    | _, _ => undefinedFrame
    end
  else Returns init.

(** The window of output column [i]: [(startFrame, endFrame)]. *)
Definition window (numFrames targetWidth : float) (i : nat) : float * float :=
  let step := numFrames / targetWidth in
  let startFrame := F64.floor (F64.of_nat i * step) in
  let endFrame := F64.min (F64.floor ((F64.of_nat i + 1) * step)) numFrames in
  (startFrame, endFrame).

(** The body shared by the two downsamplers: the nearest-neighbour
    fallback for an empty window, else the window merged into [init]. *)
Definition downsampleColumn (merge : list float -> list float -> list float)
  (finish : float -> list float -> list float) (fill : float)
  (spectrogramData : list (list float)) (targetWidth : float) (i : nat)
  : outcome (list float) :=
  let numFrames := F64.of_nat (length spectrogramData) in
  let (startFrame, endFrame) := window numFrames targetWidth i in
  let numFramesInWindow := endFrame - startFrame in
  if numFramesInWindow =? 0 then
    let frameIndex := F64.min startFrame (numFrames - 1) in
    match readFrame spectrogramData frameIndex with
    | Some frame => Returns frame
    | None => undefinedFrame
    end
  else
    match spectrogramData with
    | [] => undefinedFrame
    | first :: _ =>
        acc <- windowLoop merge spectrogramData startFrame endFrame
                 (repeat fill (length first)) ;;
        Returns (finish numFramesInWindow acc)
    end.

(** [for (let i = 0; i < targetWidth; i++)] pushing one column per turn.
    The loop has no end for a width beyond 2^53, which the rasterizer never
    passes: it refuses a width above [MAX_CANVAS_SIZE] first. *)
Definition columns (targetWidth : float) (column : nat -> outcome (list float))
  : outcome (list (list float)) :=
  match F64.iterations targetWidth with
  | Some k => mapM column (seq 0 k)
  | None => Diverges
  end.

Definition averageDownsample (spectrogramData : list (list float))
  (targetWidth : float) : outcome (list (list float)) :=
  columns targetWidth
    (downsampleColumn mergeSum
       (fun numFramesInWindow acc => map (fun v => v / numFramesInWindow) acc)
       0 spectrogramData targetWidth).

Definition peakPreservingDownsample (spectrogramData : list (list float))
  (targetWidth : float) : outcome (list (list float)) :=
  columns targetWidth
    (downsampleColumn mergePeak (fun _ acc => acc)
       neg_infinity spectrogramData targetWidth).

Definition linearUpsample (spectrogramData : list (list float))
  (targetWidth : float) : outcome (list (list float)) :=
  let numFrames := F64.of_nat (length spectrogramData) in
  columns targetWidth (fun i =>
    let frameIndex :=
      if targetWidth =? 1 then 0
      else (F64.of_nat i / (targetWidth - 1)) * (numFrames - 1) in
    let frameIndexFloor := F64.floor frameIndex in
    let frameIndexCeil := F64.min (frameIndexFloor + 1) (numFrames - 1) in
    let timeInterpFactor := frameIndex - frameIndexFloor in
    match readFrame spectrogramData frameIndexFloor,
          readFrame spectrogramData frameIndexCeil with
    | Some frameFloor, Some frameCeil =>
        Returns (map (fun freqIndex =>
                        let value := nth freqIndex frameFloor nan in
                        let valueCeil := read frameCeil (F64.of_nat freqIndex) in
                        value + timeInterpFactor * (valueCeil - value))
                     (seq 0 (length frameFloor)))
    | Some [], None => Returns []
    | _, _ => undefinedFrame
    end).

Definition bilinearUpsample (spectrogramData : list (list float))
  (targetWidth : float) : outcome (list (list float)) :=
  let numFrames := F64.of_nat (length spectrogramData) in
  match spectrogramData with
  | [] => undefinedFrame
  | first :: _ =>
      let numFreqBins := length first in
      columns targetWidth (fun i =>
        let frameIndex :=
          (F64.of_nat i / (targetWidth - 1)) * (numFrames - 1) in
        let frameIndexFloor := F64.floor frameIndex in
        let frameIndexCeil := F64.min (frameIndexFloor + 1) (numFrames - 1) in
        let timeInterpFactor := frameIndex - frameIndexFloor in
        match readFrame spectrogramData frameIndexFloor,
              readFrame spectrogramData frameIndexCeil with
        | Some frameFloor, Some frameCeil =>
            Returns (map (fun freqIdx =>
               let v00 := read frameFloor (F64.of_nat freqIdx) in
               let v10 := read frameCeil (F64.of_nat freqIdx) in
               let freqInterpFactor :=
                 F64.rem1 (F64.of_nat freqIdx / (F64.of_nat numFreqBins - 1)) in
               let v01 := if (freqIdx <? numFreqBins - 1)%nat
                          then read frameFloor (F64.of_nat (freqIdx + 1)) else v00 in
               let v11 := if (freqIdx <? numFreqBins - 1)%nat
                          then read frameCeil (F64.of_nat (freqIdx + 1)) else v10 in
               let c0 := v00 * (1 - timeInterpFactor) + v10 * timeInterpFactor in
               let c1 := v01 * (1 - timeInterpFactor) + v11 * timeInterpFactor in
               c0 * (1 - freqInterpFactor) + c1 * freqInterpFactor)
              (seq 0 numFreqBins))
        | _, _ =>
            match numFreqBins with
            | O => Returns []
            | S _ => undefinedFrame
            end
        end)
  end.

Definition selectUpsamplingStrategy (spectrogramData : list (list float))
  (targetWidth : float) : outcome (list (list float)) :=
  match UPSAMPLE_STRATEGY with
  | linear => linearUpsample spectrogramData targetWidth
  | bilinear => bilinearUpsample spectrogramData targetWidth
  end.

Definition selectDownsampleStrategy (spectrogramData : list (list float))
  (targetWidth : float) : outcome (list (list float)) :=
  match DOWNSAMPLE_STRATEGY with
  | peak => peakPreservingDownsample spectrogramData targetWidth
  | average => averageDownsample spectrogramData targetWidth
  end.

(** [numFrames === 0] is asked of the list itself. *)
Definition resampleSpectrogram (spectrogramData : list (list float))
  (targetWidth : float) : outcome (list (list float)) :=
  let numFrames := F64.of_nat (length spectrogramData) in
  match spectrogramData with
  | [] => Returns []
  | _ :: _ =>
      if numFrames =? targetWidth then Returns spectrogramData
      else if numFrames <? targetWidth
           then selectUpsamplingStrategy spectrogramData targetWidth
           else selectDownsampleStrategy spectrogramData targetWidth
  end.

End Resampling.

(** ** The generator, over a [Math] library *)

Section Generator.

Variable M : MathLib.

#[local] Instance engine : Number float := binary64 M.

Local Open Scope float_scope.

Definition hzToMel (hz : float) : float :=
  2595 * Math_log10 M (1 + hz / 700).

Definition melToHz (mel : float) : float :=
  700 * (Math_pow M 10 (mel / 2595) - 1).

Definition hzToBark (hz : float) : float :=
  13 * Math_atan M (0.00076 * hz) + 3.5 * Math_atan M (Math_pow M (hz / 7500) 2).

Definition barkToHz (bark : float) : float :=
  if bark <=? 0 then 0
  else if 26 <=? bark then 20000
  else
    let a := 26.81 in
    let b := 1960 in
    let c := 0.53 in
    b * (bark + c) / (a - bark).

Definition hzToErb (hz : float) : float :=
  21.4 * Math_log10 M (1 + hz / 229).

Definition erbToHz (erb : float) : float :=
  229 * (Math_pow M 10 (erb / 21.4) - 1).

(** [v || d] for a parameter [v : number | null]. *)
Definition orDefault (v : option float) (d : float) : float :=
  match v with
  | Some x => F64.or_else x d
  | None => d
  end.

Definition isSome {A : Type} (v : option A) : bool :=
  match v with Some _ => true | None => false end.

Definition getFrequencyIndex (y height numFrequencies : float)
  (scale : FrequencyScale) (sampleRate : float)
  (minFrequency maxFrequency : option float) : float :=
  let normalizedY := (height - 1 - y) / (height - 1) in
  let frequencyRatio :=
    if (isSome minFrequency || isSome maxFrequency)%bool then
      let minFreq := orDefault minFrequency 0 in
      let maxFreq := orDefault maxFrequency (sampleRate / 2) in
      let freq := minFreq + normalizedY * (maxFreq - minFreq) in
      freq / (sampleRate / 2)
    else
      match scale with
      | LINEAR_SCALE => normalizedY
      | LOG_SCALE => Math_pow M 10 (normalizedY * Math_log10 M 0.5)
      | MEL =>
          let melMin := hzToMel 0 in
          let melMax := hzToMel (sampleRate / 2) in
          let mel := melMin + normalizedY * (melMax - melMin) in
          let freq := melToHz mel in
          freq / (sampleRate / 2)
      | BARK =>
          let barkMin := hzToBark 0 in
          let barkMax := hzToBark (sampleRate / 2) in
          let bark := barkMin + normalizedY * (barkMax - barkMin) in
          let freqBark := barkToHz bark in
          freqBark / (sampleRate / 2)
      | ERB =>
          let erbMin := hzToErb 0 in
          let erbMax := hzToErb (sampleRate / 2) in
          let erb := erbMin + normalizedY * (erbMax - erbMin) in
          let freqErb := erbToHz erb in
          freqErb / (sampleRate / 2)
      end in
  let frequencyRatio := F64.max 0 (F64.min 1 frequencyRatio) in
  F64.floor (frequencyRatio * (numFrequencies - 1)).

Definition applyMapping (normalized : float) (mappingType : MappingType) : float :=
  let clamped := F64.max 0 (F64.min 1 normalized) in
  match mappingType with
  | LINEAR => clamped
  | LOG => Math_log10 M (1 + clamped * 9) / Math_log10 M 10
  | POWER => Math_pow M clamped 2.1
  | SQRT => Math_pow M clamped 0.5
  | SIGMOID => 1 / (1 + Math_exp M (- (clamped - 0.5) * 4))
  end.

(** [frame[freqIndex] || minDb]: the dB value the rasterizer goes on with. *)
Definition pixelDb (frame : list float) (freqIndex minDb : float) : float :=
  match index_in (length frame) freqIndex with
  | Some j => F64.or_else (nth j frame nan) minDb
  | None => minDb
  end.

(** The dB value read for the pixel [(x, y)] of a [width]-wide image. *)
Definition pixelRead (resampledData : list (list float))
  (width height : float) (frequencyScale : FrequencyScale) (sampleRate : float)
  (minFrequency maxFrequency : option float) (minDb : float) (x y : nat)
  : outcome float :=
  let len := F64.of_nat (length resampledData) in
  let frameIndex := F64.min (F64.floor (F64.of_nat x * len / width)) (len - 1) in
  match readFrame resampledData frameIndex with
  | None => undefinedFrame
  | Some frame =>
      let freqIndex :=
        getFrequencyIndex (F64.of_nat y) height (F64.of_nat (length frame))
          frequencyScale sampleRate minFrequency maxFrequency in
      Returns (pixelDb frame freqIndex minDb)
  end.

(** From the dB value to the colour: the rest of the pixel loop's body. *)
Definition pixelColour (db minDb maxDb : float) (mappingType : MappingType)
  (colorPreset : ColorPreset) : RGB :=
  let dbRange := maxDb - minDb in
  let normalized := if minDb <? db then (db - minDb) / dbRange else 0 in
  let clamped := F64.max 0 (F64.min 1 normalized) in
  let mapped := applyMapping clamped mappingType in
  getColor mapped colorPreset.

(** [createSpectrogramImage], up to the encoding of the canvas: the result
    is the colour given to each pixel, column by column. *)
Definition createSpectrogramImage (spectrogramData : SpectrogramData)
  (width height : float) (colorPreset : ColorPreset)
  (frequencyScale : FrequencyScale) (mappingType : MappingType)
  (minFrequency maxFrequency : option float) (sampleRate : float)
  (minDbParam maxDbParam : option float) : outcome (list (list RGB)) :=
  let minDb := match minDbParam with Some v => v | None => MIN_DB_DISPLAY end in
  let maxDb := match maxDbParam with Some v => v | None => MAX_DB_THEORETICAL end in
  if ((MAX_CANVAS_SIZE <? width) || (MAX_CANVAS_SIZE <? height))%bool
  then Throws (Error "Canvas size too large")
  else
    let rawData := map frequencyBins (frames spectrogramData) in
    resampledData <- resampleSpectrogram rawData width ;;
    match F64.iterations width, F64.iterations height with
    | Some w, Some h =>
        mapM (fun x =>
                mapM (fun y =>
                        db <- pixelRead resampledData width height frequencyScale
                                sampleRate minFrequency maxFrequency minDb x y ;;
                        Returns (pixelColour db minDb maxDb mappingType colorPreset))
                     (seq 0 h))
             (seq 0 w)
    | _, _ => Diverges
    end.

(** The samples of one frame: [frameSamples] after the copy loop. *)
Definition copyFrame (audioData : AudioData) (startFrame fftSize hopSize : float)
  (frame : nat) : outcome (list float) :=
  let startSample := startFrame + F64.of_nat frame * hopSize in
  let endSample :=
    F64.min (startSample + fftSize) (F64.of_nat (length (samples audioData))) in
  match F64.to_typed_length fftSize with
  | None => Throws (RangeError "Invalid typed array length")
  | Some n =>
      let frameSamples := repeat 0 n in
      let availableSamples := endSample - startSample in
      match F64.iterations availableSamples with
      | None => Diverges
      | Some k =>
          Returns (fold_left
                     (fun fs i =>
                        put fs i (read (samples audioData) (startSample + F64.of_nat i)))
                     (seq 0 k) frameSamples)
      end
  end.

(** The body of the frame loop of [calculateSpectrogram]. *)
Definition frameBody (audioData : AudioData) (startTime startFrame fftSize hopSize : float)
  (frame : nat) : outcome SpectrogramFrame :=
  frameSamples <- copyFrame audioData startFrame fftSize hopSize frame ;;
  dbSpectrum <- processFrame HANNING frameSamples fftSize ;;
  let frameTime :=
    startTime + (F64.of_nat frame * hopSize) / sampleRate audioData in
  let frameDuration := hopSize / sampleRate audioData in
  Returns {| frequencyBins := dbValues dbSpectrum;
             timePosition := frameTime;
             frameDuration := frameDuration |}.

(** The first lines of [calculateSpectrogram]: the clamped duration, the
    first sample and the number of frames. *)
Definition actualDurationOf (audioData : AudioData) (startTime duration : float)
  : float :=
  F64.min duration (audioDuration audioData - startTime).

Definition startFrameOf (audioData : AudioData) (startTime : float) : float :=
  F64.floor (startTime * sampleRate audioData).

Definition numFramesOf (audioData : AudioData)
  (startTime duration fftSize hopSize : float) : float :=
  let actualDuration := actualDurationOf audioData startTime duration in
  let startFrame := startFrameOf audioData startTime in
  let endFrame := F64.floor ((startTime + actualDuration) * sampleRate audioData) in
  F64.floor ((endFrame - startFrame - fftSize) / hopSize) + 1.

(** When [numFrames] is infinite the loop has no end, unless a turn throws;
    whether a turn throws does not depend on the frame, so the first turn
    decides. *)
Definition calculateSpectrogram (audioData : AudioData)
  (startTime duration fftSize hopSize : float) : outcome SpectrogramData :=
  let actualDuration := actualDurationOf audioData startTime duration in
  let startFrame := startFrameOf audioData startTime in
  let numFrames := numFramesOf audioData startTime duration fftSize hopSize in
  let body := frameBody audioData startTime startFrame fftSize hopSize in
  match F64.iterations numFrames with
  | None => _ <- body 0%nat ;; Diverges
  | Some k =>
      frames <- mapM body (seq 0 k) ;;
      Returns {| frames := frames;
                 dataSampleRate := sampleRate audioData;
                 dataFftSize := fftSize;
                 dataHopSize := hopSize;
                 dataDuration := actualDuration;
                 numFrequencyBins := fftSize / 2;
                 frequencyResolution := sampleRate audioData / fftSize;
                 timeResolution := hopSize / sampleRate audioData |}
  end.

(** The scan of [calculateGlobalDbRange] over one dB value. *)
Definition scanDb (acc : float * float) (db : float) : float * float :=
  let (globalMinDb, globalMaxDb) := acc in
  if MIN_DB_DISPLAY <? db
  then (F64.min globalMinDb db, F64.max globalMaxDb db)
  else (globalMinDb, globalMaxDb).

Definition scanFrames (frames : list SpectrogramFrame) : float * float :=
  fold_left (fun acc frame => fold_left scanDb (frequencyBins frame) acc)
            frames (infinity, neg_infinity).

(** The part of [calculateGlobalDbRange] after the spectrogram is built. *)
Definition rangeOfFrames (frames : list SpectrogramFrame) : GlobalDBRange :=
  let (globalMinDb, globalMaxDb) := scanFrames frames in
  let globalMinDb :=
    if globalMinDb =? infinity then MIN_DB_DISPLAY else globalMinDb in
  let globalMaxDb :=
    if globalMaxDb =? neg_infinity then MAX_DB_THEORETICAL else globalMaxDb in
  let dynamicRange := globalMaxDb - globalMinDb in
  {| minDb := globalMinDb; maxDb := globalMaxDb; dynamicRange := dynamicRange |}.

Definition calculateGlobalDbRange (audioData : AudioData) : outcome GlobalDBRange :=
  fullSpectrogramData <-
    calculateSpectrogram audioData 0 (duration audioData)
      DEFAULTS_FFT_SIZE DEFAULTS_HOP_SIZE ;;
  Returns (rangeOfFrames (frames fullSpectrogramData)).

(** [generateSpectrogram], returning the image it writes to [outputPath]. *)
Definition generateSpectrogram (audioData : AudioData) (width height : float)
  (colorPreset : ColorPreset) (frequencyScale : FrequencyScale)
  (mappingType : MappingType) (minFrequency maxFrequency : option float)
  (minDbParam maxDbParam : option float) (fftSize hopSize : float)
  (startTime : float) (endTime : option float) : outcome (list (list RGB)) :=
  let requestedDuration :=
    match endTime with
    | Some e => if F64.truthy e then e - startTime else duration audioData
    | None => duration audioData
    end in
  let actualDuration :=
    F64.min requestedDuration (duration audioData - startTime) in
  spectrogramData <-
    calculateSpectrogram audioData startTime actualDuration fftSize hopSize ;;
  createSpectrogramImage spectrogramData width height colorPreset frequencyScale
    mappingType minFrequency maxFrequency (sampleRate audioData)
    minDbParam maxDbParam.

End Generator.

(** ** audio-processor.ts: from the PCM buffer to samples *)

(** enums.ts; [FLTP] is a member the parser never returns. *)
Inductive SampleFormat : Type := U8 | S16 | S32 | FLT | DBL | FLTP | UNKNOWN.

(** The warnings written to the console are left out. *)
Definition parseSampleFormat (sampleFormat : string) : SampleFormat :=
  if String.eqb sampleFormat "u8" then U8
  else if String.eqb sampleFormat "s16" then S16
  else if String.eqb sampleFormat "s32" then S32
  else if String.eqb sampleFormat "flt" then FLT
  else if String.eqb sampleFormat "dbl" then DBL
  else if String.eqb sampleFormat "fltp" then FLT
  else UNKNOWN.

Definition getBitDepth (sampleFormat : SampleFormat) : Z :=
  match sampleFormat with
  | U8 => 8
  | S16 => 16
  | S32 => 32
  | FLT => 32
  | DBL => 64
  | UNKNOWN => 0
  | FLTP => 0                          (* default *)
  end.

Record FFmpegFormat : Type := { codec : string; format : string }.

Definition getFFmpegFormat (sampleFormat : SampleFormat) : FFmpegFormat :=
  match sampleFormat with
  | U8 => {| codec := "pcm_u8"; format := "u8" |}
  | S16 => {| codec := "pcm_s16le"; format := "s16le" |}
  | S32 => {| codec := "pcm_s32le"; format := "s32le" |}
  | FLT => {| codec := "pcm_f32le"; format := "f32le" |}
  | DBL => {| codec := "pcm_f64le"; format := "f64le" |}
  | UNKNOWN => {| codec := "pcm_s16le"; format := "s16le" |}
  | FLTP => {| codec := "pcm_s16le"; format := "s16le" |}   (* default *)
  end.

(** A Node [Buffer] is a list of bytes.  Its [read...] methods throw a
    RangeError when the bytes asked for do not lie inside the buffer. *)
Definition readBytes (pcmBuffer : list Byte.byte) (offset count : nat)
  : outcome (list Byte.byte) :=
  if (offset + count <=? length pcmBuffer)%nat
  then Returns (firstn count (skipn offset pcmBuffer))
  else Throws (RangeError "ERR_OUT_OF_RANGE").

(** The unsigned integer a little-endian sequence of bytes writes. *)
Fixpoint littleEndian (bytes : list Byte.byte) : Z :=
  match bytes with
  | [] => 0
  | b :: rest => Z.of_N (Byte.to_N b) + 256 * littleEndian rest
  end%Z.

(** The signed reading of a [bits]-bit two's complement integer. *)
Definition signed (bits : Z) (u : Z) : Z :=
  (if u <? 2 ^ (bits - 1) then u else u - 2 ^ bits)%Z.

(** The number an IEEE 754 bit pattern denotes, with [ebits] exponent bits
    and [mbits] fraction bits. *)
Definition decodeIEEE (ebits mbits : Z) (pattern : Z) : float :=
  let sign := Z.testbit pattern (ebits + mbits) in
  let e := ((pattern / 2 ^ mbits) mod 2 ^ ebits)%Z in
  let m := (pattern mod 2 ^ mbits)%Z in
  let bias := (2 ^ (ebits - 1) - 1)%Z in
  if (e =? 2 ^ ebits - 1)%Z then
    if (m =? 0)%Z then (if sign then neg_infinity else infinity) else nan
  else
    let mantissa := (if e =? 0 then m else m + 2 ^ mbits)%Z in
    let exponent := ((if e =? 0 then 1 else e) - bias - mbits)%Z in
    SF2Prim (binary_normalize prec emax (cond_Zopp sign mantissa) exponent sign).

Definition readUInt8 (pcmBuffer : list Byte.byte) (offset : nat) : outcome Z :=
  bytes <- readBytes pcmBuffer offset 1 ;; Returns (littleEndian bytes).

Definition readInt16LE (pcmBuffer : list Byte.byte) (offset : nat) : outcome Z :=
  bytes <- readBytes pcmBuffer offset 2 ;; Returns (signed 16 (littleEndian bytes)).

Definition readInt32LE (pcmBuffer : list Byte.byte) (offset : nat) : outcome Z :=
  bytes <- readBytes pcmBuffer offset 4 ;; Returns (signed 32 (littleEndian bytes)).

Definition readFloatLE (pcmBuffer : list Byte.byte) (offset : nat) : outcome float :=
  bytes <- readBytes pcmBuffer offset 4 ;;
  Returns (decodeIEEE 8 23 (littleEndian bytes)).

Definition readDoubleLE (pcmBuffer : list Byte.byte) (offset : nat) : outcome float :=
  bytes <- readBytes pcmBuffer offset 8 ;;
  Returns (decodeIEEE 11 52 (littleEndian bytes)).

(** [new Float32Array(pcmBuffer.length / width)] filled by the loop
    [for (let i = 0; i < samples.length; i++) samples[i] = sample(i)]: the
    length of a typed array is the quotient without its fraction. *)
Definition fillSamples (pcmBuffer : list Byte.byte) (width : nat)
  (sample : nat -> outcome float) : outcome (list float) :=
  mapM (fun i => v <- sample i ;; Returns (F64.fround v))
       (seq 0 (length pcmBuffer / width)).

(** The 16-bit branch, which the source also takes for an unknown format. *)
Definition convertS16 (pcmBuffer : list Byte.byte) : outcome (list float) :=
  fillSamples pcmBuffer 2 (fun i =>
    sample <- readInt16LE pcmBuffer (i * 2) ;;
    Returns (F64.of_Z sample / 32768)%float).

Definition convertToFloat32Array (pcmBuffer : list Byte.byte) (sampleFormat : SampleFormat)
  : outcome (list float) :=
  match sampleFormat with
  | U8 =>
      fillSamples pcmBuffer 1 (fun i =>
        sample <- readUInt8 pcmBuffer i ;;
        Returns ((F64.of_Z sample - 128) / 128)%float)
  | S16 => convertS16 pcmBuffer
  | S32 =>
      fillSamples pcmBuffer 4 (fun i =>
        sample <- readInt32LE pcmBuffer (i * 4) ;;
        Returns (F64.of_Z sample / 2147483648)%float)
  | FLT =>
      fillSamples pcmBuffer 4 (fun i => readFloatLE pcmBuffer (i * 4))
  | DBL =>
      fillSamples pcmBuffer 8 (fun i => readDoubleLE pcmBuffer (i * 8))
  | UNKNOWN => convertS16 pcmBuffer
  | FLTP => convertS16 pcmBuffer      (* default *)
  end.

(** The width in bytes of one sample as [convertToFloat32Array] reads it. *)
Definition bytesPerSample (sampleFormat : SampleFormat) : nat :=
  match sampleFormat with
  | U8 => 1
  | S16 => 2
  | S32 => 4
  | FLT => 4
  | DBL => 8
  | UNKNOWN => 2
  | FLTP => 2
  end.

(** ** index.ts: the images of a run *)

(** constants.ts *)
Definition DEFAULTS_MAX_WIDTH : float := 2048%float.
Definition DEFAULTS_PIXELS_PER_SECOND : float := 96%float.

(** [Math.ceil] *)
Definition Math_ceil (x : float) : float := (- F64.floor (- x))%float.

Section Action.

Variable M : MathLib.

Local Open Scope float_scope.

(** The time range and the width of part [i]: the first lines of the loop
    over the parts. *)
Definition partRange (audioData : AudioData) (pixelsPerSecond : float) (i : nat)
  : float * float * float :=
  let startTime := (F64.of_nat i * DEFAULTS_MAX_WIDTH) / pixelsPerSecond in
  let endTime :=
    F64.min (((F64.of_nat i + 1) * DEFAULTS_MAX_WIDTH) / pixelsPerSecond)
            (duration audioData) in
  let timeRange := endTime - startTime in
  let partWidthActual := Math_ceil (timeRange * pixelsPerSecond) in
  (startTime, endTime, partWidthActual).

(** The action of the command, from the decoded audio on: the images it
    has the generator draw, in order.  [minDbParam] and [maxDbParam] are the
    [minDb] and [maxDb] of the command line.  When the number of parts is
    infinite the loop has no end unless a part throws, which is asked of
    the first. *)
Definition renderSpectrograms (audioData : AudioData)
  (height pixelsPerSecond : float) (colorPreset : ColorPreset)
  (frequencyScale : FrequencyScale) (mappingType : MappingType)
  (minFrequency maxFrequency : option float)
  (minDbParam maxDbParam : option float) (fftSize hopSize : float)
  : outcome (list (list (list RGB))) :=
  let width := Math_ceil (duration audioData * pixelsPerSecond) in
  if DEFAULTS_MAX_WIDTH <? width then
    let numImages := Math_ceil (width / DEFAULTS_MAX_WIDTH) in
    globalDbRange <- calculateGlobalDbRange M audioData ;;
    let globalMinDb := minDb globalDbRange in
    let globalMaxDb := maxDb globalDbRange in
    overview <-
      generateSpectrogram M audioData DEFAULTS_MAX_WIDTH height colorPreset
        frequencyScale mappingType minFrequency maxFrequency
        (Some globalMinDb) (Some globalMaxDb) fftSize hopSize 0 None ;;
    let part i :=
      let '(startTime, endTime, partWidthActual) :=
        partRange audioData pixelsPerSecond i in
      generateSpectrogram M audioData partWidthActual height colorPreset
        frequencyScale mappingType minFrequency maxFrequency
        (Some globalMinDb) (Some globalMaxDb) fftSize hopSize
        startTime (Some endTime) in
    match F64.iterations numImages with
    | Some k => parts <- mapM part (seq 0 k) ;; Returns (overview :: parts)
    | None => _ <- part 0%nat ;; Diverges
    end
  else
    image <-
      generateSpectrogram M audioData width height colorPreset
        frequencyScale mappingType minFrequency maxFrequency
        minDbParam maxDbParam fftSize hopSize 0 None ;;
    Returns [image].

End Action.


(** ** A reference [Math] library

    ECMAScript asks of [Math.cos], [Math.sin], [Math.log2], [Math.log10],
    [Math.pow], [Math.atan] and [Math.exp] only their values at special
    arguments; the rest is an approximation each engine chooses.  The
    functions below are one such choice (argument reduction and Taylor
    polynomials in binary64), accurate to a few units in the last place on
    the arguments the generator uses.  The theorems on the generator hold for
    every [MathLib]; this one makes the examples run. *)

Module RefMath.

Local Open Scope float_scope.

(** [c0 + x (c1 + x (c2 + ...))] *)
Definition horner (coefficients : list float) (x : float) : float :=
fold_right (fun c acc => c + x * acc) 0 coefficients.

(** [1/k!] for the odd and for the even [k]. *)
Definition sinCoefficients : list float :=
[1; -1/6; 1/120; -1/5040; 1/362880; -1/39916800; 1/6227020800;
 -1/1307674368000; 1/355687428096000].
Definition cosCoefficients : list float :=
[1; -1/2; 1/24; -1/720; 1/40320; -1/3628800; 1/479001600;
 -1/87178291200; 1/20922789888000].

Definition sinSmall (x : float) : float := x * horner sinCoefficients (x * x).
Definition cosSmall (x : float) : float := horner cosCoefficients (x * x).

(** pi/2 in two pieces. *)
Definition PIO2_hi : float := 1.5707963267948966.
Definition PIO2_lo : float := 6.123233995736766e-17.

(** [x = k pi/2 + rest], the quadrant [k mod 4] and the rest. *)
Definition quadrant (x : float) : Z * float :=
let k := F64.floor (x / PIO2_hi + 0.5) in
let rest := (x - k * PIO2_hi) - k * PIO2_lo in
(match F64.floorZ k with Some z => z mod 4 | None => 0 end, rest)%Z.

Definition cos (x : float) : float :=
if is_finite x then
  let (q, rest) := quadrant x in
  if (q =? 0)%Z then cosSmall rest
  else if (q =? 1)%Z then - sinSmall rest
  else if (q =? 2)%Z then - cosSmall rest
  else sinSmall rest
else nan.

Definition sin (x : float) : float :=
if is_zero x then x
else if is_finite x then
  let (q, rest) := quadrant x in
  if (q =? 0)%Z then sinSmall rest
  else if (q =? 1)%Z then cosSmall rest
  else if (q =? 2)%Z then - sinSmall rest
  else - cosSmall rest
else nan.

Definition LN2 : float := 0.6931471805599453.
Definition LN10 : float := 2.302585092994046.

(** [1/(2k+1)] *)
Definition atanhCoefficients : list float :=
[1; 1/3; 1/5; 1/7; 1/9; 1/11; 1/13; 1/15; 1/17; 1/19; 1/21; 1/23].

(** A positive finite [x] as [m 2^e] with [m] between 0.71 and 1.42, and
    [ln m]. *)
Definition splitLog (x : float) : float * float :=
let (m, e) := Z.frexp x in
let (m, e) := if m <? 0.7071067811865476 then (m * 2, (e - 1)%Z) else (m, e) in
let z := (m - 1) / (m + 1) in
(F64.of_Z e, 2 * z * horner atanhCoefficients (z * z)).

(** [logWith c d x = (e ln 2 + ln m) / d], [e] first scaled by [c]. *)
Definition logWith (perBit : float -> float) (scale : float) (x : float) : float :=
if is_nan x then nan
else if is_zero x then neg_infinity
else if x <? 0 then nan
else if is_infinity x then infinity
else let (e, lnm) := splitLog x in perBit e + lnm / scale.

Definition log (x : float) : float := logWith (fun e => e * LN2) 1 x.
Definition log2 (x : float) : float := logWith (fun e => e) LN2 x.
Definition log10 (x : float) : float := logWith (fun e => e * LN2 / LN10) LN10 x.

Definition expCoefficients : list float :=
[1; 1; 1/2; 1/6; 1/24; 1/120; 1/720; 1/5040; 1/40320; 1/362880; 1/3628800;
 1/39916800; 1/479001600; 1/6227020800; 1/87178291200].

Definition exp (x : float) : float :=
if is_nan x then nan
else if x =? infinity then infinity
else if x =? neg_infinity then 0
else
  let k := F64.floor (x / LN2 + 0.5) in
  let rest := x - k * LN2 in
  match F64.floorZ k with
  | Some z => Z.ldexp (horner expCoefficients rest) z
  | None => nan
  end.

Definition pow (x y : float) : float :=
if is_zero y then 1
else if (is_nan x || is_nan y)%bool then nan
else if is_zero x then (if 0 <? y then 0 else infinity)
else if x <? 0 then
  match F64.integral y with
  | Some n => if Z.even n then exp (y * log (- x)) else - exp (y * log (- x))
  | None => nan
  end
else exp (y * log x).

(** [1/(2k+1)], signs alternating. *)
Definition atanCoefficients : list float :=
[1; -1/3; 1/5; -1/7; 1/9; -1/11; 1/13; -1/15; 1/17; -1/19; 1/21; -1/23].

(** [atan x = 2 atan (x / (1 + sqrt (1 + x^2)))], twice, for [|x| <= 1]. *)
Definition atanUnit (x : float) : float :=
let halve t := t / (1 + PrimFloat.sqrt (1 + t * t)) in
let t := halve (halve x) in
4 * (t * horner atanCoefficients (t * t)).

Definition atan (x : float) : float :=
if is_nan x then nan
else if is_zero x then x
else if abs x <=? 1 then atanUnit x
else if 0 <? x then PIO2_hi - atanUnit (1 / x)
else - PIO2_hi - atanUnit (1 / x).

End RefMath.

Definition refMath : MathLib := {|
  Math_cos := RefMath.cos;
  Math_sin := RefMath.sin;
  Math_log2 := RefMath.log2;
  Math_log10 := RefMath.log10;
  Math_pow := RefMath.pow;
  Math_atan := RefMath.atan;
  Math_exp := RefMath.exp
|}.


(** * The specification's formulas, for comparison *)

(** The Hanning window as the specification writes it: sample [i] of [N]
    times [0.5 (1 - cos (2 pi i / (N - 1)))], kept in a [Float32Array]. *)
Definition hanningWindow (M : MathLib) (samples : list float) : list float :=
  map (fun i =>
         F64.fround
           (nth i samples nan *
            (0.5 * (1 - Math_cos M (2 * Math_PI * F64.of_nat i
                                    / (F64.of_nat (length samples) - 1)))))%float)
      (seq 0 (length samples)).

(** Complex numbers, and the discrete Fourier transform of a real frame:
    entry [k] is the sum over [j] of [x_j e^(-2 pi i j k / N)]. *)
Definition Complex : Type := (R * R)%type.

Definition Cadd (a b : Complex) : Complex := (fst a + fst b, snd a + snd b)%R.
Definition Csub (a b : Complex) : Complex := (fst a - fst b, snd a - snd b)%R.
Definition Cmul (a b : Complex) : Complex :=
  (fst a * fst b - snd a * snd b, fst a * snd b + snd a * fst b)%R.

(** [e^(i theta)] *)
Definition cis (theta : R) : Complex := (Rtrigo_def.cos theta, Rtrigo_def.sin theta).

(** [f 0 + ... + f (n - 1)] *)
Fixpoint Csum (f : nat -> Complex) (n : nat) : Complex :=
  match n with
  | O => (0, 0)%R
  | S n' => Cadd (Csum f n') (f n')
  end.

Definition DFT (x : list R) (k : nat) : Complex :=
  Csum (fun j =>
          Cmul (nth j x 0%R, 0%R)
               (cis (- 2 * Rtrigo1.PI * INR j * INR k / INR (length x))))
       (length x).

(** The complex number at position [k] of an interleaved array. *)
Definition complexAt (complexValues : list R) (k : nat) : Complex :=
  (nth (k * 2) complexValues 0%R, nth (k * 2 + 1) complexValues 0%R).

(** The number whose [bits] low bits are those of [x] in reverse order. *)
Fixpoint bitReverse (bits : nat) (x : Z) : Z :=
  match bits with
  | O => 0
  | S bits' => (x mod 2) * 2 ^ Z.of_nat bits' + bitReverse bits' (x / 2)
  end%Z.

(** ** The stages of the transform *)

Section Stages.

Local Open Scope R_scope.

(** [omega s t = e^(-2 pi i t / s)] *)
Definition omega (s t : nat) : Complex :=
  cis (- 2 * Rtrigo1.PI * INR t / INR s)%R.

(** What one pass computes at position [k], from the array before it. *)
Definition passAt (halfSize : nat) (cv : list R) (k : nat) : Complex :=
  let size := (2 * halfSize)%nat in
  let r := (k mod size)%nat in
  if (r <? halfSize)%nat
  then Cadd (complexAt cv k)
            (Cmul (omega size r) (complexAt cv (k + halfSize)))
  else Csub (complexAt cv (k - halfSize))
            (Cmul (omega size (r - halfSize)) (complexAt cv k)).

(** The index [reverseBits] gives for position [i] of a frame of [2 ^ m]
    samples, as a natural number. *)
Definition reversedIndex (m i : nat) : nat := Z.to_nat (bitReverse m (Z.of_nat i)).

(** The transform of the [2 ^ p] samples the block [b] of stage [p] holds:
    those at distance [2 ^ (m - p)] from sample [reversedIndex (m - p) b]. *)
Definition blockDFT (samples : list R) (m p b k : nat) : Complex :=
  Csum (fun j =>
          Cmul (nth (reversedIndex (m - p) b + j * 2 ^ (m - p)) samples 0, 0)
               (omega (2 ^ p) (j * k)))
       (2 ^ p).

(** After the passes for 2, ..., [2 ^ p], every block of width [2 ^ p] holds
    the transform of its samples. *)
Definition stage (samples : list R) (m p : nat) (cv : list R) : Prop :=
  forall b k, (b < 2 ^ (m - p))%nat -> (k < 2 ^ p)%nat ->
    complexAt cv (b * 2 ^ p + k) = blockDFT samples m p b k.

End Stages.

(** A number that is [0], [-0] or NaN: what silence is, and stays, along the
    pipeline. *)
Definition zeroOrNaN (x : float) : bool :=
  match Prim2SF x with
  | S754_zero _ | S754_nan => true
  | _ => false
  end.

(** A silent array. *)
Definition silent (xs : list float) : Prop := Forall (fun x => zeroOrNaN x = true) xs.


Definition Cconj (a : Complex) : Complex := (fst a, - snd a)%R.


(** What the scan knows after the values [seen]. *)
Definition brackets (seen : list float) (acc : float * float) : Prop :=
  is_nan (fst acc) = false /\ is_nan (snd acc) = false /\
  (forall db, In db seen -> (-120 <? db)%float = true ->
     (fst acc <=? db)%float = true /\ (db <=? snd acc)%float = true) /\
  (acc = (infinity, neg_infinity) \/
   exists db, In db seen /\ (-120 <? db)%float = true).


(** What is asked of a decoded 8-bit sample [b], and of a 16-bit one [v]. *)
Definition exactU8 (b : Z) : bool :=
  let q := ((F64.of_Z b - 128) / 128)%float in
  let s := F64.fround q in
  (Leibniz.eqb s q && (-1 <=? s)%float && (s <? 1)%float
   && Leibniz.eqb (s * 128 + 128)%float (F64.of_Z b))%bool.

Definition exactS16 (v : Z) : bool :=
  let q := (F64.of_Z v / 32768)%float in
  let s := F64.fround q in
  (Leibniz.eqb s q && (-1 <=? s)%float && (s <? 1)%float
   && Leibniz.eqb (s * 32768)%float (F64.of_Z v))%bool.

(** [check] on the [len] integers from [from] on. *)
Fixpoint forallRange (check : Z -> bool) (from : Z) (len : positive) : bool :=
  match len with
  | xH => check from
  | xO p => forallRange check from p && forallRange check (from + Zpos p) p
  | xI p =>
      check from && forallRange check (from + 1) p
      && forallRange check (from + 1 + Zpos p) p
  end.




(** * Properties *)

Unset Implicit Arguments.

(** ** Outcomes *)

Lemma bind_returns {A B : Type} (c : outcome A) (k : A -> outcome B) (b : B) :
  bind c k = Returns b -> exists a, c = Returns a /\ k a = Returns b.
Proof.
  destruct c as [a | e | ]; simpl; intros E; try discriminate.
  exists a; split; [reflexivity | exact E].
Qed.

Lemma mapM_returns {A B : Type} (f : A -> outcome B) (xs : list A) :
  (forall x, In x xs -> exists y, f x = Returns y) ->
  exists ys, mapM f xs = Returns ys /\ length ys = length xs.
Proof.
  induction xs as [| x rest IH]; intros Hf.
  - exists []; split; reflexivity.
  - destruct (Hf x (or_introl eq_refl)) as [y Ey].
    destruct IH as [ys [Eys Hlen]].
    { intros x' Hx'. apply Hf. right. exact Hx'. }
    exists (y :: ys). simpl. rewrite Ey. simpl. rewrite Eys. simpl.
    split; [reflexivity | now rewrite Hlen].
Qed.

Lemma mapM_nth {A B : Type} (f : A -> outcome B) (xs : list A) (ys : list B) :
  mapM f xs = Returns ys ->
  length ys = length xs /\
  forall k x, nth_error xs k = Some x ->
              exists y, nth_error ys k = Some y /\ f x = Returns y.
Proof.
  revert ys. induction xs as [| x rest IH]; intros ys E; simpl in E.
  - inversion E; subst. split; [reflexivity |].
    intros [| k] x' Hk; discriminate.
  - apply bind_returns in E. destruct E as [y [Ey E]].
    apply bind_returns in E. destruct E as [ys' [Eys E]].
    inversion E; subst. destruct (IH ys' Eys) as [Hlen Hnth].
    split; [simpl; now rewrite Hlen |].
    intros [| k] x' Hk; simpl in Hk.
    + inversion Hk; subst. exists y. split; [reflexivity | exact Ey].
    + exact (Hnth k x' Hk).
Qed.

Lemma mapM_In {A B : Type} (f : A -> outcome B) (xs : list A) (ys : list B) :
  mapM f xs = Returns ys ->
  forall y, In y ys -> exists x, In x xs /\ f x = Returns y.
Proof.
  revert ys. induction xs as [| x rest IH]; intros ys E y Hy; simpl in E.
  - inversion E; subst. destruct Hy.
  - apply bind_returns in E. destruct E as [y0 [Ey0 E]].
    apply bind_returns in E. destruct E as [ys' [Eys E]].
    inversion E; subst. destruct Hy as [<- | Hy].
    + exists x. split; [left; reflexivity | exact Ey0].
    + destruct (IH ys' Eys y Hy) as [x' [Hx' Ex']].
      exists x'. split; [right; exact Hx' | exact Ex'].
Qed.

(** ** Colour maps *)

(** The three segments of the Heat palette, as the source cuts them. *)
Lemma heatMap_segments (t : float) :
  let c := F64.max 0 (F64.min 1 t) in
  heatMap t =
    if (c <? 0.33)%float
    then {| r := F64.floor (c / 0.33 * 255); g := 0; b := 0 |}%float
    else if (c <? 0.67)%float
    then {| r := 255; g := F64.floor ((c - 0.33) / 0.34 * 255); b := 0 |}%float
    else {| r := 255; g := 255; b := F64.floor ((c - 0.67) / 0.33 * 255) |}%float.
Proof. reflexivity. Qed.

(** At [t = 1] the last segment's factor is [(1 - 0.67) / 0.33]; in binary64
    the difference is 0.32999999999999996, below the divisor 0.33000000000000002. *)
Lemma heatMap_last_factor :
  ((1 - 0.67) / 0.33 <? 1)%float = true /\
  ((1 - 0.67) / 0.33 * 255)%float = 254.99999999999994%float.
Proof. split; vm_compute; reflexivity. Qed.

(** C8 (as the code runs): the Heat palette sends [t = 0] to black, and
    [t = 1] to (255, 255, 254): the blue channel stops one short of white. *)
Theorem heatMap_endpoints :
  heatMap 0 = {| r := 0; g := 0; b := 0 |} /\
  heatMap 1 = {| r := 255; g := 255; b := 254 |}.
Proof.
  split.
  - rewrite heatMap_segments. vm_compute. reflexivity.
  - rewrite heatMap_segments. vm_compute. reflexivity.
Qed.

(** ** The rasterizer's read *)

(** What [frame[freqIndex] || minDb] keeps of a stored value. *)
Lemma pixelDb_in_bounds (frame : list float) (freqIndex minDb : float) (j : nat) :
  index_in (length frame) freqIndex = Some j ->
  pixelDb frame freqIndex minDb =
    if F64.truthy (nth j frame nan) then nth j frame nan else minDb.
Proof. intros E. unfold pixelDb, F64.or_else. rewrite E. reflexivity. Qed.

Lemma pixelDb_out_of_bounds (frame : list float) (freqIndex minDb : float) :
  index_in (length frame) freqIndex = None ->
  pixelDb frame freqIndex minDb = minDb.
Proof. intros E. unfold pixelDb. rewrite E. reflexivity. Qed.

(** A stored value is kept exactly when it is truthy. *)
Lemma pixelDb_keeps_truthy (frame : list float) (freqIndex minDb : float) (j : nat) :
  index_in (length frame) freqIndex = Some j ->
  F64.truthy (nth j frame nan) = true ->
  pixelDb frame freqIndex minDb = nth j frame nan.
Proof.
  intros E Ht. rewrite (pixelDb_in_bounds frame freqIndex minDb j E), Ht. reflexivity.
Qed.

(** C7 (as the code runs): a one-column spectrogram whose bin 0 holds 0 dB,
    drawn 1 pixel wide and 2 high on the linear scale.  At the bottom pixel
    the mapper resolves bin 0, which is inside the column and holds 0, and
    the value the rasterizer goes on with is [minDb = -120]. *)
Theorem pixel_zero_dB_replaced (M : MathLib) :
  let frame := [0; -50]%float in
  getFrequencyIndex M 1 2 (F64.of_nat (length frame)) LINEAR_SCALE 44100 None None
    = 0%float /\
  index_in (length frame) 0 = Some 0%nat /\
  nth 0 frame nan = 0%float /\
  pixelRead M [frame] 1 2 LINEAR_SCALE 44100 None None (-120) 0 1
    = Returns (-120)%float.
Proof.
  intros frame. subst frame.
  assert (Hidx : getFrequencyIndex M 1 2 (F64.of_nat 2) LINEAR_SCALE 44100 None None
                 = 0%float) by (vm_compute; reflexivity).
  split; [exact Hidx |].
  split; [vm_compute; reflexivity |].
  split; [reflexivity |].
  vm_compute. reflexivity.
Qed.

(** ** Resampling *)

(** C6: when the number of frames equals the target width the resampler
    returns its input. *)
Theorem resample_identity (spectrogramData : list (list float)) (targetWidth : float) :
  (F64.of_nat (length spectrogramData) =? targetWidth)%float = true ->
  resampleSpectrogram spectrogramData targetWidth = Returns spectrogramData.
Proof.
  intros E. unfold resampleSpectrogram.
  destruct spectrogramData as [| frame rest].
  - reflexivity.
  - rewrite E. reflexivity.
Qed.

Lemma resample_identity_witness :
  (F64.of_nat (length [[1; 2]; [3; 4]]%float) =? 2)%float = true /\
  resampleSpectrogram [[1; 2]; [3; 4]]%float 2 = Returns [[1; 2]; [3; 4]]%float.
Proof.
  split.
  - vm_compute. reflexivity.
  - apply (resample_identity [[1; 2]; [3; 4]]%float 2). vm_compute. reflexivity.
Defined.

(** The windows the peak downsampler cuts 15 frames into for 11 columns. *)
Lemma windows_15_11 :
  map (window 15 11) (seq 0 11) =
  [(0, 1); (1, 2); (2, 4); (4, 5); (5, 6); (6, 8); (8, 9); (9, 10); (10, 12);
   (12, 13); (13, 14)]%float.
Proof. vm_compute. reflexivity. Qed.

(** C5 (as the code runs): 15 frames of one bin, frame [k] holding [k], cut
    down to 11 columns.  The last window should be frames 13 and 14
    ([floor (10 * 15 / 11) = 13] to [floor (11 * 15 / 11) = 15]); the code
    ends it at 14, since [11 * (15 / 11)] is 14.999999999999998 in binary64,
    and the last column holds 13 where frame 14 holds 14. *)
Theorem peak_drops_last_frame :
  let spectrogramData := map (fun k => [F64.of_nat k]) (seq 0 15) in
  (10 * 15 / 11 = 13 /\ Z.min (11 * 15 / 11) 15 = 15)%Z /\
  (11 * (15 / 11))%float = 14.999999999999998%float /\
  window 15 11 10 = (13, 14)%float /\
  nth 14 spectrogramData [] = [14]%float /\
  peakPreservingDownsample spectrogramData 11 =
    Returns [[0]; [1]; [3]; [4]; [5]; [7]; [8]; [9]; [11]; [12]; [13]]%float.
Proof.
  intros spectrogramData. subst spectrogramData.
  split; [split; reflexivity |].
  split; [vm_compute; reflexivity |].
  split; [vm_compute; reflexivity |].
  split; vm_compute; reflexivity.
Qed.

(** ** The kernel returns, and the shape of what it returns *)

Section KernelShape.

Context {T : Type} `{Number T}.

Lemma update_length {A : Type} (a : list A) (i : nat) (v : A) :
  length (update a i v) = length a.
Proof.
  revert i. induction a as [| x rest IH]; intros [| j]; simpl; auto.
Qed.

Lemma put_length (a : list T) (i : nat) (v : T) : length (put a i v) = length a.
Proof. apply update_length. Qed.

Lemma fold_left_length {B : Type} (f : list T -> B -> list T) (xs : list B) (a : list T) :
  (forall a' x, length (f a' x) = length a') ->
  length (fold_left f xs a) = length a.
Proof.
  intros Hf. revert a. induction xs as [| x rest IH]; intros a; simpl.
  - reflexivity.
  - rewrite IH. apply Hf.
Qed.

Lemma butterfly_length (halfSize : nat) (angleStep : T) (start : nat)
  (cv : list T) (i : nat) :
  length (butterfly halfSize angleStep start cv i) = length cv.
Proof. unfold butterfly. now rewrite !put_length. Qed.

Lemma pass_length (n size : nat) (cv : list T) : length (pass n size cv) = length cv.
Proof.
  unfold pass. apply fold_left_length. intros a start.
  apply fold_left_length. intros a' i. apply butterfly_length.
Qed.

Lemma sizeLoop_length (fuel n size : nat) (cv : list T) :
  length (sizeLoop fuel n size cv) = length cv.
Proof.
  revert size cv. induction fuel as [| fuel IH]; intros size cv; simpl.
  - reflexivity.
  - destruct (size <=? n); [| reflexivity]. rewrite IH. apply pass_length.
Qed.

Lemma foldM_invariant {A B : Type} (P : A -> Prop) (body : A -> B -> outcome A)
  (xs : list B) (init : A) :
  (forall acc x, In x xs -> P acc -> exists acc', body acc x = Returns acc' /\ P acc') ->
  P init ->
  exists result, foldM body xs init = Returns result /\ P result.
Proof.
  revert init. induction xs as [| x rest IH]; intros init Hbody Hinit; simpl.
  - exists init. split; [reflexivity | exact Hinit].
  - destruct (Hbody init x (or_introl eq_refl) Hinit) as [acc' [E HP]].
    rewrite E. simpl. apply IH; [| exact HP].
    intros acc y Hy. apply Hbody. right. exact Hy.
Qed.

Lemma reverseBits_returns (x : Z) (bits : T) (k : nat) :
  iterations bits = Some k ->
  reverseBits x bits = Returns (fst (Nat.iter k reverseStep (0%Z, x))).
Proof. intros E. unfold reverseBits. rewrite E. reflexivity. Qed.

Lemma permute_returns (samples : list T) (k : nat) :
  iterations (log2 (of_nat (length samples))) = Some k ->
  exists cv, permute samples = Returns cv /\ length cv = length samples * 2.
Proof.
  intros E. unfold permute.
  apply (foldM_invariant (fun cv => length cv = length samples * 2)).
  - intros acc i _ Hacc. rewrite (reverseBits_returns _ _ _ E). simpl.
    eexists. split; [reflexivity |]. now rewrite !put_length.
  - apply repeat_length.
Qed.

(** With no end to the loop of [reverseBits], the first turn of the
    permutation never returns. *)
Lemma permute_diverges (samples : list T) :
  samples <> [] ->
  iterations (log2 (of_nat (length samples))) = None ->
  permute samples = Diverges.
Proof.
  intros Hne E. unfold permute. destruct samples as [| s rest]; [congruence |].
  cbn [length seq foldM]. unfold reverseBits at 1.
  cbn [length] in E. rewrite E. reflexivity.
Qed.

Lemma performFFT_returns (samples : list T) (k : nat) :
  iterations (log2 (of_nat (length samples))) = Some k ->
  exists fftResult,
    performFFT samples = Returns fftResult /\
    size fftResult = length samples /\
    length (complexValues fftResult) = length samples * 2.
Proof.
  intros E. destruct (permute_returns samples k E) as [cv [Ecv Hlen]].
  unfold performFFT. rewrite Ecv. simpl. eexists. split; [reflexivity |].
  simpl. split; [reflexivity |]. now rewrite sizeLoop_length.
Qed.

Lemma applyWindow_length (samples : list T) (windowType : WindowType) :
  length (applyWindow samples windowType) = length samples.
Proof. unfold applyWindow. now rewrite length_map, length_seq. Qed.

Lemma calculatePowerSpectrum_returns (fftResult : FFTResult T) (fftSize : T) (bins : nat) :
  to_length (div fftSize (of_Z 2)) = Some bins ->
  exists powerSpectrum,
    calculatePowerSpectrum fftResult fftSize = Returns powerSpectrum /\
    length (powerValues powerSpectrum) = bins.
Proof.
  intros E. unfold calculatePowerSpectrum. rewrite E.
  eexists. split; [reflexivity |]. simpl. now rewrite length_map, length_seq.
Qed.

Lemma convertToDBSpectrum_length (powerSpectrum : PowerSpectrum T) (fftSize : T) :
  length (dbValues (convertToDBSpectrum powerSpectrum fftSize))
  = length (powerValues powerSpectrum).
Proof. unfold convertToDBSpectrum. simpl. apply length_map. Qed.

Lemma processFrame_returns (windowType : WindowType) (frameSamples : list T)
  (fftSize : T) (k bins : nat) :
  iterations (log2 (of_nat (length frameSamples))) = Some k ->
  to_length (div fftSize (of_Z 2)) = Some bins ->
  exists dbSpectrum,
    processFrame windowType frameSamples fftSize = Returns dbSpectrum /\
    length (dbValues dbSpectrum) = bins.
Proof.
  intros Ek Ebins. unfold processFrame.
  destruct (performFFT_returns (applyWindow frameSamples windowType) k)
    as [fftResult [Efft _]].
  { now rewrite applyWindow_length. }
  rewrite Efft. simpl.
  destruct (calculatePowerSpectrum_returns fftResult fftSize bins Ebins)
    as [powerSpectrum [Ep Hlen]].
  rewrite Ep. simpl. eexists. split; [reflexivity |].
  now rewrite convertToDBSpectrum_length.
Qed.

Lemma processFrame_diverges (windowType : WindowType) (frameSamples : list T)
  (fftSize : T) :
  frameSamples <> [] ->
  iterations (log2 (of_nat (length frameSamples))) = None ->
  processFrame windowType frameSamples fftSize = Diverges.
Proof.
  intros Hne E. unfold processFrame, performFFT.
  rewrite permute_diverges; [reflexivity | |].
  - intros Hnil. apply Hne. apply length_zero_iff_nil.
    rewrite <- (applyWindow_length frameSamples windowType), Hnil. reflexivity.
  - now rewrite applyWindow_length.
Qed.

(** Every dB spectrum a frame yields has as many values as [calculatePowerSpectrum]
    allots bins. *)
Lemma processFrame_bins (windowType : WindowType) (frameSamples : list T)
  (fftSize : T) (bins : nat) (dbSpectrum : DBSpectrum T) :
  to_length (div fftSize (of_Z 2)) = Some bins ->
  processFrame windowType frameSamples fftSize = Returns dbSpectrum ->
  length (dbValues dbSpectrum) = bins.
Proof.
  intros Ebins E. unfold processFrame in E.
  apply bind_returns in E. destruct E as [fftResult [_ E]].
  apply bind_returns in E. destruct E as [powerSpectrum [Ep E]].
  inversion E; subst.
  destruct (calculatePowerSpectrum_returns fftResult fftSize bins Ebins)
    as [p' [Ep' Hlen]].
  rewrite Ep in Ep'. inversion Ep'; subst.
  now rewrite convertToDBSpectrum_length.
Qed.

End KernelShape.

(** ** The frame loop *)

Section FrameLoop.

Variable M : MathLib.

#[local] Existing Instance engine.

Lemma frameBody_returns (audioData : AudioData)
  (startTime startFrame fftSize hopSize : float) (frame : nat)
  (frameSamples : list float) (k bins : nat) :
  copyFrame M audioData startFrame fftSize hopSize frame = Returns frameSamples ->
  F64.iterations (Math_log2 M (F64.of_nat (length frameSamples))) = Some k ->
  F64.to_length (fftSize / 2)%float = Some bins ->
  exists spectrogramFrame,
    frameBody M audioData startTime startFrame fftSize hopSize frame
      = Returns spectrogramFrame /\
    length (frequencyBins spectrogramFrame) = bins.
Proof.
  intros Ecopy Ek Ebins. unfold frameBody. rewrite Ecopy. simpl.
  destruct (processFrame_returns (H := engine M) HANNING frameSamples fftSize k bins Ek Ebins)
    as [dbSpectrum [E Hlen]].
  rewrite E. simpl. eexists. split; [reflexivity | exact Hlen].
Qed.

Lemma frameBody_diverges (audioData : AudioData)
  (startTime startFrame fftSize hopSize : float) (frame : nat)
  (frameSamples : list float) :
  copyFrame M audioData startFrame fftSize hopSize frame = Returns frameSamples ->
  frameSamples <> [] ->
  F64.iterations (Math_log2 M (F64.of_nat (length frameSamples))) = None ->
  frameBody M audioData startTime startFrame fftSize hopSize frame = Diverges.
Proof.
  intros Ecopy Hne E. unfold frameBody. rewrite Ecopy. simpl.
  rewrite (processFrame_diverges (H := engine M) HANNING frameSamples fftSize Hne E).
  reflexivity.
Qed.

(** Every frame of a spectrogram has [fftSize / 2] bins. *)
Lemma calculateSpectrogram_bins (audioData : AudioData)
  (startTime duration fftSize hopSize : float) (bins : nat) (data : SpectrogramData) :
  F64.to_length (fftSize / 2)%float = Some bins ->
  calculateSpectrogram M audioData startTime duration fftSize hopSize = Returns data ->
  Forall (fun frame => length (frequencyBins frame) = bins) (frames data).
Proof.
  intros Ebins E. unfold calculateSpectrogram in E.
  destruct (F64.iterations _) as [k |].
  - apply bind_returns in E. destruct E as [fs [Efs E]].
    inversion E; subst; simpl. apply Forall_forall. intros frame Hin.
    destruct (mapM_In _ _ _ Efs frame Hin) as [i [_ Ei]].
    unfold frameBody in Ei.
    apply bind_returns in Ei. destruct Ei as [frameSamples [_ Ei]].
    apply bind_returns in Ei. destruct Ei as [dbSpectrum [Edb Ei]].
    inversion Ei; subst; simpl.
    exact (processFrame_bins (H := engine M) HANNING frameSamples fftSize bins
             dbSpectrum Ebins Edb).
  - apply bind_returns in E. destruct E as [? [_ E]]. discriminate.
Qed.

(** The analysis parameters a spectrogram records are the ones it was
    called with. *)
Lemma calculateSpectrogram_parameters (audioData : AudioData)
  (startTime duration fftSize hopSize : float) (data : SpectrogramData) :
  calculateSpectrogram M audioData startTime duration fftSize hopSize = Returns data ->
  dataFftSize data = fftSize /\ dataHopSize data = hopSize.
Proof.
  intros E. unfold calculateSpectrogram in E.
  destruct (F64.iterations _) as [k |].
  - apply bind_returns in E. destruct E as [fs [_ E]].
    inversion E; subst; simpl. split; reflexivity.
  - apply bind_returns in E. destruct E as [? [_ E]]. discriminate.
Qed.

(** The frames of a spectrogram are the results of [frameBody], in order. *)
Lemma calculateSpectrogram_frames (audioData : AudioData)
  (startTime duration fftSize hopSize : float) (data : SpectrogramData) :
  calculateSpectrogram M audioData startTime duration fftSize hopSize = Returns data ->
  forall k frame, nth_error (frames data) k = Some frame ->
    frameBody M audioData startTime (startFrameOf audioData startTime)
      fftSize hopSize k = Returns frame.
Proof.
  intros E k frame Hk. unfold calculateSpectrogram in E.
  destruct (F64.iterations _) as [n |].
  - apply bind_returns in E. destruct E as [fs [Efs E]].
    inversion E; subst; simpl in Hk.
    destruct (mapM_nth _ _ _ Efs) as [Hlen Hnth].
    assert (Hkn : k < n).
    { rewrite <- (length_seq n 0), <- Hlen. apply nth_error_Some. congruence. }
    destruct (Hnth k k) as [y [Ey Efy]].
    { rewrite (nth_error_nth' (seq 0 n) 0); [| now rewrite length_seq].
      now rewrite seq_nth. }
    rewrite Hk in Ey. inversion Ey; subst. exact Efy.
  - apply bind_returns in E. destruct E as [? [_ E]]. discriminate.
Qed.

(** A spectrogram is returned when the frame count is finite, every frame
    can be copied, and the loop of [reverseBits] ends. *)
Lemma calculateSpectrogram_returns (audioData : AudioData)
  (startTime duration fftSize hopSize : float) (k n bits bins : nat) :
  F64.iterations (numFramesOf audioData startTime duration fftSize hopSize) = Some k ->
  (forall frame, In frame (seq 0 k) ->
     exists frameSamples,
       copyFrame M audioData (startFrameOf audioData startTime) fftSize hopSize frame
         = Returns frameSamples /\ length frameSamples = n) ->
  F64.iterations (Math_log2 M (F64.of_nat n)) = Some bits ->
  F64.to_length (fftSize / 2)%float = Some bins ->
  exists data,
    calculateSpectrogram M audioData startTime duration fftSize hopSize = Returns data /\
    length (frames data) = k.
Proof.
  intros Ek Ecopy Ebits Ebins.
  assert (Ebody : forall frame, In frame (seq 0 k) ->
            exists spectrogramFrame,
              frameBody M audioData startTime (startFrameOf audioData startTime)
                fftSize hopSize frame = Returns spectrogramFrame).
  { intros frame Hin. destruct (Ecopy frame Hin) as [frameSamples [Ec Hlen]].
    destruct (frameBody_returns audioData startTime
                (startFrameOf audioData startTime) fftSize hopSize
                frame frameSamples bits bins Ec) as [sf [Esf _]].
    - rewrite Hlen. exact Ebits.
    - exact Ebins.
    - exists sf. exact Esf. }
  destruct (mapM_returns _ _ Ebody) as [fs [Efs Hlen]].
  unfold calculateSpectrogram. rewrite Ek, Efs. simpl.
  eexists. split; [reflexivity |]. simpl. now rewrite Hlen, length_seq.
Qed.

(** C1 (as the code runs): [fftSize = 6] is no power of two, and a
    spectrogram of eight samples with it is not refused.  Whatever the
    [Math] library, the call throws nothing: it returns two frames of three
    bins each (or runs for ever, if the engine's [Math.log2(6)] were
    infinite). *)
Theorem non_power_of_two_not_rejected :
  let audioData :=
    {| samples := [0.5; -0.5; 0.25; -0.25; 0.5; -0.5; 0.25; -0.25]%float;
       sampleRate := 8; duration := 1 |} in
  match calculateSpectrogram M audioData 0 1 6 2 with
  | Returns data =>
      length (frames data) = 2 /\
      Forall (fun frame => length (frequencyBins frame) = 3) (frames data)
  | Throws _ => False
  | Diverges => F64.iterations (Math_log2 M 6) = None
  end.
Proof.
  intros audioData.
  assert (Ebins : F64.to_length (6 / 2)%float = Some 3) by (vm_compute; reflexivity).
  assert (Ecopy : forall frame, In frame (seq 0 2) ->
            exists frameSamples,
              copyFrame M audioData (startFrameOf audioData 0) 6 2 frame
                = Returns frameSamples /\ length frameSamples = 6).
  { intros frame [<- | [<- | []]]; eexists; split;
      try (vm_compute; reflexivity); reflexivity. }
  destruct (F64.iterations (Math_log2 M 6)) as [k |] eqn:Ek.
  - destruct (calculateSpectrogram_returns audioData 0 1 6 2 2 6 k 3)
      as [data [E Hlen]];
      [vm_compute; reflexivity | exact Ecopy | exact Ek | exact Ebins |].
    rewrite E. split.
    + exact Hlen.
    + exact (calculateSpectrogram_bins audioData 0 1 6 2 3 data Ebins E).
  - assert (E : calculateSpectrogram M audioData 0 1 6 2 = Diverges).
    { unfold calculateSpectrogram.
      replace (F64.iterations (numFramesOf audioData 0 1 6 2)) with (Some 2)
        by (vm_compute; reflexivity).
      cbn [seq mapM].
      destruct (Ecopy 0 (or_introl eq_refl)) as [frameSamples [Ec Hlen]].
      rewrite (frameBody_diverges audioData 0 (startFrameOf audioData 0) 6 2 0
                 frameSamples Ec).
      - reflexivity.
      - intros Hnil. rewrite Hnil in Hlen. discriminate.
      - rewrite Hlen. exact Ek. }
    rewrite E. reflexivity.
Qed.

(** C9: the global range is computed from a spectrogram of the whole
    recording built with FFT size 2048 and hop size 512; the function has no
    parameter for either, and every frame it scans has 1024 bins. *)
Theorem global_range_fixed_analysis (audioData : AudioData) :
  (DEFAULTS_FFT_SIZE = 2048 /\ DEFAULTS_HOP_SIZE = 512)%float /\
  calculateGlobalDbRange M audioData =
    (fullSpectrogramData <-
       calculateSpectrogram M audioData 0 (duration audioData) 2048 512 ;;
     Returns (rangeOfFrames M (frames fullSpectrogramData))) /\
  forall fullSpectrogramData,
    calculateSpectrogram M audioData 0 (duration audioData) 2048 512
      = Returns fullSpectrogramData ->
    dataFftSize fullSpectrogramData = 2048%float /\
    dataHopSize fullSpectrogramData = 512%float /\
    Forall (fun frame => length (frequencyBins frame) = 1024)
           (frames fullSpectrogramData).
Proof.
  split; [split; reflexivity |].
  split; [reflexivity |].
  intros data E.
  destruct (calculateSpectrogram_parameters audioData 0 (duration audioData)
              2048 512 data E) as [Hfft Hhop].
  split; [exact Hfft |]. split; [exact Hhop |].
  apply (calculateSpectrogram_bins audioData 0 (duration audioData) 2048 512 1024
           data); [vm_compute; reflexivity | exact E].
Qed.

(** ** The global range *)

Lemma scanDb_below_floor (acc : float * float) (db : float) :
  (-120 <? db)%float = false -> scanDb M acc db = acc.
Proof.
  intros Hdb. unfold scanDb. destruct acc as [globalMinDb globalMaxDb].
  change (@MIN_DB_DISPLAY float (engine M)) with (F64.of_Z (-120)).
  replace (F64.of_Z (-120)) with (-120)%float by (vm_compute; reflexivity).
  rewrite Hdb. reflexivity.
Qed.

Lemma scanFrames_below_floor (frames : list SpectrogramFrame) :
  (forall frame db, In frame frames -> In db (frequencyBins frame) ->
                    (-120 <? db)%float = false) ->
  scanFrames M frames = (infinity, neg_infinity).
Proof.
  unfold scanFrames. generalize (infinity, neg_infinity).
  induction frames as [| frame rest IH]; intros acc Hq; simpl.
  - reflexivity.
  - assert (Hbins : forall bins, (forall db, In db bins -> (-120 <? db)%float = false) ->
                      fold_left (scanDb M) bins acc = acc).
    { induction bins as [| db bins IHb]; intros Hb; simpl.
      - reflexivity.
      - rewrite scanDb_below_floor by (apply Hb; left; reflexivity).
        apply IHb. intros db' Hin. apply Hb. right. exact Hin. }
    rewrite Hbins.
    + apply IH. intros f db Hf Hdb. apply (Hq f db); [right; exact Hf | exact Hdb].
    + intros db Hdb. apply (Hq frame db); [left; reflexivity | exact Hdb].
Qed.

(** The fallback of [calculateGlobalDbRange], on the frames alone. *)
Lemma rangeOfFrames_below_floor (frames : list SpectrogramFrame) :
  (forall frame db, In frame frames -> In db (frequencyBins frame) ->
                    (-120 <? db)%float = false) ->
  rangeOfFrames M frames = {| minDb := -120; maxDb := 0; dynamicRange := 120 |}.
Proof.
  intros Hq. unfold rangeOfFrames. rewrite (scanFrames_below_floor frames Hq).
  vm_compute. reflexivity.
Qed.

(** C4: when no dB value of the full-duration spectrogram exceeds the floor
    of -120 dB, the global range is exactly the fallback: minimum -120,
    maximum 0, dynamic range 120, every field a finite number. *)
Theorem global_range_fallback (audioData : AudioData)
  (fullSpectrogramData : SpectrogramData) :
  calculateSpectrogram M audioData 0 (duration audioData)
    DEFAULTS_FFT_SIZE DEFAULTS_HOP_SIZE = Returns fullSpectrogramData ->
  (forall frame db,
     In frame (frames fullSpectrogramData) -> In db (frequencyBins frame) ->
     (-120 <? db)%float = false) ->
  exists range,
    calculateGlobalDbRange M audioData = Returns range /\
    range = {| minDb := -120; maxDb := 0; dynamicRange := 120 |} /\
    is_finite (minDb range) = true /\
    is_finite (maxDb range) = true /\
    is_finite (dynamicRange range) = true.
Proof.
  intros E Hq. exists {| minDb := -120; maxDb := 0; dynamicRange := 120 |}.
  split.
  - unfold calculateGlobalDbRange. rewrite E. simpl.
    rewrite (rangeOfFrames_below_floor _ Hq). reflexivity.
  - split; [reflexivity |]. repeat split; vm_compute; reflexivity.
Qed.

End FrameLoop.

(** ** The window of the frame loop *)

Section Window.

Variable M : MathLib.

#[local] Instance windowEngine : Number float := engine M.

(** In binary64 the Hanning branch of [applyWindow] is the formula of the
    specification. *)
Lemma applyWindow_hanning (samples : list float) :
  applyWindow samples HANNING = hanningWindow M samples.
Proof.
  unfold applyWindow, hanningWindow. apply map_ext. intros i. reflexivity.
Qed.

(** C10: every frame of a spectrogram is the dB spectrum of its samples
    under the Hanning window: sample [i] of the [N] is multiplied by
    [0.5 (1 - cos (2 pi i / (N - 1)))] before the FFT, whatever the call.
    No other branch of [applyWindow] takes part. *)
Theorem frames_use_hanning (audioData : AudioData)
  (startTime duration fftSize hopSize : float) (data : SpectrogramData) :
  calculateSpectrogram M audioData startTime duration fftSize hopSize = Returns data ->
  forall k frame, nth_error (frames data) k = Some frame ->
    exists frameSamples fftResult powerSpectrum,
      copyFrame M audioData (startFrameOf audioData startTime) fftSize hopSize k
        = Returns frameSamples /\
      (forall i, i < length frameSamples ->
         nth i (applyWindow frameSamples HANNING) nan =
         F64.fround
           (nth i frameSamples nan *
            (0.5 * (1 - Math_cos M (2 * Math_PI * F64.of_nat i
                                    / (F64.of_nat (length frameSamples) - 1)))))%float) /\
      performFFT (hanningWindow M frameSamples) = Returns fftResult /\
      calculatePowerSpectrum fftResult fftSize = Returns powerSpectrum /\
      frequencyBins frame = dbValues (convertToDBSpectrum powerSpectrum fftSize).
Proof.
  intros E k frame Hk.
  pose proof (calculateSpectrogram_frames M audioData startTime duration fftSize
                hopSize data E k frame Hk) as Ebody.
  unfold frameBody in Ebody.
  apply bind_returns in Ebody. destruct Ebody as [frameSamples [Ecopy Ebody]].
  apply bind_returns in Ebody. destruct Ebody as [dbSpectrum [Edb Ebody]].
  inversion Ebody; subst; clear Ebody. simpl.
  unfold processFrame in Edb. rewrite applyWindow_hanning in Edb.
  apply bind_returns in Edb. destruct Edb as [fftResult [Efft Edb]].
  apply bind_returns in Edb. destruct Edb as [powerSpectrum [Epow Edb]].
  inversion Edb; subst; clear Edb.
  exists frameSamples, fftResult, powerSpectrum.
  split; [exact Ecopy |]. split.
  - intros i Hi. rewrite applyWindow_hanning. unfold hanningWindow.
    rewrite (nth_indep _ nan (F64.fround (nth 0 frameSamples nan * (0.5 * (1 - Math_cos M (2 * Math_PI * F64.of_nat 0 / (F64.of_nat (length frameSamples) - 1)))))%float))
      by now rewrite length_map, length_seq.
    rewrite (map_nth (fun i => F64.fround (nth i frameSamples nan * (0.5 * (1 - Math_cos M (2 * Math_PI * F64.of_nat i / (F64.of_nat (length frameSamples) - 1)))))%float)).
    rewrite seq_nth by exact Hi. reflexivity.
  - split; [exact Efft |]. split; [exact Epow | reflexivity].
Qed.

End Window.

(** A render of sixteen samples with [fftSize = 8] and [hopSize = 4]. *)
Lemma frames_use_hanning_witness :
  exists data,
    calculateSpectrogram refMath
      {| samples := [0; 1; 0; -1; 0; 1; 0; -1; 0; 1; 0; -1; 0; 1; 0; -1]%float;
         sampleRate := 16; duration := 1 |} 0 1 8 4 = Returns data /\
    exists frame, nth_error (frames data) 1 = Some frame /\
    exists frameSamples fftResult powerSpectrum,
      frameSamples = [0; 1; 0; -1; 0; 1; 0; -1]%float /\
      performFFT (H := engine refMath) (hanningWindow refMath frameSamples)
        = Returns fftResult /\
      calculatePowerSpectrum (H := engine refMath) fftResult 8%float
        = Returns powerSpectrum /\
      frequencyBins frame
        = dbValues (convertToDBSpectrum (H := engine refMath) powerSpectrum 8%float).
Proof.
  set (audioData := {| samples := [0; 1; 0; -1; 0; 1; 0; -1; 0; 1; 0; -1; 0; 1; 0; -1]%float;
                       sampleRate := 16; duration := 1 |}).
  destruct (calculateSpectrogram refMath audioData 0 1 8 4) as [data | |] eqn:E;
    [| vm_compute in E; discriminate E | vm_compute in E; discriminate E].
  exists data. split; [reflexivity |].
  destruct (nth_error (frames data) 1) as [frame |] eqn:Hk.
  - exists frame. split; [reflexivity |].
    destruct (frames_use_hanning refMath audioData 0 1 8 4 data E 1 frame Hk)
      as [frameSamples [fftResult [powerSpectrum [Ecopy [_ [Efft [Epow Ebins]]]]]]].
    exists frameSamples, fftResult, powerSpectrum.
    split.
    + vm_compute in Ecopy. inversion Ecopy. reflexivity.
    + split; [exact Efft |]. split; [exact Epow | exact Ebins].
  - exfalso. vm_compute in E. inversion E as [Hdata]. rewrite <- Hdata in Hk.
    discriminate Hk.
Defined.

(** ** Silence in binary64

    A frame of zeros stays a frame of zeros (or of NaN, where an engine's
    cosine is not a number) through the window, the FFT and the power
    spectrum, whatever the [Math] library; its dB values are all -120. *)

Section Silence.

Variable M : MathLib.

#[local] Instance silentEngine : Number float := engine M.

Lemma zeroOrNaN_mul_l (x y : float) :
  zeroOrNaN x = true -> zeroOrNaN (x * y)%float = true.
Proof.
  unfold zeroOrNaN. rewrite mul_spec.
  destruct (Prim2SF x), (Prim2SF y); simpl; intros Hx; try discriminate; reflexivity.
Qed.

Lemma zeroOrNaN_mul_r (x y : float) :
  zeroOrNaN y = true -> zeroOrNaN (x * y)%float = true.
Proof.
  unfold zeroOrNaN. rewrite mul_spec.
  destruct (Prim2SF x), (Prim2SF y); simpl; intros Hy; try discriminate; reflexivity.
Qed.

Lemma zeroOrNaN_add (x y : float) :
  zeroOrNaN x = true -> zeroOrNaN y = true -> zeroOrNaN (x + y)%float = true.
Proof.
  unfold zeroOrNaN. rewrite add_spec.
  destruct (Prim2SF x) as [[|] | | |], (Prim2SF y) as [[|] | | |]; simpl;
    intros Hx Hy; try discriminate; reflexivity.
Qed.

Lemma zeroOrNaN_sub (x y : float) :
  zeroOrNaN x = true -> zeroOrNaN y = true -> zeroOrNaN (x - y)%float = true.
Proof.
  unfold zeroOrNaN. rewrite sub_spec.
  destruct (Prim2SF x) as [[|] | | |], (Prim2SF y) as [[|] | | |]; simpl;
    intros Hx Hy; try discriminate; reflexivity.
Qed.

Lemma zeroOrNaN_div (x y : float) :
  zeroOrNaN x = true -> zeroOrNaN (x / y)%float = true.
Proof.
  unfold zeroOrNaN. rewrite div_spec.
  destruct (Prim2SF x), (Prim2SF y); simpl; intros Hx; try discriminate; reflexivity.
Qed.

Lemma zeroOrNaN_fround (x : float) :
  zeroOrNaN x = true -> zeroOrNaN (F64.fround x) = true.
Proof.
  unfold zeroOrNaN, F64.fround.
  destruct (Prim2SF x) eqn:E; intros Hx; try discriminate;
    rewrite E; reflexivity.
Qed.

Lemma zeroOrNaN_below (x y : float) :
  zeroOrNaN x = true ->
  match Prim2SF y with S754_finite false _ _ => True | _ => False end ->
  (y <? x)%float = false.
Proof.
  unfold zeroOrNaN. rewrite ltb_spec. unfold SFltb.
  destruct (Prim2SF x), (Prim2SF y) as [| | | [|] ? ?]; simpl;
    intros Hx Hy; try discriminate; try contradiction; reflexivity.
Qed.

Lemma silent_nth (xs : list float) (i : nat) :
  silent xs -> zeroOrNaN (nth i xs nan) = true.
Proof.
  intros Hs. destruct (Nat.lt_ge_cases i (length xs)) as [Hi | Hi].
  - apply (proj1 (Forall_forall _ _) Hs). now apply nth_In.
  - rewrite nth_overflow by exact Hi. reflexivity.
Qed.

Lemma silent_get (xs : list float) (i : nat) :
  silent xs -> zeroOrNaN (get xs i) = true.
Proof. apply silent_nth. Qed.

Lemma silent_getZ (xs : list float) (z : Z) :
  silent xs -> zeroOrNaN (getZ xs z) = true.
Proof.
  intros Hs. unfold getZ. destruct (_ && _)%bool; [| reflexivity].
  now apply silent_nth.
Qed.

Lemma silent_update (xs : list float) (i : nat) (v : float) :
  silent xs -> zeroOrNaN v = true -> silent (update xs i v).
Proof.
  intros Hs Hv. revert i. induction Hs as [| x rest Hx Hrest IH]; intros [| j]; simpl.
  - constructor.
  - constructor.
  - constructor; assumption.
  - constructor; [assumption | apply IH].
Qed.

Lemma silent_put (xs : list float) (i : nat) (v : float) :
  silent xs -> zeroOrNaN v = true -> silent (put xs i v).
Proof.
  intros Hs Hv. unfold put. apply silent_update; [exact Hs |].
  now apply zeroOrNaN_fround.
Qed.

Lemma silent_repeat_zero (n : nat) : silent (repeat 0%float n).
Proof. apply Forall_forall. intros x Hx. apply repeat_spec in Hx. now subst. Qed.

Lemma silent_fold {B : Type} (f : list float -> B -> list float) (ys : list B)
  (xs : list float) :
  (forall a y, silent a -> silent (f a y)) -> silent xs -> silent (fold_left f ys xs).
Proof.
  intros Hf. revert xs. induction ys as [| y rest IH]; intros xs Hs; simpl.
  - exact Hs.
  - apply IH. now apply Hf.
Qed.

Lemma applyWindow_silent (samples : list float) (windowType : WindowType) :
  silent samples -> silent (applyWindow samples windowType).
Proof.
  intros Hs. unfold applyWindow. apply Forall_forall. intros x Hx.
  apply in_map_iff in Hx. destruct Hx as [i [<- _]].
  apply zeroOrNaN_fround. apply zeroOrNaN_mul_l. now apply silent_get.
Qed.

Lemma butterfly_silent (halfSize : nat) (angleStep : float) (start : nat)
  (cv : list float) (i : nat) :
  silent cv -> silent (butterfly halfSize angleStep start cv i).
Proof.
  intros Hs. unfold butterfly.
  assert (Hg : forall j, zeroOrNaN (get cv j) = true) by (intros j; now apply silent_get).
  repeat apply silent_put; try exact Hs;
    first [apply zeroOrNaN_add | apply zeroOrNaN_sub]; try apply Hg;
    first [apply zeroOrNaN_add | apply zeroOrNaN_sub];
    apply zeroOrNaN_mul_r; apply Hg.
Qed.

Lemma pass_silent (n size : nat) (cv : list float) :
  silent cv -> silent (pass n size cv).
Proof.
  intros Hs. unfold pass. apply silent_fold; [| exact Hs].
  intros a start Ha. apply silent_fold; [| exact Ha].
  intros a' i Ha'. now apply butterfly_silent.
Qed.

Lemma sizeLoop_silent (fuel n size : nat) (cv : list float) :
  silent cv -> silent (sizeLoop fuel n size cv).
Proof.
  revert size cv. induction fuel as [| fuel IH]; intros size cv Hs; simpl.
  - exact Hs.
  - destruct (size <=? n); [| exact Hs]. apply IH. now apply pass_silent.
Qed.

Lemma permute_silent (samples cv : list float) :
  silent samples -> permute samples = Returns cv -> silent cv.
Proof.
  intros Hs. unfold permute.
  generalize (seq 0 (length samples)).
  assert (Hinit : silent (repeat (of_Z 0) (length samples * 2)))
    by apply silent_repeat_zero.
  revert Hinit. generalize (repeat (of_Z 0) (length samples * 2)).
  intros init Hinit indices. revert init Hinit cv.
  induction indices as [| i rest IH]; intros init Hinit cv E; simpl in E.
  - inversion E; subst. exact Hinit.
  - apply bind_returns in E. destruct E as [acc [Eacc E]].
    apply bind_returns in Eacc. destruct Eacc as [reversed [_ Eacc]].
    inversion Eacc; subst; clear Eacc.
    refine (IH _ _ cv E).
    apply silent_put; [| reflexivity].
    apply silent_put; [exact Hinit |]. now apply silent_getZ.
Qed.

Lemma performFFT_silent (samples : list float) (fftResult : FFTResult float) :
  silent samples -> performFFT samples = Returns fftResult ->
  silent (complexValues fftResult).
Proof.
  intros Hs E. unfold performFFT in E.
  apply bind_returns in E. destruct E as [cv [Ecv E]].
  inversion E; subst; simpl. apply sizeLoop_silent.
  exact (permute_silent samples cv Hs Ecv).
Qed.

Lemma calculatePowerSpectrum_silent (fftResult : FFTResult float) (fftSize : float)
  (powerSpectrum : PowerSpectrum float) :
  silent (complexValues fftResult) ->
  calculatePowerSpectrum fftResult fftSize = Returns powerSpectrum ->
  silent (powerValues powerSpectrum).
Proof.
  intros Hs E. unfold calculatePowerSpectrum in E.
  destruct (to_length _) as [bins |]; [| discriminate].
  inversion E; subst; simpl. apply Forall_forall. intros x Hx.
  apply in_map_iff in Hx. destruct Hx as [i [<- _]].
  apply zeroOrNaN_add; apply zeroOrNaN_mul_l; now apply silent_get.
Qed.

(** The dB value of no power is the floor. *)
Lemma powerToDb_silent (fftSize power : float) :
  zeroOrNaN power = true -> powerToDb fftSize power = (-120)%float.
Proof.
  intros Hp. unfold powerToDb.
  assert (Hn : zeroOrNaN (power / (fftSize * fftSize))%float = true)
    by now apply zeroOrNaN_div.
  change (gtb (div power (mul fftSize fftSize)) MIN_POWER_VALUE)
    with (F64.dec 1 (10 ^ 12) <? power / (fftSize * fftSize))%float.
  rewrite (zeroOrNaN_below _ (F64.dec 1 (10 ^ 12)) Hn) by (vm_compute; exact I).
  vm_compute. reflexivity.
Qed.

(** Binary64, any [Math] library: the dB spectrum of a silent frame is -120
    in every bin, for every FFT size. *)
Lemma processFrame_silent (windowType : WindowType) (frameSamples : list float)
  (fftSize : float) (dbSpectrum : DBSpectrum float) :
  silent frameSamples ->
  processFrame windowType frameSamples fftSize = Returns dbSpectrum ->
  Forall (fun db => db = (-120)%float) (dbValues dbSpectrum).
Proof.
  intros Hs E. unfold processFrame in E.
  apply bind_returns in E. destruct E as [fftResult [Efft E]].
  apply bind_returns in E. destruct E as [powerSpectrum [Epow E]].
  inversion E; subst; simpl.
  pose proof (performFFT_silent _ _ (applyWindow_silent _ windowType Hs) Efft) as Hcv.
  pose proof (calculatePowerSpectrum_silent _ _ _ Hcv Epow) as Hp.
  apply Forall_forall. intros db Hdb. apply in_map_iff in Hdb.
  destruct Hdb as [power [<- Hin]]. apply powerToDb_silent.
  exact (proj1 (Forall_forall _ _) Hp power Hin).
Qed.

Lemma read_silent (xs : list float) (x : float) :
  silent xs -> zeroOrNaN (read xs x) = true.
Proof.
  intros Hs. unfold read. destruct (index_in _ _); [| reflexivity].
  now apply silent_nth.
Qed.

Lemma copyFrame_silent (audioData : AudioData) (startFrame fftSize hopSize : float)
  (frame : nat) (frameSamples : list float) :
  silent (samples audioData) ->
  copyFrame M audioData startFrame fftSize hopSize frame = Returns frameSamples ->
  silent frameSamples.
Proof.
  intros Hs E. unfold copyFrame in E.
  destruct (F64.to_typed_length fftSize) as [n |]; [| discriminate].
  destruct (F64.iterations _) as [k |]; [| discriminate].
  inversion E; subst. apply silent_fold; [| apply silent_repeat_zero].
  intros a i Ha. apply silent_put; [exact Ha |]. now apply read_silent.
Qed.

(** A recording of zeros: every dB value of every frame is -120. *)
Lemma calculateSpectrogram_silent (audioData : AudioData)
  (startTime duration fftSize hopSize : float) (data : SpectrogramData) :
  silent (samples audioData) ->
  calculateSpectrogram M audioData startTime duration fftSize hopSize = Returns data ->
  forall frame db, In frame (frames data) -> In db (frequencyBins frame) ->
                   db = (-120)%float.
Proof.
  intros Hs E frame db Hframe Hdb.
  destruct (In_nth_error _ _ Hframe) as [k Hk].
  pose proof (calculateSpectrogram_frames M audioData startTime duration fftSize
                hopSize data E k frame Hk) as Ebody.
  unfold frameBody in Ebody.
  apply bind_returns in Ebody. destruct Ebody as [frameSamples [Ecopy Ebody]].
  apply bind_returns in Ebody. destruct Ebody as [dbSpectrum [Edb Ebody]].
  inversion Ebody; subst; clear Ebody. simpl in Hdb.
  pose proof (processFrame_silent HANNING frameSamples fftSize dbSpectrum
                (copyFrame_silent _ _ _ _ _ _ Hs Ecopy) Edb) as Hall.
  exact (proj1 (Forall_forall _ _) Hall db Hdb).
Qed.

(** The global range of a recording of zeros is the fallback. *)
Lemma calculateGlobalDbRange_silent (audioData : AudioData) (range : GlobalDBRange) :
  silent (samples audioData) ->
  calculateGlobalDbRange M audioData = Returns range ->
  range = {| minDb := -120; maxDb := 0; dynamicRange := 120 |}.
Proof.
  intros Hs E. unfold calculateGlobalDbRange in E.
  apply bind_returns in E. destruct E as [data [Edata E]].
  inversion E; subst. apply rangeOfFrames_below_floor.
  intros frame db Hframe Hdb.
  rewrite (calculateSpectrogram_silent audioData 0 (duration audioData)
             DEFAULTS_FFT_SIZE DEFAULTS_HOP_SIZE data Hs Edata frame db Hframe Hdb).
  vm_compute. reflexivity.
Qed.

End Silence.

(** A recording of 2048 zeros at 2048 Hz: one frame, every bin at -120. *)
Lemma global_range_fallback_witness :
  exists range,
    calculateGlobalDbRange refMath
      {| samples := repeat 0%float 2048; sampleRate := 2048; duration := 1 |}
      = Returns range /\
    range = {| minDb := -120; maxDb := 0; dynamicRange := 120 |}.
Proof.
  set (audioData := {| samples := repeat 0%float 2048; sampleRate := 2048;
                       duration := 1 |}).
  assert (Hs : silent (samples audioData)) by apply silent_repeat_zero.
  destruct (calculateSpectrogram_returns refMath audioData 0 (duration audioData)
              DEFAULTS_FFT_SIZE DEFAULTS_HOP_SIZE 1 2048 11 1024)
    as [data [E Hlen]].
  - vm_compute. reflexivity.
  - intros frame [<- | []]. exists (repeat 0%float 2048).
    split; [vm_compute; reflexivity | apply repeat_length].
  - vm_compute. reflexivity.
  - vm_compute. reflexivity.
  - destruct (global_range_fallback refMath audioData data E)
      as [range [Erange [Hrange _]]].
    + intros frame db Hframe Hdb.
      rewrite (calculateSpectrogram_silent refMath audioData 0 (duration audioData)
                 DEFAULTS_FFT_SIZE DEFAULTS_HOP_SIZE data Hs E frame db Hframe Hdb).
      vm_compute. reflexivity.
    + exists range. split; [exact Erange | exact Hrange].
Defined.

(** * The kernel in real arithmetic *)

Section IdealKernel.

Local Open Scope R_scope.

(** ** Bit reversal *)

Lemma ToInt32_small (z : Z) : (- 2 ^ 31 <= z < 2 ^ 31)%Z -> ToInt32 z = z.
Proof.
  intros Hz. unfold ToInt32. rewrite Z.mod_small; lia.
Qed.

Lemma reverseStep_exact (result x : Z) :
  (0 <= result < 2 ^ 30)%Z -> (0 <= x < 2 ^ 31)%Z ->
  reverseStep (result, x) = (2 * result + x mod 2, x / 2)%Z.
Proof.
  intros Hr Hx. unfold reverseStep, or32, shl32, and32, sar32.
  assert (Hb : (0 <= x mod 2 < 2)%Z) by (apply Z.mod_pos_bound; lia).
  rewrite !(ToInt32_small x) by lia. rewrite (ToInt32_small result) by lia.
  rewrite (ToInt32_small 1) by lia.
  change (1 mod 32)%Z with 1%Z.
  rewrite Z.shiftl_mul_pow2 by lia. rewrite Z.shiftr_div_pow2 by lia.
  change (2 ^ 1)%Z with 2%Z.
  assert (Hand : Z.land x 1 = (x mod 2)%Z).
  { change 1%Z with (Z.ones 1). rewrite Z.land_ones by lia. reflexivity. }
  rewrite Hand.
  rewrite !(ToInt32_small (result * 2)) by lia.
  rewrite !(ToInt32_small (x mod 2)) by lia.
  f_equal.
  assert (Hland : Z.land (result * 2) (x mod 2) = 0%Z).
  { assert (Hcases : (x mod 2 = 0 \/ x mod 2 = 1)%Z) by lia.
    destruct Hcases as [-> | ->].
    - apply Z.land_0_r.
    - change 1%Z with (Z.ones 1). rewrite Z.land_ones by lia.
      change (2 ^ 1)%Z with 2%Z. apply Z.mod_mul. lia. }
  pose proof (Z.add_lor_land (result * 2) (x mod 2)) as Hadd.
  rewrite Hland in Hadd. lia.
Qed.

Lemma bitReverse_range (bits : nat) (x : Z) :
  (0 <= bitReverse bits x < 2 ^ Z.of_nat bits)%Z.
Proof.
  revert x. induction bits as [| bits IH]; intros x.
  - simpl. lia.
  - cbn [bitReverse]. specialize (IH (x / 2)%Z).
    assert (Hb : (0 <= x mod 2 < 2)%Z) by (apply Z.mod_pos_bound; lia).
    rewrite Nat2Z.inj_succ, Z.pow_succ_r by lia. nia.
Qed.

Lemma reverse_loop (bits used : nat) (result x : Z) :
  (used + bits <= 31)%nat ->
  (0 <= result < 2 ^ Z.of_nat used)%Z -> (0 <= x < 2 ^ 31)%Z ->
  Nat.iter bits reverseStep (result, x) =
    (result * 2 ^ Z.of_nat bits + bitReverse bits x, x / 2 ^ Z.of_nat bits)%Z.
Proof.
  revert used result x.
  induction bits as [| bits IH]; intros used result x Hused Hr Hx.
  - simpl. rewrite Z.div_1_r. f_equal. lia.
  - rewrite Nat.iter_succ_r.
    assert (Hsucc : (2 ^ Z.of_nat (S bits) = 2 * 2 ^ Z.of_nat bits)%Z)
      by (rewrite Nat2Z.inj_succ, Z.pow_succ_r; lia).
    assert (Hb : (0 <= x mod 2 < 2)%Z) by (apply Z.mod_pos_bound; lia).
    assert (Hpow : (2 ^ Z.of_nat used <= 2 ^ 30)%Z)
      by (apply Z.pow_le_mono_r; lia).
    rewrite reverseStep_exact by lia.
    rewrite (IH (S used)).
    + cbn [bitReverse]. rewrite Hsucc. f_equal.
      * ring.
      * rewrite Z.div_div by lia. reflexivity.
    + lia.
    + rewrite Nat2Z.inj_succ, Z.pow_succ_r by lia. lia.
    + split; [apply Z.div_pos; lia |].
      apply Z.div_lt_upper_bound; lia.
Qed.

(** Without overflow the loop of [reverseBits] is the bit reversal. *)
Lemma reverse_bits_exact (bits : nat) (x : Z) :
  (bits <= 31)%nat -> (0 <= x < 2 ^ 31)%Z ->
  fst (Nat.iter bits reverseStep (0%Z, x)) = bitReverse bits x.
Proof.
  intros Hbits Hx. rewrite (reverse_loop bits 0); [simpl; lia | lia | | exact Hx].
  simpl. lia.
Qed.

(** ** The ideal instance on integers *)

Lemma ideal_of_nat (n : nat) : of_nat (T := R) n = INR n.
Proof. unfold of_nat. simpl. symmetry. apply INR_IZR_INZ. Qed.

Lemma ideal_iterations_INR (n : nat) : iterations (T := R) (INR n) = Some n.
Proof.
  change (Ideal.iterations (INR n) = Some n). unfold Ideal.iterations. rewrite Int_part_INR.
  destruct (Req_dec_T (IZR (Z.of_nat n)) (INR n)) as [_ | Hne].
  - now rewrite Nat2Z.id.
  - exfalso. apply Hne. symmetry. apply INR_IZR_INZ.
Qed.

Lemma ideal_log2_pow2 (m : nat) : log2 (T := R) (of_nat (2 ^ m)) = INR m.
Proof.
  rewrite ideal_of_nat. simpl. rewrite pow_INR. simpl INR.
  replace (1 + 1)%R with 2%R by ring.
  rewrite ln_pow by lra. field.
  apply Rgt_not_eq. rewrite <- ln_1. apply ln_increasing; lra.
Qed.


(** ** Complex sums and roots of unity *)

Lemma C_eq (a b : Complex) : fst a = fst b -> snd a = snd b -> a = b.
Proof. destruct a, b; simpl; intros -> ->; reflexivity. Qed.

Ltac c_ring := apply C_eq; unfold Cadd, Csub, Cmul; simpl; ring.

Lemma Cadd_assoc (a b c : Complex) : Cadd (Cadd a b) c = Cadd a (Cadd b c).
Proof. c_ring. Qed.

Lemma Cadd_0_l (a : Complex) : Cadd (0, 0) a = a.
Proof. c_ring. Qed.

Lemma Cmul_1_r (a : Complex) : Cmul a (1, 0) = a.
Proof. c_ring. Qed.

Lemma Csum_ext (f g : nat -> Complex) (n : nat) :
  (forall j, (j < n)%nat -> f j = g j) -> Csum f n = Csum g n.
Proof.
  induction n as [| n IH]; intros Hfg; simpl.
  - reflexivity.
  - rewrite IH by (intros j Hj; apply Hfg; lia). rewrite Hfg by lia. reflexivity.
Qed.

Lemma Csum_add (f g : nat -> Complex) (n : nat) :
  Csum (fun j => Cadd (f j) (g j)) n = Cadd (Csum f n) (Csum g n).
Proof.
  induction n as [| n IH]; simpl.
  - c_ring.
  - rewrite IH. c_ring.
Qed.

Lemma Csum_sub (f g : nat -> Complex) (n : nat) :
  Csum (fun j => Csub (f j) (g j)) n = Csub (Csum f n) (Csum g n).
Proof.
  induction n as [| n IH]; simpl.
  - c_ring.
  - rewrite IH. c_ring.
Qed.

Lemma Csum_mul_l (c : Complex) (f : nat -> Complex) (n : nat) :
  Csum (fun j => Cmul c (f j)) n = Cmul c (Csum f n).
Proof.
  induction n as [| n IH]; simpl.
  - c_ring.
  - rewrite IH. c_ring.
Qed.

(** A sum of [2 n] terms, split into the even and the odd ones. *)
Lemma Csum_even_odd (f : nat -> Complex) (n : nat) :
  Csum f (2 * n) =
  Cadd (Csum (fun j => f (2 * j)%nat) n) (Csum (fun j => f (2 * j + 1)%nat) n).
Proof.
  induction n as [| n IH].
  - simpl. c_ring.
  - replace (2 * S n)%nat with (S (S (2 * n))) by lia.
    cbn [Csum]. rewrite IH.
    replace (S (2 * n)) with (2 * n + 1)%nat by lia.
    c_ring.
Qed.

Lemma cis_plus (a b : R) : cis (a + b) = Cmul (cis a) (cis b).
Proof.
  apply C_eq; unfold cis, Cmul; simpl.
  - apply cos_plus.
  - rewrite sin_plus. ring.
Qed.

Lemma cis_0 : cis 0 = (1, 0).
Proof. unfold cis. now rewrite cos_0, sin_0. Qed.

Lemma cis_turns (j : nat) : cis (- (2 * INR j * Rtrigo1.PI)) = (1, 0).
Proof.
  unfold cis. rewrite cos_neg, sin_neg.
  replace (2 * INR j * Rtrigo1.PI) with (0 + 2 * INR j * Rtrigo1.PI) by ring.
  rewrite cos_period, sin_period, cos_0, sin_0. f_equal. ring.
Qed.

Lemma cis_half_turn : cis (- Rtrigo1.PI) = (-1, 0).
Proof.
  unfold cis. rewrite cos_neg, sin_neg, cos_PI, sin_PI. f_equal. ring.
Qed.

Lemma omega_add (s t u : nat) :
  (0 < s)%nat -> omega s (t + u) = Cmul (omega s t) (omega s u).
Proof.
  intros Hs. unfold omega. rewrite <- cis_plus. f_equal.
  rewrite plus_INR. field. apply not_0_INR. lia.
Qed.

Lemma omega_double (s t : nat) :
  (0 < s)%nat -> omega (2 * s) (2 * t) = omega s t.
Proof.
  intros Hs. unfold omega. f_equal. rewrite !mult_INR. simpl INR.
  field. apply not_0_INR. lia.
Qed.

Lemma omega_turns (s j : nat) : (0 < s)%nat -> omega s (s * j) = (1, 0).
Proof.
  intros Hs. unfold omega. rewrite <- (cis_turns j). f_equal.
  rewrite mult_INR. field. apply not_0_INR. lia.
Qed.

Lemma omega_half (s : nat) : (0 < s)%nat -> omega (2 * s) s = (-1, 0).
Proof.
  intros Hs. unfold omega. rewrite <- cis_half_turn. f_equal.
  rewrite mult_INR. simpl INR. field. apply not_0_INR. lia.
Qed.

Lemma omega_0 (s : nat) : omega s 0 = (1, 0).
Proof.
  unfold omega. rewrite <- cis_0. f_equal. simpl INR. unfold Rdiv. ring.
Qed.

(** ** The passes of [performFFT] in real arithmetic *)

Lemma nth_update {A : Type} (a : list A) (i : nat) (v : A) (j : nat) (d : A) :
  nth j (update a i v) d =
  if ((j =? i)%nat && (i <? length a)%nat)%bool then v else nth j a d.
Proof.
  revert i j. induction a as [| x rest IH]; intros i j.
  - simpl. destruct j, i; simpl; try reflexivity.
    + now rewrite andb_false_r.
  - destruct i as [| i], j as [| j]; simpl; try reflexivity.
    rewrite IH. reflexivity.
Qed.

Lemma ideal_put (cv : list R) (i : nat) (v : R) : put cv i v = update cv i v.
Proof. reflexivity. Qed.

Lemma ideal_get (cv : list R) (i : nat) : get cv i = nth i cv 0.
Proof. reflexivity. Qed.

(** Storing a complex number at position [p]. *)
Lemma complexAt_put2 (cv : list R) (p k : nat) (re im : R) :
  (p * 2 + 1 < length cv)%nat ->
  complexAt (put (put cv (p * 2) re) (p * 2 + 1) im) k =
  if (k =? p)%nat then (re, im) else complexAt cv k.
Proof.
  intros Hp. unfold complexAt. rewrite !ideal_put, !nth_update, !update_length.
  destruct (Nat.eqb_spec k p) as [-> | Hne].
  - rewrite Nat.eqb_refl.
    replace (p * 2 =? p * 2 + 1)%nat with false by (symmetry; apply Nat.eqb_neq; lia).
    replace (p * 2 + 1 <? length cv)%nat with true by (symmetry; apply Nat.ltb_lt; lia).
    replace (p * 2 <? length cv)%nat with true by (symmetry; apply Nat.ltb_lt; lia).
    rewrite Nat.eqb_refl. reflexivity.
  - replace (k * 2 =? p * 2 + 1)%nat with false by (symmetry; apply Nat.eqb_neq; lia).
    replace (k * 2 =? p * 2)%nat with false by (symmetry; apply Nat.eqb_neq; lia).
    replace (k * 2 + 1 =? p * 2 + 1)%nat with false by (symmetry; apply Nat.eqb_neq; lia).
    replace (k * 2 + 1 =? p * 2)%nat with false by (symmetry; apply Nat.eqb_neq; lia).
    reflexivity.
Qed.

(** One butterfly: positions [start + i] and [start + i + halfSize] become
    [E + w O] and [E - w O]. *)
Lemma butterfly_complexAt (halfSize : nat) (angleStep : R) (start : nat)
  (cv : list R) (i k : nat) :
  (0 < halfSize)%nat -> ((start + i + halfSize) * 2 + 1 < length cv)%nat ->
  complexAt (butterfly halfSize angleStep start cv i) k =
  let E := complexAt cv (start + i) in
  let O := complexAt cv (start + i + halfSize) in
  let w := cis (angleStep * INR i) in
  if (k =? start + i)%nat then Cadd E (Cmul w O)
  else if (k =? start + i + halfSize)%nat then Csub E (Cmul w O)
  else complexAt cv k.
Proof.
  intros Hh Hlen. unfold butterfly. cbv zeta.
  rewrite complexAt_put2 by (rewrite !put_length; lia).
  rewrite complexAt_put2 by lia.
  rewrite !ideal_get. change (@of_nat R ideal i) with (IZR (Z.of_nat i)).
  rewrite <- INR_IZR_INZ.
  destruct (Nat.eqb_spec k (start + i)) as [-> | Hne1].
  - apply C_eq; unfold Cadd, Cmul, complexAt, cis; simpl; reflexivity.
  - destruct (Nat.eqb_spec k (start + i + halfSize)) as [-> | Hne2].
    + apply C_eq; unfold Csub, Cmul, complexAt, cis; simpl; reflexivity.
    + reflexivity.
Qed.

Ltac bool_cases :=
  repeat match goal with
    | |- context [(?a <=? ?b)%nat] => destruct (Nat.leb_spec a b)
    | |- context [(?a <? ?b)%nat] => destruct (Nat.ltb_spec a b)
    | |- context [(?a =? ?b)%nat] => destruct (Nat.eqb_spec a b)
    end; simpl; try lia.

Lemma butterflies_length (halfSize : nat) (angleStep : R) (start : nat)
  (indices : list nat) (cv : list R) :
  length (fold_left (butterfly halfSize angleStep start) indices cv) = length cv.
Proof. apply fold_left_length. intros a i. apply butterfly_length. Qed.

(** The inner loop over one block, after [done] butterflies. *)
Lemma block_complexAt (halfSize : nat) (angleStep : R) (start : nat)
  (cv : list R) (done k : nat) :
  (0 < halfSize)%nat -> (done <= halfSize)%nat ->
  ((start + 2 * halfSize) * 2 <= length cv)%nat ->
  complexAt (fold_left (butterfly halfSize angleStep start) (seq 0 done) cv) k =
  if ((start <=? k) && (k <? start + done))%nat
  then Cadd (complexAt cv k)
            (Cmul (cis (angleStep * INR (k - start))) (complexAt cv (k + halfSize)))
  else if ((start + halfSize <=? k) && (k <? start + halfSize + done))%nat
  then Csub (complexAt cv (k - halfSize))
            (Cmul (cis (angleStep * INR (k - halfSize - start))) (complexAt cv k))
  else complexAt cv k.
Proof.
  intros Hh Hdone Hlen. revert k. induction done as [| done IH]; intros k.
  - simpl. bool_cases; reflexivity.
  - rewrite seq_S, fold_left_app. cbn [fold_left Nat.add].
    rewrite butterfly_complexAt;
      [| exact Hh | rewrite butterflies_length; lia].
    cbv zeta. rewrite !IH by lia.
    destruct (Nat.eqb_spec k (start + done)) as [-> | Hne1].
    + replace (start + done - start)%nat with done by lia.
      bool_cases; reflexivity.
    + destruct (Nat.eqb_spec k (start + done + halfSize)) as [-> | Hne2].
      * replace (start + done + halfSize - halfSize)%nat with (start + done)%nat by lia.
        replace (start + done - start)%nat with done by lia.
        bool_cases; reflexivity.
      * bool_cases; reflexivity.
Qed.

Lemma twiddle_omega (size i : nat) :
  (0 < size)%nat ->
  cis (@div R ideal (@mul R ideal (@of_Z R ideal (-2)) (@PI R ideal))
         (@of_nat R ideal size) * INR i) = omega size i.
Proof.
  intros Hs. unfold omega. f_equal. rewrite ideal_of_nat. simpl.
  field. apply not_0_INR. lia.
Qed.

Lemma blocks_complexAt (halfSize : nat) (cv : list R) (blocks done k : nat) :
  (0 < halfSize)%nat -> (done <= blocks)%nat ->
  length cv = (blocks * (2 * halfSize) * 2)%nat ->
  let size := (2 * halfSize)%nat in
  let angleStep :=
    @div R ideal (@mul R ideal (@of_Z R ideal (-2)) (@PI R ideal))
      (@of_nat R ideal size) in
  complexAt
    (fold_left
       (fun cv start => fold_left (butterfly halfSize angleStep start)
                                  (seq 0 halfSize) cv)
       (map (fun b => b * size)%nat (seq 0 done)) cv) k =
  if (k <? done * size)%nat then passAt halfSize cv k else complexAt cv k.
Proof.
  intros Hh Hdone Hlen size angleStep. subst size angleStep. revert k.
  induction done as [| done IH]; intros k.
  - simpl. reflexivity.
  - rewrite seq_S, map_app, fold_left_app. cbn [map fold_left Nat.add].
    rewrite block_complexAt; [| exact Hh | lia |].
    2:{ rewrite fold_left_length.
        - rewrite Hlen. nia.
        - intros a start. apply butterflies_length. }
    rewrite !IH by lia. rewrite !twiddle_omega by lia.
    destruct (Nat.ltb_spec k (done * (2 * halfSize))) as [Hlt | Hge].
    + replace (k <? S done * (2 * halfSize))%nat with true
        by (symmetry; apply Nat.ltb_lt; lia).
      bool_cases; reflexivity.
    + destruct (Nat.ltb_spec k (S done * (2 * halfSize))) as [Hlt2 | Hge2].
      * assert (Hkmod : (k mod (2 * halfSize) = k - done * (2 * halfSize))%nat).
        { replace k with ((k - done * (2 * halfSize)) + done * (2 * halfSize))%nat
            at 1 by lia.
          rewrite Nat.Div0.mod_add. apply Nat.mod_small. lia. }
        unfold passAt. cbv zeta. rewrite Hkmod.
        destruct (Nat.ltb_spec (k - done * (2 * halfSize)) halfSize) as [Hr | Hr].
        -- replace ((done * (2 * halfSize) <=? k) && (k <? done * (2 * halfSize) + halfSize))%bool
             with true by (symmetry; apply andb_true_iff; split;
                           [apply Nat.leb_le | apply Nat.ltb_lt]; lia).
           replace (k + halfSize <? done * (2 * halfSize))%nat with false
             by (symmetry; apply Nat.ltb_ge; lia).
           reflexivity.
        -- replace ((done * (2 * halfSize) <=? k) && (k <? done * (2 * halfSize) + halfSize))%bool
             with false by (symmetry; apply andb_false_iff; right; apply Nat.ltb_ge; lia).
           replace ((done * (2 * halfSize) + halfSize <=? k)
                    && (k <? done * (2 * halfSize) + halfSize + halfSize))%bool
             with true by (symmetry; apply andb_true_iff; split;
                           [apply Nat.leb_le | apply Nat.ltb_lt]; lia).
           replace (k - halfSize <? done * (2 * halfSize))%nat with false
             by (symmetry; apply Nat.ltb_ge; lia).
           replace (k - halfSize - done * (2 * halfSize))%nat
             with (k - done * (2 * halfSize) - halfSize)%nat by lia.
           reflexivity.
      * bool_cases; reflexivity.
Qed.

(** One pass over an array of [blocks] blocks of width [2 halfSize]. *)
Lemma pass_complexAt (halfSize blocks : nat) (cv : list R) (k : nat) :
  (0 < halfSize)%nat ->
  length cv = (blocks * (2 * halfSize) * 2)%nat ->
  (k < blocks * (2 * halfSize))%nat ->
  complexAt (pass (blocks * (2 * halfSize)) (2 * halfSize) cv) k
  = passAt halfSize cv k.
Proof.
  intros Hh Hlen Hk. unfold pass, starts.
  replace ((blocks * (2 * halfSize) + 2 * halfSize - 1) / (2 * halfSize))%nat
    with blocks.
  2:{ replace (blocks * (2 * halfSize) + 2 * halfSize - 1)%nat
        with (blocks * (2 * halfSize) + (2 * halfSize - 1))%nat by lia.
      rewrite Nat.div_add_l by lia. rewrite Nat.div_small by lia. lia. }
  replace (2 * halfSize / 2)%nat with halfSize
    by (rewrite Nat.mul_comm, Nat.div_mul; lia).
  rewrite (blocks_complexAt halfSize cv blocks blocks k Hh (le_n _) Hlen).
  replace (k <? blocks * (2 * halfSize))%nat with true
    by (symmetry; apply Nat.ltb_lt; lia).
  reflexivity.
Qed.

(** The loop over [size] runs the passes for 2, 4, ..., [2 ^ m]. *)
Lemma sizeLoop_passes (m remaining p fuel : nat) (cv : list R) :
  (p + remaining = m + 1)%nat -> (remaining <= fuel)%nat ->
  sizeLoop fuel (2 ^ m) (2 ^ p) cv =
  fold_left (fun cv q => pass (2 ^ m) (2 ^ q) cv) (seq p remaining) cv.
Proof.
  revert p fuel cv. induction remaining as [| remaining IH]; intros p fuel cv Hp Hfuel.
  - simpl. destruct fuel as [| fuel]; [reflexivity |]. simpl.
    replace (2 ^ p <=? 2 ^ m)%nat with false; [reflexivity |].
    symmetry. apply Nat.leb_gt. apply Nat.pow_lt_mono_r; lia.
  - destruct fuel as [| fuel]; [lia |]. cbn [sizeLoop seq fold_left].
    replace (2 ^ p <=? 2 ^ m)%nat with true
      by (symmetry; apply Nat.leb_le; apply Nat.pow_le_mono_r; lia).
    replace (2 ^ p * 2)%nat with (2 ^ S p)%nat by (rewrite Nat.pow_succ_r'; lia).
    apply IH; lia.
Qed.

(** ** The permutation *)

Lemma foldM_ext {A B : Type} (f g : A -> B -> outcome A) (xs : list B) (a : A) :
  (forall acc x, In x xs -> f acc x = g acc x) -> foldM f xs a = foldM g xs a.
Proof.
  revert a. induction xs as [| x rest IH]; intros a Hfg; simpl.
  - reflexivity.
  - rewrite Hfg by (left; reflexivity). destruct (g a x); simpl; try reflexivity.
    apply IH. intros acc y Hy. apply Hfg. right. exact Hy.
Qed.

Lemma foldM_pure {A B : Type} (g : A -> B -> A) (xs : list B) (a : A) :
  foldM (fun acc x => Returns (g acc x)) xs a = Returns (fold_left g xs a).
Proof.
  revert a. induction xs as [| x rest IH]; intros a; simpl; [reflexivity | apply IH].
Qed.

(** Filling positions [0 .. done - 1] with the numbers [f i + 0 i]. *)
Lemma fill_complexAt (f : nat -> R) (cv : list R) (done k : nat) :
  (done * 2 <= length cv)%nat ->
  complexAt
    (fold_left (fun cv i => put (put cv (i * 2) (f i)) (i * 2 + 1) 0)
               (seq 0 done) cv) k =
  if (k <? done)%nat then (f k, 0) else complexAt cv k.
Proof.
  intros Hlen. revert k. induction done as [| done IH]; intros k.
  - reflexivity.
  - rewrite seq_S, fold_left_app. cbn [fold_left Nat.add].
    rewrite complexAt_put2.
    + rewrite IH by lia. bool_cases; try reflexivity. now subst.
    + rewrite fold_left_length; [lia |].
      intros a i. now rewrite !put_length.
Qed.


Lemma reverseBits_ideal (m i : nat) :
  (m <= 31)%nat -> (i < 2 ^ m)%nat ->
  reverseBits (Z.of_nat i) (log2 (T := R) (of_nat (2 ^ m)))
  = Returns (bitReverse m (Z.of_nat i)).
Proof.
  intros Hm Hi. rewrite ideal_log2_pow2.
  rewrite (reverseBits_returns (Z.of_nat i) (INR m) m (ideal_iterations_INR m)).
  rewrite reverse_bits_exact; [reflexivity | exact Hm |].
  split; [lia |].
  apply Z.lt_le_trans with (Z.of_nat (2 ^ m)); [lia |].
  rewrite Nat2Z.inj_pow. change (Z.of_nat 2) with 2%Z.
  apply Z.pow_le_mono_r; lia.
Qed.

(** The bit-reversal permutation: position [i] receives sample
    [reverseBits(i, log2 N)], with imaginary part 0. *)
Lemma permute_ideal (m : nat) (samples : list R) :
  (m <= 31)%nat -> length samples = (2 ^ m)%nat ->
  exists cv,
    permute samples = Returns cv /\
    length cv = (2 ^ m * 2)%nat /\
    forall i, (i < 2 ^ m)%nat ->
      complexAt cv i = (nth (reversedIndex m i) samples 0, 0).
Proof.
  intros Hm Hlen. unfold permute. rewrite Hlen.
  rewrite (foldM_ext _
             (fun cv i => Returns (put (put cv (i * 2)
                                          (nth (reversedIndex m i) samples 0))
                                       (i * 2 + 1) 0))).
  - rewrite foldM_pure. eexists. split; [reflexivity |]. split.
    + rewrite fold_left_length; [apply repeat_length |].
      intros a i. now rewrite !put_length.
    + intros i Hi. rewrite fill_complexAt by (rewrite repeat_length; lia).
      replace (i <? 2 ^ m)%nat with true by (symmetry; apply Nat.ltb_lt; lia).
      reflexivity.
  - intros acc i Hin. apply in_seq in Hin.
    rewrite reverseBits_ideal by lia. simpl bind.
    do 3 f_equal. unfold getZ, reversedIndex.
    pose proof (bitReverse_range m (Z.of_nat i)) as Hr.
    replace ((0 <=? bitReverse m (Z.of_nat i))%Z
             && (bitReverse m (Z.of_nat i) <? Z.of_nat (length samples))%Z)
      with true; [reflexivity |].
    symmetry. apply andb_true_iff. split; [apply Z.leb_le; lia |].
    apply Z.ltb_lt. rewrite Hlen, Nat2Z.inj_pow. exact (proj2 Hr).
Qed.

(** ** From the permutation to the transform *)

Lemma reversedIndex_even (q b : nat) :
  reversedIndex (S q) (2 * b) = reversedIndex q b.
Proof.
  unfold reversedIndex. cbn [bitReverse].
  replace (Z.of_nat (2 * b)) with (Z.of_nat b * 2)%Z by lia.
  rewrite Z.mod_mul, Z.div_mul by lia. f_equal; lia.
Qed.

Lemma reversedIndex_odd (q b : nat) :
  reversedIndex (S q) (2 * b + 1) = (2 ^ q + reversedIndex q b)%nat.
Proof.
  unfold reversedIndex. cbn [bitReverse].
  replace (Z.of_nat (2 * b + 1)) with (1 + Z.of_nat b * 2)%Z by lia.
  rewrite Z.mod_add, Z.div_add by lia.
  change (1 mod 2)%Z with 1%Z. change (1 / 2)%Z with 0%Z.
  pose proof (bitReverse_range q (Z.of_nat b)) as Hr.
  rewrite Z.mul_1_l, Z.add_0_l.
  rewrite Z2Nat.inj_add; [| apply Z.pow_nonneg; lia | lia].
  f_equal. rewrite <- (Nat2Z.id (2 ^ q)). f_equal.
  rewrite Nat2Z.inj_pow. reflexivity.
Qed.

Lemma twiddle_even (h j k : nat) :
  (0 < h)%nat -> omega (2 * h) (2 * j * k) = omega h (j * k).
Proof.
  intros Hh. replace (2 * j * k)%nat with (2 * (j * k))%nat by lia.
  now apply omega_double.
Qed.

Lemma twiddle_odd (h j k : nat) :
  (0 < h)%nat ->
  omega (2 * h) ((2 * j + 1) * k) = Cmul (omega h (j * k)) (omega (2 * h) k).
Proof.
  intros Hh. replace ((2 * j + 1) * k)%nat with (2 * (j * k) + k)%nat by lia.
  rewrite omega_add by lia. now rewrite omega_double.
Qed.

Lemma twiddle_even_high (h j k : nat) :
  (0 < h)%nat -> omega (2 * h) (2 * j * (k + h)) = omega h (j * k).
Proof.
  intros Hh. replace (2 * j * (k + h))%nat with (2 * (j * k + h * j))%nat by lia.
  rewrite omega_double, omega_add, omega_turns by lia. apply Cmul_1_r.
Qed.

Lemma twiddle_odd_high (h j k : nat) :
  (0 < h)%nat ->
  omega (2 * h) ((2 * j + 1) * (k + h)) =
  Cmul (omega h (j * k)) (Cmul (-1, 0) (omega (2 * h) k)).
Proof.
  intros Hh.
  replace ((2 * j + 1) * (k + h))%nat with (2 * (j * k + h * j) + (k + h))%nat by lia.
  rewrite omega_add, omega_double, !omega_add, omega_turns, omega_half by lia.
  c_ring.
Qed.

Lemma stage_permuted (samples : list R) (m : nat) (cv : list R) :
  (forall i, (i < 2 ^ m)%nat ->
     complexAt cv i = (nth (reversedIndex m i) samples 0, 0)) ->
  stage samples m 0 cv.
Proof.
  intros Hcv b k Hb Hk. rewrite Nat.sub_0_r in Hb. simpl in Hk.
  replace k with 0%nat by lia.
  replace (b * 2 ^ 0 + 0)%nat with b by (simpl; lia).
  rewrite Hcv by exact Hb. unfold blockDFT. rewrite Nat.sub_0_r.
  simpl Csum. rewrite omega_0, Nat.add_0_r. c_ring.
Qed.

Lemma stage_pass (samples : list R) (m p : nat) (cv : list R) :
  (p < m)%nat -> length cv = (2 ^ m * 2)%nat ->
  stage samples m p cv ->
  stage samples m (S p) (pass (2 ^ m) (2 ^ S p) cv).
Proof.
  intros Hp Hlen Hstage b k Hb Hk.
  set (h := (2 ^ p)%nat) in *.
  assert (Hh : (0 < h)%nat) by (subst h; apply Nat.neq_0_lt_0, Nat.pow_nonzero; lia).
  set (blocks := (2 ^ (m - S p))%nat) in *.
  assert (Hsize : (2 ^ S p = 2 * h)%nat) by (subst h; apply Nat.pow_succ_r').
  assert (Htotal : (2 ^ m = blocks * (2 * h))%nat).
  { subst blocks. rewrite <- Hsize, <- Nat.pow_add_r. f_equal. lia. }
  assert (Hhalf : (2 ^ (m - p) = 2 * blocks)%nat).
  { subst blocks. rewrite <- Nat.pow_succ_r'. f_equal. lia. }
  assert (Hq : (m - p = S (m - S p))%nat) by lia.
  rewrite Hsize in *. rewrite Htotal in Hlen |- *.
  rewrite pass_complexAt by (try assumption; nia).
  unfold passAt. cbv zeta.
  assert (Hmod : ((b * (2 * h) + k) mod (2 * h) = k)%nat).
  { rewrite Nat.add_comm, Nat.Div0.mod_add. now apply Nat.mod_small. }
  rewrite Hmod.
  assert (Heven : forall k', (k' < h)%nat ->
            complexAt cv (b * (2 * h) + k') = blockDFT samples m p (2 * b) k').
  { intros k' Hk'. rewrite <- Hstage by (fold h; lia).
    fold h. f_equal. lia. }
  assert (Hodd : forall k', (k' < h)%nat ->
            complexAt cv (b * (2 * h) + k' + h)
            = blockDFT samples m p (2 * b + 1) k').
  { intros k' Hk'. rewrite <- Hstage by (fold h; lia).
    fold h. f_equal. lia. }
  unfold blockDFT at 1. rewrite Hsize. rewrite Csum_even_odd.
  destruct (Nat.ltb_spec k h) as [Hlow | Hhigh].
  - rewrite Heven, Hodd by exact Hlow. unfold blockDFT. fold h.
    rewrite <- Csum_mul_l. f_equal; apply Csum_ext; intros j Hj.
    + rewrite twiddle_even by exact Hh. rewrite Hq, reversedIndex_even.
      do 3 f_equal. rewrite Nat.pow_succ_r'. lia.
    + rewrite twiddle_odd by exact Hh. rewrite Hq, reversedIndex_odd.
      replace (reversedIndex (m - S p) b + (2 * j + 1) * 2 ^ (m - S p))%nat
        with (2 ^ (m - S p) + reversedIndex (m - S p) b + j * 2 ^ S (m - S p))%nat
        by (rewrite Nat.pow_succ_r'; lia).
      c_ring.
  - replace (b * (2 * h) + k - h)%nat with (b * (2 * h) + (k - h))%nat by lia.
    replace (b * (2 * h) + k)%nat with (b * (2 * h) + (k - h) + h)%nat at 1 by lia.
    rewrite Heven, Hodd by lia. unfold blockDFT. fold h.
    transitivity
      (Cadd (Csum (fun j =>
                     Cmul (nth (reversedIndex (m - p) (2 * b) + j * 2 ^ (m - p))
                               samples 0, 0)
                          (omega h (j * (k - h)))) h)
            (Csum (fun j =>
                     Cmul (Cmul (-1, 0) (omega (2 * h) (k - h)))
                          (Cmul (nth (reversedIndex (m - p) (2 * b + 1)
                                      + j * 2 ^ (m - p)) samples 0, 0)
                                (omega h (j * (k - h))))) h)).
    { rewrite Csum_mul_l. c_ring. }
    f_equal; apply Csum_ext; intros j Hj.
    + replace (2 * j * k)%nat with (2 * j * ((k - h) + h))%nat by (f_equal; lia).
      rewrite twiddle_even_high by exact Hh. rewrite Hq, reversedIndex_even.
      do 3 f_equal. rewrite Nat.pow_succ_r'. lia.
    + replace ((2 * j + 1) * k)%nat with ((2 * j + 1) * ((k - h) + h))%nat
        by (f_equal; lia).
      rewrite twiddle_odd_high by exact Hh. rewrite Hq, reversedIndex_odd.
      replace (reversedIndex (m - S p) b + (2 * j + 1) * 2 ^ (m - S p))%nat
        with (2 ^ (m - S p) + reversedIndex (m - S p) b + j * 2 ^ S (m - S p))%nat
        by (rewrite Nat.pow_succ_r'; lia).
      c_ring.
Qed.

Lemma stage_passes (samples : list R) (m passes p : nat) (cv : list R) :
  (p + passes = m)%nat -> length cv = (2 ^ m * 2)%nat ->
  stage samples m p cv ->
  stage samples m m
    (fold_left (fun cv q => pass (2 ^ m) (2 ^ q) cv) (seq (S p) passes) cv).
Proof.
  revert p cv. induction passes as [| passes IH]; intros p cv Hp Hlen Hstage.
  - assert (Hpm : m = p) by lia. clear Hp. subst m. exact Hstage.
  - cbn [seq fold_left]. apply IH.
    + lia.
    + now rewrite pass_length.
    + apply stage_pass; [lia | exact Hlen | exact Hstage].
Qed.

Lemma stage_final (samples : list R) (m : nat) (cv : list R) (k : nat) :
  length samples = (2 ^ m)%nat -> stage samples m m cv -> (k < 2 ^ m)%nat ->
  complexAt cv k = DFT samples k.
Proof.
  intros Hlen Hstage Hk.
  specialize (Hstage 0%nat k). rewrite Nat.sub_diag in Hstage.
  simpl in Hstage. rewrite (Hstage ltac:(lia) Hk).
  unfold blockDFT, DFT. rewrite Hlen, Nat.sub_diag. apply Csum_ext. intros j Hj.
  unfold reversedIndex. simpl. rewrite Nat.mul_1_r.
  unfold omega. rewrite mult_INR. do 2 f_equal.
  unfold Rdiv. ring.
Qed.



(** ** Decibels in real arithmetic *)


End IdealKernel.

(** * Decibels *)


(** * Further properties *)

(** ** The order of binary64 *)

Section FloatOrder.

Local Open Scope float_scope.

Lemma SFcompare_refl (f : spec_float) :
  f <> S754_nan -> SFcompare f f = Some Eq.
Proof.
  destruct f as [s | s | | s m e]; simpl; intros Hf; try congruence.
  - destruct s; reflexivity.
  - rewrite Z.compare_refl.
    change (PosDef.Pos.compare_cont Eq m m) with (Pos.compare m m).
    rewrite Pos.compare_refl. destruct s; reflexivity.
Qed.

Ltac sf_cases :=
  repeat match goal with
         | |- context [Z.compare ?a ?b] => destruct (Z.compare_spec a b)
         | |- context [PosDef.Pos.compare_cont Eq ?a ?b] =>
             change (PosDef.Pos.compare_cont Eq a b) with (Pos.compare a b);
             destruct (Pos.compare_spec a b)
         end.

Lemma SFleb_trans (a b c : spec_float) :
  SFleb a b = true -> SFleb b c = true -> SFleb a c = true.
Proof.
  unfold SFleb.
  destruct a as [sa | sa | | sa ma ea], b as [sb | sb | | sb mb eb],
           c as [sc | sc | | sc mc ec]; simpl;
    try destruct sa; try destruct sb; try destruct sc; simpl;
    try congruence; sf_cases; simpl; try congruence; try lia.
Qed.

Lemma SFltb_SFleb (a b : spec_float) : SFltb a b = true -> SFleb a b = true.
Proof.
  unfold SFltb, SFleb. destruct (SFcompare a b) as [[| |] |]; congruence.
Qed.

Lemma SFcompare_swap (a b : spec_float) :
  SFcompare b a = option_map CompOpp (SFcompare a b).
Proof.
  destruct a as [sa | sa | | sa ma ea], b as [sb | sb | | sb mb eb]; simpl;
    try destruct sa; try destruct sb; simpl; try reflexivity.
  - rewrite (Z.compare_antisym ea eb).
    change (PosDef.Pos.compare_cont Eq mb ma) with (Pos.compare mb ma).
    change (PosDef.Pos.compare_cont Eq ma mb) with (Pos.compare ma mb).
    rewrite (Pos.compare_antisym ma mb).
    destruct (ea ?= eb)%Z; simpl; try reflexivity.
  - rewrite (Z.compare_antisym ea eb).
    change (PosDef.Pos.compare_cont Eq mb ma) with (Pos.compare mb ma).
    change (PosDef.Pos.compare_cont Eq ma mb) with (Pos.compare ma mb).
    rewrite (Pos.compare_antisym ma mb).
    destruct (ea ?= eb)%Z; simpl; try reflexivity.
Qed.

Lemma SFltb_false_SFleb (a b : spec_float) :
  a <> S754_nan -> b <> S754_nan -> SFltb a b = false -> SFleb b a = true.
Proof.
  intros Ha Hb. unfold SFltb, SFleb. rewrite (SFcompare_swap a b).
  destruct (SFcompare a b) as [[| |] |] eqn:E; simpl; try congruence.
  destruct a, b; simpl in E; congruence.
Qed.

Lemma is_nan_spec (x : float) :
  is_nan x = match Prim2SF x with S754_nan => true | _ => false end.
Proof.
  unfold is_nan. rewrite eqb_spec. unfold SFeqb.
  destruct (Prim2SF x) eqn:E.
  - reflexivity.
  - destruct s; reflexivity.
  - reflexivity.
  - rewrite <- E at 1 2. rewrite SFcompare_refl; [reflexivity | congruence].
Qed.

Lemma not_nan (x : float) : is_nan x = false -> Prim2SF x <> S754_nan.
Proof. rewrite is_nan_spec. intros H E. rewrite E in H. discriminate. Qed.

Lemma leb_trans (x y z : float) :
  (x <=? y) = true -> (y <=? z) = true -> (x <=? z) = true.
Proof. rewrite !leb_spec. apply SFleb_trans. Qed.

Lemma leb_refl (x : float) : is_nan x = false -> (x <=? x) = true.
Proof.
  intros H. rewrite leb_spec. unfold SFleb.
  rewrite SFcompare_refl; [reflexivity | now apply not_nan].
Qed.

Lemma ltb_leb (x y : float) : (x <? y) = true -> (x <=? y) = true.
Proof. rewrite ltb_spec, leb_spec. apply SFltb_SFleb. Qed.

Lemma ltb_false_leb (x y : float) :
  is_nan x = false -> is_nan y = false -> (x <? y) = false -> (y <=? x) = true.
Proof.
  intros Hx Hy. rewrite ltb_spec, leb_spec.
  apply SFltb_false_SFleb; now apply not_nan.
Qed.

Lemma ltb_not_nan (x y : float) :
  (x <? y) = true -> is_nan x = false /\ is_nan y = false.
Proof.
  rewrite ltb_spec, !is_nan_spec. unfold SFltb.
  destruct (Prim2SF x), (Prim2SF y); simpl; intros H; try discriminate;
    split; reflexivity.
Qed.

Lemma leb_not_nan (x y : float) :
  (x <=? y) = true -> is_nan x = false /\ is_nan y = false.
Proof.
  rewrite leb_spec, !is_nan_spec. unfold SFleb.
  destruct (Prim2SF x), (Prim2SF y); simpl; intros H; try discriminate;
    split; reflexivity.
Qed.

(** [Math.max] and [Math.min] of two numbers, neither NaN. *)
Lemma max_spec (a b : float) :
  is_nan a = false -> is_nan b = false ->
  is_nan (F64.max a b) = false /\
  (a <=? F64.max a b) = true /\ (b <=? F64.max a b) = true /\
  (F64.max a b = a \/ F64.max a b = b).
Proof.
  intros Ha Hb. unfold F64.max. rewrite Ha, Hb. simpl.
  destruct (a <? b) eqn:Hab.
  - split; [exact Hb |]. split; [now apply ltb_leb |].
    split; [now apply leb_refl | now right].
  - destruct (b <? a) eqn:Hba.
    + split; [exact Ha |]. split; [now apply leb_refl |].
      split; [now apply ltb_leb | now left].
    + destruct (get_sign a).
      * split; [exact Hb |]. split; [now apply ltb_false_leb |].
        split; [now apply leb_refl | now right].
      * split; [exact Ha |]. split; [now apply leb_refl |].
        split; [now apply ltb_false_leb | now left].
Qed.

Lemma min_spec (a b : float) :
  is_nan a = false -> is_nan b = false ->
  is_nan (F64.min a b) = false /\
  (F64.min a b <=? a) = true /\ (F64.min a b <=? b) = true /\
  (F64.min a b = a \/ F64.min a b = b).
Proof.
  intros Ha Hb. unfold F64.min. rewrite Ha, Hb. simpl.
  destruct (a <? b) eqn:Hab.
  - split; [exact Ha |]. split; [now apply leb_refl |].
    split; [now apply ltb_leb | now left].
  - destruct (b <? a) eqn:Hba.
    + split; [exact Hb |]. split; [now apply ltb_leb |].
      split; [now apply leb_refl | now right].
    + destruct (get_sign a).
      * split; [exact Ha |]. split; [now apply leb_refl |].
        split; [now apply ltb_false_leb | now left].
      * split; [exact Hb |]. split; [now apply ltb_false_leb |].
        split; [now apply leb_refl | now right].
Qed.

Lemma max_nan_l (b : float) : F64.max nan b = nan.
Proof. reflexivity. Qed.

Lemma max_nan_r (a : float) : F64.max a nan = nan.
Proof. unfold F64.max. rewrite orb_true_r. reflexivity. Qed.

Lemma min_nan_r (a : float) : F64.min a nan = nan.
Proof. unfold F64.min. rewrite orb_true_r. reflexivity. Qed.

End FloatOrder.

(** ** Loops that may throw *)

Lemma mapM_ext {A B : Type} (f g : A -> outcome B) (xs : list A) :
  (forall x, In x xs -> f x = g x) -> mapM f xs = mapM g xs.
Proof.
  induction xs as [| x rest IH]; intros Hfg; simpl.
  - reflexivity.
  - rewrite (Hfg x (or_introl eq_refl)), IH; [reflexivity |].
    intros y Hy. apply Hfg. right. exact Hy.
Qed.

Lemma mapM_length {A B : Type} (f : A -> outcome B) (xs : list A) (ys : list B) :
  mapM f xs = Returns ys -> length ys = length xs.
Proof. intros E. exact (proj1 (mapM_nth _ _ _ E)). Qed.

Lemma readFrame_nil (x : float) : readFrame [] x = None.
Proof.
  unfold readFrame. destruct (index_in _ _) as [[| j] |]; reflexivity.
Qed.


(** ** The global range brackets the spectrogram *)

Section GlobalRange.

Variable M : MathLib.

Local Open Scope float_scope.

(** The scan of [calculateGlobalDbRange] visits the bins frame by frame. *)
Lemma scanFrames_flat (frames : list SpectrogramFrame) :
  scanFrames M frames =
  fold_left (scanDb M) (concat (map frequencyBins frames)) (infinity, neg_infinity).
Proof.
  unfold scanFrames. generalize (infinity, neg_infinity).
  induction frames as [| frame rest IH]; intros acc; simpl.
  - reflexivity.
  - rewrite fold_left_app. apply IH.
Qed.

Lemma scanDb_counted (acc : float * float) (db : float) :
  (-120 <? db) = true ->
  scanDb M acc db = (F64.min (fst acc) db, F64.max (snd acc) db).
Proof.
  intros Hdb. unfold scanDb. destruct acc as [lo hi].
  change (@MIN_DB_DISPLAY float (engine M)) with (F64.of_Z (-120)).
  replace (F64.of_Z (-120)) with (-120) by (vm_compute; reflexivity).
  rewrite Hdb. reflexivity.
Qed.

Lemma scan_brackets (bins seen : list float) (acc : float * float) :
  brackets seen acc ->
  brackets (seen ++ bins) (fold_left (scanDb M) bins acc).
Proof.
  revert seen acc. induction bins as [| db bins IH]; intros seen acc Hacc; simpl.
  - now rewrite app_nil_r.
  - replace (seen ++ db :: bins) with ((seen ++ [db]) ++ bins)
      by (rewrite <- app_assoc; reflexivity).
    apply IH. destruct Hacc as [Hlo [Hhi [Hall Hsome]]].
    destruct (-120 <? db) eqn:Hdb.
    + rewrite scanDb_counted by exact Hdb.
      destruct (ltb_not_nan _ _ Hdb) as [_ Hn].
      destruct (min_spec (fst acc) db Hlo Hn) as [Hmn [Hml [Hmd _]]].
      destruct (max_spec (snd acc) db Hhi Hn) as [Hxn [Hxh [Hxd _]]].
      split; [exact Hmn |]. split; [exact Hxn |]. split.
      * intros d Hd Hc. apply in_app_or in Hd. destruct Hd as [Hd | [<- | []]].
        -- destruct (Hall d Hd Hc) as [H1 H2]. split.
           ++ exact (leb_trans _ _ _ Hml H1).
           ++ exact (leb_trans _ _ _ H2 Hxh).
        -- split; assumption.
      * right. exists db. split; [apply in_or_app; right; left; reflexivity | exact Hdb].
    + rewrite scanDb_below_floor by exact Hdb.
      split; [exact Hlo |]. split; [exact Hhi |]. split.
      * intros d Hd Hc. apply in_app_or in Hd. destruct Hd as [Hd | [<- | []]].
        -- exact (Hall d Hd Hc).
        -- congruence.
      * destruct Hsome as [E | [d [Hd Hc]]]; [left; exact E |].
        right. exists d. split; [apply in_or_app; left; exact Hd | exact Hc].
Qed.

Lemma eqb_leb (x y : float) : (x =? y) = true -> (x <=? y) = true.
Proof.
  rewrite eqb_spec, leb_spec. unfold SFeqb, SFleb.
  destruct (SFcompare _ _) as [[| |] |]; congruence.
Qed.

Lemma eqb_geb (x y : float) : (x =? y) = true -> (y <=? x) = true.
Proof.
  rewrite eqb_spec, leb_spec. unfold SFeqb, SFleb.
  rewrite (SFcompare_swap (Prim2SF x) (Prim2SF y)).
  destruct (SFcompare _ _) as [[| |] |]; simpl; congruence.
Qed.

Lemma rangeOfFrames_brackets (frames : list SpectrogramFrame) :
  let range := rangeOfFrames M frames in
  is_nan (minDb range) = false /\ is_nan (maxDb range) = false /\
  (minDb range <=? maxDb range) = true /\
  forall frame db,
    In frame frames -> In db (frequencyBins frame) -> (-120 <? db) = true ->
    (minDb range <=? db) = true /\ (db <=? maxDb range) = true.
Proof.
  pose proof (scan_brackets (concat (map frequencyBins frames)) []
                (infinity, neg_infinity)) as Hb.
  simpl app in Hb. rewrite <- scanFrames_flat in Hb.
  assert (H0 : brackets [] (infinity, neg_infinity)).
  { split; [reflexivity |]. split; [reflexivity |]. split.
    - intros db [].
    - left. reflexivity. }
  specialize (Hb H0). clear H0.
  unfold rangeOfFrames. destruct (scanFrames M frames) as [lo hi].
  destruct Hb as [Hlo [Hhi [Hall Hsome]]]. simpl in Hlo, Hhi, Hall.
  change (@MIN_DB_DISPLAY float (engine M)) with (F64.of_Z (-120)).
  change (@MAX_DB_THEORETICAL float (engine M)) with (F64.of_Z 0).
  replace (F64.of_Z (-120)) with (-120) by (vm_compute; reflexivity).
  replace (F64.of_Z 0) with 0 by (vm_compute; reflexivity).
  cbv zeta. simpl minDb. simpl maxDb.
  assert (Hone : forall db, In db (concat (map frequencyBins frames)) ->
            (-120 <? db) = true ->
            ((if lo =? infinity then -120 else lo) <=? db) = true /\
            (db <=? (if hi =? neg_infinity then 0 else hi)) = true).
  { intros db Hin Hc. destruct (Hall db Hin Hc) as [H1 H2]. split.
    - destruct (lo =? infinity); [now apply ltb_leb | exact H1].
    - destruct (hi =? neg_infinity) eqn:E; [| exact H2].
      exfalso. pose proof (leb_trans _ _ _ (ltb_leb _ _ Hc)
                             (leb_trans _ _ _ H2 (eqb_leb _ _ E))) as Habs.
      vm_compute in Habs. discriminate. }
  split; [destruct (lo =? infinity); [reflexivity | exact Hlo] |].
  split; [destruct (hi =? neg_infinity); [reflexivity | exact Hhi] |].
  split.
  - destruct Hsome as [E | [d [Hd Hc]]].
    + inversion E; subst. vm_compute. reflexivity.
    + destruct (Hone d Hd Hc) as [H1 H2]. exact (leb_trans _ _ _ H1 H2).
  - intros frame db Hframe Hdb Hc. apply Hone; [| exact Hc].
    apply in_concat. exists (frequencyBins frame). split; [| exact Hdb].
    apply in_map. exact Hframe.
Qed.

(** X10: the global range, whenever the full-duration spectrogram is
    returned, has a minimum and a maximum that are numbers (not NaN) with
    [minDb <= maxDb], a dynamic range that is their difference, and it
    brackets every dB value of the spectrogram above the floor of -120:
    [minDb <= db <= maxDb]. *)
Theorem global_range_brackets (audioData : AudioData)
  (fullSpectrogramData : SpectrogramData) :
  calculateSpectrogram M audioData 0 (duration audioData)
    DEFAULTS_FFT_SIZE DEFAULTS_HOP_SIZE = Returns fullSpectrogramData ->
  exists range,
    calculateGlobalDbRange M audioData = Returns range /\
    is_nan (minDb range) = false /\ is_nan (maxDb range) = false /\
    (minDb range <=? maxDb range) = true /\
    dynamicRange range = maxDb range - minDb range /\
    forall frame db,
      In frame (frames fullSpectrogramData) -> In db (frequencyBins frame) ->
      (-120 <? db) = true ->
      (minDb range <=? db) = true /\ (db <=? maxDb range) = true.
Proof.
  intros E. exists (rangeOfFrames M (frames fullSpectrogramData)).
  split.
  - unfold calculateGlobalDbRange. rewrite E. reflexivity.
  - destruct (rangeOfFrames_brackets (frames fullSpectrogramData))
      as [Hmin [Hmax [H1 H2]]].
    split; [exact Hmin |]. split; [exact Hmax |].
    split; [exact H1 |]. split; [| exact H2].
    unfold rangeOfFrames. destruct (scanFrames M _). reflexivity.
Qed.

End GlobalRange.

Section GlobalRangeExample.

Local Open Scope float_scope.

Lemma global_range_brackets_witness :
  exists range,
    calculateGlobalDbRange refMath
      {| samples := repeat 0.5 2048; sampleRate := 2048; duration := 1 |}
      = Returns range /\
    (minDb range <=? maxDb range) = true.
Proof.
  set (audioData := {| samples := repeat 0.5 2048; sampleRate := 2048;
                       duration := 1 |}).
  destruct (calculateSpectrogram_returns refMath audioData 0 (duration audioData)
              DEFAULTS_FFT_SIZE DEFAULTS_HOP_SIZE 1 2048 11 1024)
    as [data [E _]].
  - vm_compute. reflexivity.
  - intros frame [<- | []]. exists (repeat 0.5 2048).
    split; [vm_compute; reflexivity | apply repeat_length].
  - vm_compute. reflexivity.
  - vm_compute. reflexivity.
  - destruct (global_range_brackets refMath audioData data E)
      as [range [Er [_ [_ [Hle _]]]]].
    exists range. split; [exact Er | exact Hle].
Defined.

End GlobalRangeExample.

(** ** Peak downsampling *)

Section Peak.

Local Open Scope float_scope.

Lemma mergePeak_length (p f : list float) :
  length f <= length p -> length (mergePeak p f) = length p.
Proof.
  revert f. induction p as [| x p IH]; intros [| v f] Hlen; simpl in *;
    try lia; try reflexivity.
  rewrite IH; lia.
Qed.

Lemma mergePeak_nth (p f : list float) (k : nat) :
  length f = length p -> (k < length p)%nat ->
  nth k (mergePeak p f) nan = F64.max (nth k p nan) (nth k f nan).
Proof.
  revert f k. induction p as [| x p IH]; intros [| v f] k Hlen Hk; simpl in *; try lia.
  destruct k as [| k]; [reflexivity |]. apply IH; lia.
Qed.

(** The peak frame after the frames [fs]: per bin, [Math.max] folded over
    the frames. *)
Lemma foldPeak_nth (fs : list (list float)) (init : list float) (k : nat) :
  Forall (fun frame => length frame = length init) fs ->
  (k < length init)%nat ->
  length (fold_left mergePeak fs init) = length init /\
  nth k (fold_left mergePeak fs init) nan =
    fold_left F64.max (map (fun frame => nth k frame nan) fs) (nth k init nan).
Proof.
  revert init. induction fs as [| f fs IH]; intros init Hall Hk; simpl.
  - split; reflexivity.
  - inversion Hall as [| ? ? Hf Hrest]; subst.
    assert (Hlen : length (mergePeak init f) = length init)
      by (apply mergePeak_length; lia).
    destruct (IH (mergePeak init f)) as [H1 H2].
    + rewrite Hlen. exact Hrest.
    + rewrite Hlen. exact Hk.
    + rewrite H1, H2, Hlen. split; [reflexivity |].
      now rewrite mergePeak_nth.
Qed.

Lemma foldMax_spec (vs : list float) (init : float) :
  is_nan init = false -> Forall (fun v => is_nan v = false) vs ->
  let m := fold_left F64.max vs init in
  is_nan m = false /\ (init <=? m) = true /\
  (forall v, In v vs -> (v <=? m) = true) /\
  (m = init \/ In m vs).
Proof.
  revert init. induction vs as [| v vs IH]; intros init Hi Hall; simpl.
  - split; [exact Hi |]. split; [now apply leb_refl |].
    split; [intros v [] | now left].
  - inversion Hall as [| ? ? Hv Hrest]; subst.
    destruct (max_spec init v Hi Hv) as [Hn [Hl [Hr Hor]]].
    destruct (IH (F64.max init v) Hn Hrest) as [Hmn [Hml [Hmall Hmor]]].
    split; [exact Hmn |]. split; [exact (leb_trans _ _ _ Hl Hml) |]. split.
    + intros w [<- | Hw]; [exact (leb_trans _ _ _ Hr Hml) | now apply Hmall].
    + destruct Hmor as [E | Hin]; [| right; right; exact Hin].
      destruct Hor as [E' | E'].
      * left. rewrite E. exact E'.
      * right; left. rewrite E. symmetry. exact E'.
Qed.

Lemma leb_neg_infinity (v : float) :
  (v <=? neg_infinity) = true -> v = neg_infinity.
Proof.
  rewrite leb_spec. intros H. apply Prim2SF_inj.
  change (Prim2SF neg_infinity) with (S754_infinity true) in *.
  destruct (Prim2SF v) as [s | [|] | | [|] m e]; simpl in H; try discriminate.
  reflexivity.
Qed.

Lemma mapM_seq_nth {B : Type} (f : nat -> outcome B) (n : nat) (ys : list B)
  (i : nat) (y : B) :
  mapM f (seq 0 n) = Returns ys -> nth_error ys i = Some y ->
  (i < n)%nat /\ f i = Returns y.
Proof.
  intros E Hy. destruct (mapM_nth _ _ _ E) as [Hlen Hnth].
  assert (Hi : (i < n)%nat).
  { rewrite <- (length_seq n 0), <- Hlen. apply nth_error_Some. congruence. }
  split; [exact Hi |].
  destruct (Hnth i i) as [y' [Ey' Ef]].
  - rewrite (nth_error_nth' (seq 0 n) 0%nat) by now rewrite length_seq.
    now rewrite seq_nth.
  - rewrite Hy in Ey'. inversion Ey'; subst. exact Ef.
Qed.

Lemma In_window {A : Type} (a b : nat) (l : list A) (x : A) :
  In x (firstn a (skipn b l)) -> In x l.
Proof.
  intros Hx. apply In_nth_error in Hx. destruct Hx as [q Hq].
  rewrite nth_error_firstn in Hq. destruct (q <? a)%nat; [| discriminate].
  rewrite nth_error_skipn in Hq. exact (nth_error_In _ _ Hq).
Qed.

(** X11: peak downsampling of a matrix without NaN whose frames have [n]
    bins.  A column whose window [[startFrame, endFrame)], as the code cuts
    it in binary64, is not empty has [n] bins too; in every bin it is at
    least the value of each frame of the window, and it is the value of one
    of them. *)
Theorem peak_column_is_window_maximum (spectrogramData : list (list float))
  (targetWidth : float) (resampled : list (list float)) (i : nat)
  (column : list float) (n : nat) :
  let numFrames := F64.of_nat (length spectrogramData) in
  let startFrame := fst (window numFrames targetWidth i) in
  let endFrame := snd (window numFrames targetWidth i) in
  peakPreservingDownsample spectrogramData targetWidth = Returns resampled ->
  nth_error resampled i = Some column ->
  Forall (fun frame => length frame = n /\ Forall (fun v => is_nan v = false) frame)
         spectrogramData ->
  (endFrame - startFrame =? 0) = false ->
  (startFrame <? endFrame) = true ->
  exists s e : Z,
    F64.integral startFrame = Some s /\ F64.integral endFrame = Some e /\
    (0 <= s)%Z /\ (e <= Z.of_nat (length spectrogramData))%Z /\
    length column = n /\
    forall k, (k < n)%nat ->
      (forall j, (s <= Z.of_nat j < e)%Z ->
         (nth k (nth j spectrogramData []) nan <=? nth k column nan) = true) /\
      ((s < e)%Z ->
       exists j, (s <= Z.of_nat j < e)%Z /\
                 nth k column nan = nth k (nth j spectrogramData []) nan).
Proof.
  intros numFrames startFrame endFrame E Hcol Hall Hne Hlt.
  unfold peakPreservingDownsample, columns in E.
  destruct (F64.iterations targetWidth) as [w |]; [| discriminate].
  destruct (mapM_seq_nth _ _ _ _ _ E Hcol) as [_ Ei]. clear E Hcol.
  unfold downsampleColumn in Ei. fold numFrames in Ei.
  destruct (window numFrames targetWidth i) as [sf ef] eqn:Ew.
  simpl in startFrame, endFrame. subst startFrame endFrame.
  rewrite Hne in Ei.
  destruct spectrogramData as [| first rest] eqn:Edata; [discriminate |].
  rewrite <- Edata in *.
  apply bind_returns in Ei. destruct Ei as [acc [Eacc Ei]].
  inversion Ei; subst acc; clear Ei.
  unfold windowLoop in Eacc. rewrite Hlt in Eacc.
  destruct (F64.integral sf) as [s |]; [| discriminate].
  destruct (F64.integral ef) as [e |]; [| destruct s; discriminate].
  destruct ((0 <=? s)%Z && (e <=? Z.of_nat (length spectrogramData))%Z) eqn:Hrange;
    [| discriminate].
  apply andb_true_iff in Hrange. destruct Hrange as [Hs He].
  apply Z.leb_le in Hs, He.
  injection Eacc as Ecol.
  exists s, e. split; [reflexivity |]. split; [reflexivity |].
  split; [exact Hs |]. split; [exact He |].
  set (frames := firstn (Z.to_nat (e - s)) (skipn (Z.to_nat s) spectrogramData)) in *.
  assert (Hfirst : length first = n).
  { rewrite Edata in Hall. inversion Hall as [| ? ? [H1 _] _]. exact H1. }
  assert (Hframes : Forall (fun frame => length frame = n /\
                                         Forall (fun v => is_nan v = false) frame) frames).
  { apply Forall_forall. intros f Hf. apply (proj1 (Forall_forall _ _) Hall).
    subst frames. exact (In_window _ _ _ _ Hf). }
  assert (Hlen : Forall (fun frame => length frame = length (repeat neg_infinity (length first)))
                        frames).
  { rewrite repeat_length, Hfirst.
    apply Forall_forall. intros f Hf.
    exact (proj1 (proj1 (Forall_forall _ _) Hframes f Hf)). }
  assert (Hnth : forall j, (s <= Z.of_nat j < e)%Z ->
            nth_error frames (j - Z.to_nat s) = nth_error spectrogramData j /\
            (j - Z.to_nat s < Z.to_nat (e - s))%nat /\ (j < length spectrogramData)%nat).
  { intros j Hj. subst frames. split; [| lia].
    rewrite nth_error_firstn.
    replace (j - Z.to_nat s <? Z.to_nat (e - s))%nat with true
      by (symmetry; apply Nat.ltb_lt; lia).
    rewrite nth_error_skipn. f_equal. lia. }
  split.
  { destruct (Nat.eq_dec n 0) as [-> | Hn0].
    - rewrite Hfirst in Ecol. simpl in Ecol.
      assert (Hx : forall fs, Forall (fun fr : list float => length fr = 0%nat) fs ->
                fold_left mergePeak fs [] = []).
      { induction fs as [| f fs IHf]; intros Hf; [reflexivity |].
        inversion Hf as [| ? ? H1 H2]; subst. simpl.
        destruct f; [| discriminate]. simpl. now apply IHf. }
      rewrite Hx in Ecol; [now subst column |].
      apply Forall_forall. intros f Hf.
      exact (proj1 (proj1 (Forall_forall _ _) Hframes f Hf)).
    - destruct (foldPeak_nth frames (repeat neg_infinity (length first)) 0 Hlen)
        as [H1 _].
      + rewrite repeat_length. lia.
      + rewrite <- Ecol, H1, repeat_length. exact Hfirst. }
  intros k Hk.
  destruct (foldPeak_nth frames (repeat neg_infinity (length first)) k Hlen)
    as [_ H2]; [rewrite repeat_length; lia |].
  rewrite Ecol in H2.
  assert (Hinit : nth k (repeat neg_infinity (length first)) nan = neg_infinity).
  { apply nth_repeat_lt. lia. }
  rewrite Hinit in H2.
  destruct (foldMax_spec (map (fun frame => nth k frame nan) frames) neg_infinity)
    as [Hmn [_ [Hmall Hmor]]].
  { reflexivity. }
  { apply Forall_forall. intros v Hv. apply in_map_iff in Hv.
    destruct Hv as [f [<- Hf]].
    destruct (proj1 (Forall_forall _ _) Hframes f Hf) as [Hfl Hfn].
    apply (proj1 (Forall_forall _ _) Hfn). apply nth_In. lia. }
  rewrite <- H2 in Hmn, Hmall, Hmor.
  assert (Hview : forall j, (s <= Z.of_nat j < e)%Z ->
            In (nth k (nth j spectrogramData []) nan)
               (map (fun frame => nth k frame nan) frames)).
  { intros j Hj. destruct (Hnth j Hj) as [Hn1 [Hn2 Hn3]].
    apply in_map_iff. exists (nth j spectrogramData []). split; [reflexivity |].
    apply nth_error_In with (j - Z.to_nat s)%nat. rewrite Hn1.
    apply nth_error_nth'. exact Hn3. }
  split.
  - intros j Hj. apply Hmall. now apply Hview.
  - intros Hse.
    assert (Hin : In (nth k column nan) (map (fun frame => nth k frame nan) frames)).
    { destruct Hmor as [Einit | Hin]; [| exact Hin].
      rewrite Einit.
      assert (Hj : (s <= Z.of_nat (Z.to_nat s) < e)%Z) by lia.
      pose proof (Hview _ Hj) as Hv. pose proof (Hmall _ Hv) as Hle.
      rewrite Einit in Hle. apply leb_neg_infinity in Hle.
      rewrite <- Hle. exact Hv. }
    apply in_map_iff in Hin. destruct Hin as [f [Ef Hf]].
    apply In_nth_error in Hf. destruct Hf as [q Hq].
    subst frames. 
    assert (Hq' := Hq). rewrite nth_error_firstn in Hq'.
    destruct (q <? Z.to_nat (e - s))%nat eqn:Hqlt; [| discriminate].
    apply Nat.ltb_lt in Hqlt. rewrite nth_error_skipn in Hq'.
    exists (Z.to_nat s + q)%nat. split; [lia |].
    rewrite <- Ef. f_equal. symmetry. apply nth_error_nth. exact Hq'.
Qed.

End Peak.

Section PeakExample.

Local Open Scope float_scope.

Lemma peak_column_is_window_maximum_witness :
  exists s e : Z,
    F64.integral (fst (window 15 11 2)) = Some s /\
    F64.integral (snd (window 15 11 2)) = Some e /\
    (s < e)%Z.
Proof.
  destruct (peak_column_is_window_maximum
              (map (fun k => [F64.of_nat k]) (seq 0 15)) 11
              [[0]; [1]; [3]; [4]; [5]; [7]; [8]; [9]; [11]; [12]; [13]] 2 [3] 1)
    as [s [e [Hs [He _]]]].
  - vm_compute. reflexivity.
  - reflexivity.
  - apply Forall_forall. intros frame Hin. apply in_map_iff in Hin.
    destruct Hin as [k [<- Hk]]. split; [reflexivity |].
    constructor; [| constructor].
    simpl in Hk.
    repeat (destruct Hk as [<- | Hk]; [vm_compute; reflexivity |]). destruct Hk.
  - vm_compute. reflexivity.
  - vm_compute. reflexivity.
  - exists s, e. split; [exact Hs |]. split; [exact He |].
    vm_compute in Hs, He. injection Hs as <-. injection He as <-. reflexivity.
Defined.

End PeakExample.

(** ** Shape and errors of the spectrogram *)

Section Shape.

Variable M : MathLib.

Local Open Scope float_scope.

(** X1: the shape of a spectrogram [calculateSpectrogram] returns: the
    number of frames is the [numFrames] it computes, every frame has
    [fftSize / 2] bins, frame [i] is dated [startTime + i * hopSize /
    sampleRate] and lasts [hopSize / sampleRate], and the metadata records
    the parameters of the call and the clamped duration. *)
Theorem spectrogram_shape (audioData : AudioData)
  (startTime duration fftSize hopSize : float) (data : SpectrogramData) :
  calculateSpectrogram M audioData startTime duration fftSize hopSize = Returns data ->
  F64.iterations (numFramesOf audioData startTime duration fftSize hopSize)
    = Some (length (frames data)) /\
  (forall i frame, nth_error (frames data) i = Some frame ->
     F64.to_length (fftSize / 2) = Some (length (frequencyBins frame)) /\
     timePosition frame = startTime + (F64.of_nat i * hopSize) / sampleRate audioData /\
     frameDuration frame = hopSize / sampleRate audioData) /\
  dataSampleRate data = sampleRate audioData /\
  dataFftSize data = fftSize /\
  dataHopSize data = hopSize /\
  dataDuration data = F64.min duration (audioDuration audioData - startTime) /\
  numFrequencyBins data = fftSize / 2 /\
  frequencyResolution data = sampleRate audioData / fftSize /\
  timeResolution data = hopSize / sampleRate audioData.
Proof.
  intros E.
  pose proof (calculateSpectrogram_frames M audioData startTime duration fftSize
                hopSize data E) as Hframes.
  unfold calculateSpectrogram in E.
  destruct (F64.iterations _) as [k |] eqn:Ek.
  - apply bind_returns in E. destruct E as [fs [Efs E]].
    injection E as E. subst data. simpl in *.
    split; [f_equal; rewrite (mapM_length _ _ _ Efs); now rewrite length_seq |].
    split; [| repeat split].
    intros i frame Hi. specialize (Hframes i frame Hi).
    unfold frameBody in Hframes.
    apply bind_returns in Hframes. destruct Hframes as [frameSamples [_ Hframes]].
    apply bind_returns in Hframes. destruct Hframes as [dbSpectrum [Edb Hframes]].
    injection Hframes as Hframes. subst frame. simpl.
    split; [| split; reflexivity].
    unfold processFrame in Edb.
    apply bind_returns in Edb. destruct Edb as [fftResult [_ Edb]].
    apply bind_returns in Edb. destruct Edb as [powerSpectrum [Ep Edb]].
    injection Edb as Edb. subst dbSpectrum.
    rewrite (convertToDBSpectrum_length (H := engine M)).
    unfold calculatePowerSpectrum in Ep.
    change (@to_length float (engine M) (@div float (engine M) fftSize (@of_Z float (engine M) 2)))
      with (F64.to_length (fftSize / F64.of_Z 2)) in Ep.
    replace (F64.of_Z 2) with 2 in Ep by (vm_compute; reflexivity).
    destruct (F64.to_length (fftSize / 2)) as [bins |]; [| discriminate].
    injection Ep as Ep. subst powerSpectrum. simpl.
    now rewrite length_map, length_seq.
  - apply bind_returns in E. destruct E as [? [_ E]]. discriminate.
Qed.

(** X2: an FFT size whose half is no array length (an odd or fractional
    size) makes [calculateSpectrogram] throw a RangeError as soon as there is
    a frame to process: [new Array(fftSize / 2)] in [calculatePowerSpectrum]
    fails on the first frame, after its FFT. *)
Theorem fftSize_without_half_throws (audioData : AudioData)
  (startTime duration fftSize hopSize : float) (frameSamples : list float)
  (bits : nat) :
  F64.iterations (numFramesOf audioData startTime duration fftSize hopSize) <> Some 0%nat ->
  copyFrame M audioData (startFrameOf audioData startTime) fftSize hopSize 0
    = Returns frameSamples ->
  F64.iterations (Math_log2 M (F64.of_nat (length frameSamples))) = Some bits ->
  F64.to_length (fftSize / 2) = None ->
  calculateSpectrogram M audioData startTime duration fftSize hopSize
    = Throws (RangeError "Invalid array length").
Proof.
  intros Hframes Ecopy Ebits Ehalf.
  assert (Ebody : frameBody M audioData startTime (startFrameOf audioData startTime)
                    fftSize hopSize 0 = Throws (RangeError "Invalid array length")).
  { unfold frameBody. rewrite Ecopy. simpl. unfold processFrame.
    destruct (performFFT_returns (H := engine M)
                (applyWindow (H := engine M) frameSamples HANNING) bits)
      as [fftResult [Efft _]].
    { rewrite (applyWindow_length (H := engine M)). exact Ebits. }
    rewrite Efft. simpl. unfold calculatePowerSpectrum.
    change (@to_length float (engine M) (@div float (engine M) fftSize (@of_Z float (engine M) 2)))
      with (F64.to_length (fftSize / F64.of_Z 2)).
    replace (F64.of_Z 2) with 2 by (vm_compute; reflexivity).
    rewrite Ehalf. reflexivity. }
  unfold calculateSpectrogram.
  destruct (F64.iterations _) as [[| k] |].
  - congruence.
  - cbn [seq mapM]. rewrite Ebody. reflexivity.
  - rewrite Ebody. reflexivity.
Qed.

(** X4: a width or a height above [MAX_CANVAS_SIZE = 16384] makes
    [generateSpectrogram] throw an Error; the limit is checked by
    [createSpectrogramImage], once the spectrogram has been computed. *)
Theorem canvas_too_large (audioData : AudioData) (width height : float)
  (colorPreset : ColorPreset) (frequencyScale : FrequencyScale)
  (mappingType : MappingType) (minFrequency maxFrequency : option float)
  (minDbParam maxDbParam : option float) (fftSize hopSize : float)
  (startTime : float) (endTime : option float) (data : SpectrogramData) :
  let requestedDuration :=
    match endTime with
    | Some e => if F64.truthy e then e - startTime else duration audioData
    | None => duration audioData
    end in
  calculateSpectrogram M audioData startTime
    (F64.min requestedDuration (duration audioData - startTime)) fftSize hopSize
    = Returns data ->
  (MAX_CANVAS_SIZE <? width) = true \/ (MAX_CANVAS_SIZE <? height) = true ->
  generateSpectrogram M audioData width height colorPreset frequencyScale
    mappingType minFrequency maxFrequency minDbParam maxDbParam fftSize hopSize
    startTime endTime
  = Throws (Error "Canvas size too large").
Proof.
  intros requestedDuration E Hsize. unfold generateSpectrogram.
  fold requestedDuration. rewrite E. simpl. unfold createSpectrogramImage.
  replace ((MAX_CANVAS_SIZE <? width) || (MAX_CANVAS_SIZE <? height))%bool with true.
  - reflexivity.
  - symmetry. apply orb_true_iff. exact Hsize.
Qed.

(** X5: when the time range holds no frame (fewer samples than one FFT
    frame), [generateSpectrogram] throws a TypeError for every image of at
    least one pixel: the resampler returns the empty array and the first
    pixel reads [frame.length] of an undefined column. *)
Theorem no_frame_no_image (audioData : AudioData) (width height : float)
  (colorPreset : ColorPreset) (frequencyScale : FrequencyScale)
  (mappingType : MappingType) (minFrequency maxFrequency : option float)
  (minDbParam maxDbParam : option float) (fftSize hopSize : float)
  (startTime : float) (endTime : option float) (w h : nat) :
  let requestedDuration :=
    match endTime with
    | Some e => if F64.truthy e then e - startTime else duration audioData
    | None => duration audioData
    end in
  let actualDuration := F64.min requestedDuration (duration audioData - startTime) in
  F64.iterations (numFramesOf audioData startTime actualDuration fftSize hopSize)
    = Some 0%nat ->
  (MAX_CANVAS_SIZE <? width) = false -> (MAX_CANVAS_SIZE <? height) = false ->
  F64.iterations width = Some (S w) -> F64.iterations height = Some (S h) ->
  generateSpectrogram M audioData width height colorPreset frequencyScale
    mappingType minFrequency maxFrequency minDbParam maxDbParam fftSize hopSize
    startTime endTime
  = Throws (TypeError "Cannot read properties of undefined").
Proof.
  intros requestedDuration actualDuration Ek Hw Hh Ew Eh.
  unfold generateSpectrogram. fold requestedDuration. fold actualDuration.
  unfold calculateSpectrogram. rewrite Ek. cbn [seq mapM bind].
  unfold createSpectrogramImage. cbn [frames map]. rewrite Hw, Hh. cbn [orb].
  cbn [resampleSpectrogram bind]. rewrite Ew, Eh. cbn [seq mapM].
  unfold pixelRead at 1. rewrite readFrame_nil. reflexivity.
Qed.

End Shape.

Section ShapeExamples.

Local Open Scope float_scope.

Lemma spectrogram_shape_witness :
  exists data,
    calculateSpectrogram refMath
      {| samples := [0.5; -0.5; 0.25; -0.25; 0.5; -0.5; 0.25; -0.25];
         sampleRate := 8; duration := 1 |} 0 1 4 2 = Returns data /\
    length (frames data) = 3%nat.
Proof.
  set (audioData := {| samples := [0.5; -0.5; 0.25; -0.25; 0.5; -0.5; 0.25; -0.25];
                       sampleRate := 8; duration := 1 |}).
  destruct (calculateSpectrogram refMath audioData 0 1 4 2) as [data | |] eqn:E;
    [| vm_compute in E; discriminate E | vm_compute in E; discriminate E].
  exists data. split; [reflexivity |].
  destruct (spectrogram_shape refMath audioData 0 1 4 2 data E) as [Hk _].
  vm_compute in Hk. injection Hk as Hk. symmetry. exact Hk.
Defined.

Lemma fftSize_without_half_throws_witness :
  calculateSpectrogram refMath
    {| samples := [0.5; -0.5; 0.25; -0.25; 0.5; -0.5; 0.25; -0.25];
       sampleRate := 8; duration := 1 |} 0 1 3 2
  = Throws (RangeError "Invalid array length").
Proof.
  apply (fftSize_without_half_throws refMath _ 0 1 3 2 [0.5; -0.5; 0.25] 2).
  - vm_compute. discriminate.
  - vm_compute. reflexivity.
  - vm_compute. reflexivity.
  - vm_compute. reflexivity.
Defined.

Lemma canvas_too_large_witness :
  generateSpectrogram refMath
    {| samples := [0.5; -0.5; 0.25; -0.25; 0.5; -0.5; 0.25; -0.25];
       sampleRate := 8; duration := 1 |}
    20000 2 HEAT LINEAR_SCALE LINEAR None None None None 4 2 0 None
  = Throws (Error "Canvas size too large").
Proof.
  set (audioData := {| samples := [0.5; -0.5; 0.25; -0.25; 0.5; -0.5; 0.25; -0.25];
                       sampleRate := 8; duration := 1 |}).
  destruct (calculateSpectrogram refMath audioData 0
              (F64.min (duration audioData) (duration audioData - 0)) 4 2)
    as [data | |] eqn:E;
    [| vm_compute in E; discriminate E | vm_compute in E; discriminate E].
  apply (canvas_too_large refMath audioData 20000 2 HEAT LINEAR_SCALE LINEAR
           None None None None 4 2 0 None data E).
  left. vm_compute. reflexivity.
Defined.

Lemma no_frame_no_image_witness :
  generateSpectrogram refMath
    {| samples := [0.5; -0.5]; sampleRate := 8; duration := 0.25 |}
    2 2 HEAT LINEAR_SCALE LINEAR None None None None 4 2 0 None
  = Throws (TypeError "Cannot read properties of undefined").
Proof.
  apply (no_frame_no_image refMath _ 2 2 HEAT LINEAR_SCALE LINEAR
           None None None None 4 2 0 None 1 1); vm_compute; reflexivity.
Defined.

End ShapeExamples.

(** ** The rasterizer *)

Section NaN.

Local Open Scope float_scope.

Lemma mul_nan_l (y : float) : nan * y = nan.
Proof.
  apply Prim2SF_inj. rewrite mul_spec.
  change (Prim2SF nan) with S754_nan. reflexivity.
Qed.

Lemma add_nan_r (x : float) : x + nan = nan.
Proof.
  apply Prim2SF_inj. rewrite add_spec.
  change (Prim2SF nan) with S754_nan. destruct (Prim2SF x); reflexivity.
Qed.

Lemma div_nan_l (y : float) : nan / y = nan.
Proof.
  apply Prim2SF_inj. rewrite div_spec.
  change (Prim2SF nan) with S754_nan. reflexivity.
Qed.

Lemma index_in_nan (len : nat) : index_in len nan = None.
Proof. reflexivity. Qed.

End NaN.

Section Raster.

Variable M : MathLib.

Local Open Scope float_scope.

Lemma orDefault_falsy (v d : float) :
  F64.truthy v = false -> orDefault (Some v) d = d.
Proof. intros H. unfold orDefault, F64.or_else. now rewrite H. Qed.

Lemma orDefault_same (d : float) : orDefault (Some d) d = d.
Proof. unfold orDefault, F64.or_else. now destruct (F64.truthy d). Qed.

(** With a frequency range the scale takes no part in the bin a pixel reads. *)
Lemma getFrequencyIndex_range (y height numFrequencies : float)
  (scale scale' : FrequencyScale) (sampleRate : float)
  (minFrequency maxFrequency : option float) :
  (isSome minFrequency || isSome maxFrequency)%bool = true ->
  getFrequencyIndex M y height numFrequencies scale sampleRate minFrequency maxFrequency =
  getFrequencyIndex M y height numFrequencies scale' sampleRate minFrequency maxFrequency.
Proof. intros H. unfold getFrequencyIndex. rewrite H. reflexivity. Qed.

(** A falsy upper bound is replaced by the Nyquist frequency. *)
Lemma getFrequencyIndex_falsy_max (y height numFrequencies : float)
  (scale : FrequencyScale) (sampleRate : float)
  (minFrequency : option float) (v : float) :
  F64.truthy v = false ->
  getFrequencyIndex M y height numFrequencies scale sampleRate minFrequency (Some v) =
  getFrequencyIndex M y height numFrequencies scale sampleRate minFrequency
    (Some (sampleRate / 2)).
Proof.
  intros H. unfold getFrequencyIndex. rewrite !orb_true_r.
  rewrite (orDefault_falsy v _ H), orDefault_same. reflexivity.
Qed.

Lemma getFrequencyIndex_falsy_min (y height numFrequencies : float)
  (scale : FrequencyScale) (sampleRate : float)
  (maxFrequency : option float) (v : float) :
  F64.truthy v = false ->
  getFrequencyIndex M y height numFrequencies scale sampleRate (Some v) maxFrequency =
  getFrequencyIndex M y height numFrequencies scale sampleRate (Some 0) maxFrequency.
Proof.
  intros H. unfold getFrequencyIndex. cbn [isSome orb].
  rewrite (orDefault_falsy v _ H), orDefault_same. reflexivity.
Qed.

(** An image depends on the frequency parameters through [getFrequencyIndex]
    alone. *)
Lemma createSpectrogramImage_ext (spectrogramData : SpectrogramData)
  (width height : float) (colorPreset : ColorPreset)
  (scale scale' : FrequencyScale) (mappingType : MappingType)
  (minFrequency maxFrequency minFrequency' maxFrequency' : option float)
  (sampleRate : float) (minDbParam maxDbParam : option float) :
  (forall y numFrequencies,
     getFrequencyIndex M y height numFrequencies scale sampleRate
       minFrequency maxFrequency =
     getFrequencyIndex M y height numFrequencies scale' sampleRate
       minFrequency' maxFrequency') ->
  createSpectrogramImage M spectrogramData width height colorPreset scale
    mappingType minFrequency maxFrequency sampleRate minDbParam maxDbParam =
  createSpectrogramImage M spectrogramData width height colorPreset scale'
    mappingType minFrequency' maxFrequency' sampleRate minDbParam maxDbParam.
Proof.
  intros Hidx. unfold createSpectrogramImage.
  destruct (_ || _)%bool; [reflexivity |].
  destruct (resampleSpectrogram _ _) as [resampledData | |]; try reflexivity.
  simpl. destruct (F64.iterations width) as [w |]; [| reflexivity].
  destruct (F64.iterations height) as [h |]; [| reflexivity].
  apply mapM_ext. intros x _. apply mapM_ext. intros y _.
  unfold pixelRead. destruct (readFrame _ _); [| reflexivity].
  rewrite Hidx. reflexivity.
Qed.

(** X8: when a minimum or a maximum frequency is given, the frequency
    scale has no effect: [generateSpectrogram] gives the same outcome for
    every two scales. *)
Theorem frequency_range_overrides_scale (audioData : AudioData) (width height : float)
  (colorPreset : ColorPreset) (frequencyScale frequencyScale' : FrequencyScale)
  (mappingType : MappingType) (minFrequency maxFrequency : option float)
  (minDbParam maxDbParam : option float) (fftSize hopSize : float)
  (startTime : float) (endTime : option float) :
  minFrequency <> None \/ maxFrequency <> None ->
  generateSpectrogram M audioData width height colorPreset frequencyScale
    mappingType minFrequency maxFrequency minDbParam maxDbParam fftSize hopSize
    startTime endTime =
  generateSpectrogram M audioData width height colorPreset frequencyScale'
    mappingType minFrequency maxFrequency minDbParam maxDbParam fftSize hopSize
    startTime endTime.
Proof.
  intros Hrange. unfold generateSpectrogram.
  destruct (calculateSpectrogram _ _ _ _ _ _) as [data | |]; cbn [bind];
    [| reflexivity | reflexivity].
  apply createSpectrogramImage_ext. intros y n.
  apply getFrequencyIndex_range.
  destruct Hrange as [H | H]; [destruct minFrequency | destruct maxFrequency];
    try congruence; simpl; try reflexivity. apply orb_true_r.
Qed.

(** X9: a frequency bound that is falsy ([0], [-0] or NaN) is replaced by
    its default, as [minFrequency || 0] and [maxFrequency || sampleRate / 2]
    read: a maximum frequency of 0 draws the image of the Nyquist frequency,
    a falsy minimum that of 0. *)
Theorem falsy_frequency_bound_is_default (audioData : AudioData) (width height : float)
  (colorPreset : ColorPreset) (frequencyScale : FrequencyScale)
  (mappingType : MappingType) (minFrequency maxFrequency : option float)
  (minDbParam maxDbParam : option float) (fftSize hopSize : float)
  (startTime : float) (endTime : option float) (v : float) :
  F64.truthy v = false ->
  generateSpectrogram M audioData width height colorPreset frequencyScale
    mappingType minFrequency (Some v) minDbParam maxDbParam fftSize hopSize
    startTime endTime =
  generateSpectrogram M audioData width height colorPreset frequencyScale
    mappingType minFrequency (Some (sampleRate audioData / 2))
    minDbParam maxDbParam fftSize hopSize startTime endTime /\
  generateSpectrogram M audioData width height colorPreset frequencyScale
    mappingType (Some v) maxFrequency minDbParam maxDbParam fftSize hopSize
    startTime endTime =
  generateSpectrogram M audioData width height colorPreset frequencyScale
    mappingType (Some 0) maxFrequency minDbParam maxDbParam fftSize hopSize
    startTime endTime.
Proof.
  intros Hv. unfold generateSpectrogram.
  destruct (calculateSpectrogram _ _ _ _ _ _) as [data | |]; cbn [bind];
    [| split; reflexivity | split; reflexivity].
  split; apply createSpectrogramImage_ext; intros y n.
  - now apply getFrequencyIndex_falsy_max.
  - now apply getFrequencyIndex_falsy_min.
Qed.

(** In an image one pixel high the only row has [normalizedY = 0 / 0]. *)
Lemma getFrequencyIndex_height_1 (numFrequencies : float)
  (scale : FrequencyScale) (sampleRate : float)
  (minFrequency maxFrequency : option float) :
  scale = LINEAR_SCALE \/ minFrequency <> None \/ maxFrequency <> None ->
  getFrequencyIndex M (F64.of_nat 0) 1 numFrequencies scale sampleRate
    minFrequency maxFrequency = nan.
Proof.
  intros H. unfold getFrequencyIndex.
  replace ((1 - 1 - F64.of_nat 0) / (1 - 1)) with nan by (vm_compute; reflexivity).
  assert (Hclamp : F64.floor (F64.max 0 (F64.min 1 nan) * (numFrequencies - 1)) = nan).
  { rewrite min_nan_r. rewrite max_nan_r. rewrite mul_nan_l. reflexivity. }
  destruct (isSome minFrequency || isSome maxFrequency)%bool eqn:Hr.
  - rewrite mul_nan_l, add_nan_r, div_nan_l. exact Hclamp.
  - destruct H as [-> | H]; [exact Hclamp |].
    exfalso. destruct H as [H | H];
      [destruct minFrequency | destruct maxFrequency]; try congruence;
      simpl in Hr; try discriminate.
    rewrite orb_true_r in Hr. discriminate.
Qed.

(** X7: an image one pixel high shows nothing of the recording.  Its only
    row has [normalizedY = 0 / 0]; on the linear scale, or with a frequency
    range, the bin index is NaN, the read falls back to [minDb], and every
    pixel has the colour of [minDb]. *)
Theorem one_pixel_high_image_is_blank (audioData : AudioData) (width : float)
  (colorPreset : ColorPreset) (frequencyScale : FrequencyScale)
  (mappingType : MappingType) (minFrequency maxFrequency : option float)
  (minDbParam maxDbParam : option float) (fftSize hopSize : float)
  (startTime : float) (endTime : option float) (image : list (list RGB)) :
  frequencyScale = LINEAR_SCALE \/ minFrequency <> None \/ maxFrequency <> None ->
  generateSpectrogram M audioData width 1 colorPreset frequencyScale
    mappingType minFrequency maxFrequency minDbParam maxDbParam fftSize hopSize
    startTime endTime = Returns image ->
  let minDb := match minDbParam with Some v => v | None => -120 end in
  let maxDb := match maxDbParam with Some v => v | None => 0 end in
  F64.iterations width = Some (length image) /\
  Forall (fun column =>
            column = [pixelColour M minDb minDb maxDb mappingType colorPreset])
         image.
Proof.
  intros Hscale E minDb maxDb. unfold generateSpectrogram in E.
  apply bind_returns in E. destruct E as [data [_ E]].
  unfold createSpectrogramImage in E.
  destruct (_ || _)%bool; [discriminate |].
  apply bind_returns in E. destruct E as [resampledData [_ E]].
  destruct (F64.iterations width) as [w |]; [| discriminate].
  replace (F64.iterations 1) with (Some 1%nat) in E by (vm_compute; reflexivity).
  split; [f_equal; rewrite (mapM_length _ _ _ E); now rewrite length_seq |].
  apply Forall_forall. intros column Hcol.
  destruct (mapM_In _ _ _ E column Hcol) as [x [_ Ex]].
  cbn [seq mapM] in Ex.
  apply bind_returns in Ex. destruct Ex as [c [Ec Ex]].
  simpl in Ex. injection Ex as Ex. subst column. f_equal.
  apply bind_returns in Ec. destruct Ec as [db [Edb Ec]].
  injection Ec as Ec. subst c.
  unfold pixelRead in Edb. destruct (readFrame _ _) as [frame |]; [| discriminate].
  injection Edb as Edb.
  rewrite getFrequencyIndex_height_1 in Edb by exact Hscale.
  unfold pixelDb in Edb. rewrite index_in_nan in Edb.
  change (@MIN_DB_DISPLAY float (engine M)) with (F64.of_Z (-120)) in *.
  change (@MAX_DB_THEORETICAL float (engine M)) with (F64.of_Z 0) in *.
  replace (F64.of_Z (-120)) with (-120) in * by (vm_compute; reflexivity).
  replace (F64.of_Z 0) with 0 in * by (vm_compute; reflexivity).
  subst db. reflexivity.
Qed.

End Raster.

Section ResampleWidth.

Local Open Scope float_scope.

Lemma columns_length (targetWidth : float) (column : nat -> outcome (list float))
  (resampled : list (list float)) (w : nat) :
  F64.iterations targetWidth = Some w ->
  columns targetWidth column = Returns resampled -> length resampled = w.
Proof.
  intros Ew E. unfold columns in E. rewrite Ew in E.
  rewrite (mapM_length _ _ _ E). apply length_seq.
Qed.

(** X12: what the resampler returns for a spectrogram with frames: the
    input itself when the number of frames equals the target width, and
    else one column per turn of the loop [i < targetWidth], made by bilinear
    interpolation when there are fewer frames than columns and by keeping the
    peaks when there are more.  The averaging downsampler and the linear
    upsampler of the source are never used. *)
Theorem resample_width (spectrogramData : list (list float)) (targetWidth : float)
  (resampled : list (list float)) (w : nat) :
  spectrogramData <> [] ->
  F64.iterations targetWidth = Some w ->
  resampleSpectrogram spectrogramData targetWidth = Returns resampled ->
  (F64.of_nat (length spectrogramData) =? targetWidth) = true /\
    resampled = spectrogramData \/
  (F64.of_nat (length spectrogramData) =? targetWidth) = false /\
    length resampled = w /\
    Returns resampled =
      if F64.of_nat (length spectrogramData) <? targetWidth
      then bilinearUpsample spectrogramData targetWidth
      else peakPreservingDownsample spectrogramData targetWidth.
Proof.
  intros Hne Ew E. unfold resampleSpectrogram in E.
  destruct spectrogramData as [| first rest]; [congruence |].
  destruct (_ =? _).
  - left. split; [reflexivity |]. now injection E as <-.
  - right. split; [reflexivity |]. destruct (_ <? _).
    + unfold selectUpsamplingStrategy in E. simpl in E.
      split; [| now rewrite <- E].
      unfold bilinearUpsample in E. exact (columns_length _ _ _ _ Ew E).
    + unfold selectDownsampleStrategy in E. simpl in E.
      split; [| now rewrite <- E].
      exact (columns_length _ _ _ _ Ew E).
Qed.

End ResampleWidth.

Section RasterExamples.

Local Open Scope float_scope.

Lemma frequency_range_overrides_scale_witness :
  generateSpectrogram refMath
    {| samples := [0.5; -0.5; 0.25; -0.25; 0.5; -0.5; 0.25; -0.25];
       sampleRate := 8; duration := 1 |}
    3 2 HEAT MEL LINEAR (Some 1) None None None 4 2 0 None =
  generateSpectrogram refMath
    {| samples := [0.5; -0.5; 0.25; -0.25; 0.5; -0.5; 0.25; -0.25];
       sampleRate := 8; duration := 1 |}
    3 2 HEAT BARK LINEAR (Some 1) None None None 4 2 0 None.
Proof.
  apply (frequency_range_overrides_scale refMath). left. discriminate.
Defined.

Lemma falsy_frequency_bound_is_default_witness :
  generateSpectrogram refMath
    {| samples := [0.5; -0.5; 0.25; -0.25; 0.5; -0.5; 0.25; -0.25];
       sampleRate := 8; duration := 1 |}
    3 2 HEAT LINEAR_SCALE LINEAR (Some 1) (Some 0) None None 4 2 0 None =
  generateSpectrogram refMath
    {| samples := [0.5; -0.5; 0.25; -0.25; 0.5; -0.5; 0.25; -0.25];
       sampleRate := 8; duration := 1 |}
    3 2 HEAT LINEAR_SCALE LINEAR (Some 1) (Some (8 / 2)) None None 4 2 0 None.
Proof.
  apply (proj1 (falsy_frequency_bound_is_default refMath
                  {| samples := [0.5; -0.5; 0.25; -0.25; 0.5; -0.5; 0.25; -0.25];
                     sampleRate := 8; duration := 1 |}
                  3 2 HEAT LINEAR_SCALE LINEAR (Some 1) None None None 4 2 0 None 0
                  eq_refl)).
Defined.

Lemma one_pixel_high_image_is_blank_witness :
  exists image,
    generateSpectrogram refMath
      {| samples := [0.5; -0.5; 0.25; -0.25; 0.5; -0.5; 0.25; -0.25];
         sampleRate := 8; duration := 1 |}
      3 1 HEAT LINEAR_SCALE LINEAR None None None None 4 2 0 None
    = Returns image /\
    Forall (fun column => column = [pixelColour refMath (-120) (-120) 0 LINEAR HEAT])
           image.
Proof.
  set (audioData := {| samples := [0.5; -0.5; 0.25; -0.25; 0.5; -0.5; 0.25; -0.25];
                       sampleRate := 8; duration := 1 |}).
  destruct (generateSpectrogram refMath audioData 3 1 HEAT LINEAR_SCALE LINEAR
              None None None None 4 2 0 None) as [image | |] eqn:E;
    [| vm_compute in E; discriminate E | vm_compute in E; discriminate E].
  exists image. split; [reflexivity |].
  exact (proj2 (one_pixel_high_image_is_blank refMath audioData 3 HEAT LINEAR_SCALE
                  LINEAR None None None None 4 2 0 None image
                  (or_introl eq_refl) E)).
Defined.

Lemma resample_width_witness :
  exists resampled,
    resampleSpectrogram [[1; 2]; [3; 4]] 3 = Returns resampled /\
    length resampled = 3%nat /\
    bilinearUpsample [[1; 2]; [3; 4]] 3 = Returns resampled.
Proof.
  destruct (resampleSpectrogram [[1; 2]; [3; 4]] 3) as [resampled | |] eqn:E;
    [| vm_compute in E; discriminate E | vm_compute in E; discriminate E].
  exists resampled. split; [reflexivity |].
  destruct (@resample_width [[1; 2]; [3; 4]] 3 resampled 3) as [[H _] | [_ [H H']]].
  - discriminate.
  - vm_compute. reflexivity.
  - exact E.
  - vm_compute in H. discriminate H.
  - split; [exact H |]. symmetry. exact H'.
Defined.

End RasterExamples.

Section More.

Variable M : MathLib.

Local Open Scope float_scope.

(** A positive number divided by zero is [+Infinity]. *)
Lemma div_zero_positive (x : float) : (0 <? x) = true -> x / 0 = infinity.
Proof.
  intros H. apply Prim2SF_inj. rewrite div_spec. rewrite ltb_spec in H.
  change (Prim2SF 0) with (S754_zero false) in *.
  change (Prim2SF infinity) with (S754_infinity false).
  destruct (Prim2SF x) as [s | [|] | | [|] m e]; simpl in H; try discriminate;
    reflexivity.
Qed.

(** X3: with a hop size of 0 and more samples in the time range than one
    frame, [numFrames] is [+Infinity] and [calculateSpectrogram] never
    returns: the frame loop has no end (unless a frame throws). *)
Theorem zero_hop_never_returns (audioData : AudioData)
  (startTime duration fftSize : float) :
  let actualDuration := actualDurationOf audioData startTime duration in
  let startFrame := startFrameOf audioData startTime in
  let endFrame := F64.floor ((startTime + actualDuration) * sampleRate audioData) in
  (0 <? endFrame - startFrame - fftSize) = true ->
  numFramesOf audioData startTime duration fftSize 0 = infinity /\
  forall data,
    calculateSpectrogram M audioData startTime duration fftSize 0 <> Returns data.
Proof.
  intros actualDuration startFrame endFrame H.
  assert (E : numFramesOf audioData startTime duration fftSize 0 = infinity).
  { unfold numFramesOf. fold actualDuration startFrame endFrame.
    rewrite (div_zero_positive _ H). vm_compute. reflexivity. }
  split; [exact E |]. intros data. unfold calculateSpectrogram. rewrite E.
  change (F64.iterations infinity) with (@None nat).
  destruct (frameBody _ _ _ _ _ _ _); simpl; discriminate.
Qed.

(** X6: an image [generateSpectrogram] returns is within the canvas limit
    and has one column per turn of the loop [x < width], each with one pixel
    per turn of the loop [y < height]. *)
Theorem image_dimensions (audioData : AudioData) (width height : float)
  (colorPreset : ColorPreset) (frequencyScale : FrequencyScale)
  (mappingType : MappingType) (minFrequency maxFrequency : option float)
  (minDbParam maxDbParam : option float) (fftSize hopSize : float)
  (startTime : float) (endTime : option float) (image : list (list RGB)) :
  generateSpectrogram M audioData width height colorPreset frequencyScale
    mappingType minFrequency maxFrequency minDbParam maxDbParam fftSize hopSize
    startTime endTime = Returns image ->
  (MAX_CANVAS_SIZE <? width) = false /\ (MAX_CANVAS_SIZE <? height) = false /\
  F64.iterations width = Some (length image) /\
  Forall (fun column => F64.iterations height = Some (length column)) image.
Proof.
  intros E. unfold generateSpectrogram in E.
  apply bind_returns in E. destruct E as [data [_ E]].
  unfold createSpectrogramImage in E.
  destruct (MAX_CANVAS_SIZE <? width); [discriminate |].
  destruct (MAX_CANVAS_SIZE <? height); [discriminate |].
  cbn [orb] in E.
  apply bind_returns in E. destruct E as [resampledData [_ E]].
  destruct (F64.iterations width) as [w |]; [| discriminate].
  destruct (F64.iterations height) as [h |]; [| discriminate].
  split; [reflexivity |]. split; [reflexivity |].
  split; [f_equal; rewrite (mapM_length _ _ _ E); now rewrite length_seq |].
  apply Forall_forall. intros column Hcol.
  destruct (mapM_In _ _ _ E column Hcol) as [x [_ Ex]].
  f_equal. rewrite (mapM_length _ _ _ Ex). now rewrite length_seq.
Qed.

(** [Math.max(0, Math.min(1, x))] of a number: a number from 0 to 1, and
    one of [x], 0 and 1. *)
Lemma clamp_unit (x : float) :
  is_nan x = false ->
  let c := F64.max 0 (F64.min 1 x) in
  is_nan c = false /\ (0 <=? c) = true /\ (c <=? 1) = true /\
  (c = x \/ c = 0 \/ c = 1).
Proof.
  intros Hx c. subst c.
  destruct (min_spec 1 x eq_refl Hx) as [Hn [H1 [_ Hmin]]].
  destruct (max_spec 0 (F64.min 1 x) eq_refl Hn) as [Hmn [H0 [_ Hor]]].
  split; [exact Hmn |]. split; [exact H0 |]. split.
  - destruct Hor as [-> | ->]; [reflexivity | exact H1].
  - destruct Hor as [-> | ->]; [right; left; reflexivity |].
    destruct Hmin as [-> | ->]; [right; right; reflexivity | left; reflexivity].
Qed.

(** X22: the linear mapping clamps: a number comes out between 0 and 1,
    as itself, 0 or 1; NaN comes out as NaN. *)
Theorem linear_mapping_clamps (normalized : float) :
  let mapped := applyMapping M normalized LINEAR in
  if is_nan normalized then mapped = nan
  else (0 <=? mapped) = true /\ (mapped <=? 1) = true /\
       (mapped = normalized \/ mapped = 0 \/ mapped = 1).
Proof.
  intros mapped. subst mapped. unfold applyMapping.
  destruct (is_nan normalized) eqn:Hx.
  - assert (E : normalized = nan).
    { apply Prim2SF_inj. rewrite is_nan_spec in Hx.
      destruct (Prim2SF normalized); try discriminate. reflexivity. }
    subst normalized. reflexivity.
  - destruct (clamp_unit normalized Hx) as [_ H]. exact H.
Qed.

End More.

Section MoreExamples.

Local Open Scope float_scope.

Lemma zero_hop_never_returns_witness :
  numFramesOf
    {| samples := [0.5; -0.5; 0.25; -0.25; 0.5; -0.5; 0.25; -0.25];
       sampleRate := 8; duration := 1 |} 0 1 4 0 = infinity.
Proof.
  apply (zero_hop_never_returns refMath
           {| samples := [0.5; -0.5; 0.25; -0.25; 0.5; -0.5; 0.25; -0.25];
              sampleRate := 8; duration := 1 |} 0 1 4).
  vm_compute. reflexivity.
Defined.

Lemma image_dimensions_witness :
  exists image,
    generateSpectrogram refMath
      {| samples := [0.5; -0.5; 0.25; -0.25; 0.5; -0.5; 0.25; -0.25];
         sampleRate := 8; duration := 1 |}
      3 2 HEAT LINEAR_SCALE LINEAR None None None None 4 2 0 None
    = Returns image /\
    F64.iterations 3 = Some (length image).
Proof.
  set (audioData := {| samples := [0.5; -0.5; 0.25; -0.25; 0.5; -0.5; 0.25; -0.25];
                       sampleRate := 8; duration := 1 |}).
  destruct (generateSpectrogram refMath audioData 3 2 HEAT LINEAR_SCALE LINEAR
              None None None None 4 2 0 None) as [image | |] eqn:E;
    [| vm_compute in E; discriminate E | vm_compute in E; discriminate E].
  exists image. split; [reflexivity |].
  exact (proj1 (proj2 (proj2 (image_dimensions refMath audioData 3 2 HEAT LINEAR_SCALE
                                LINEAR None None None None 4 2 0 None image E)))).
Defined.

End MoreExamples.

(** ** The samples of a frame *)

Section CopyFrame.

Variable M : MathLib.

Local Open Scope float_scope.

Lemma copy_loop (source : nat -> float) (k : nat) (frameSamples : list float) (i : nat) :
  (i < length frameSamples)%nat ->
  nth i (fold_left (fun fs j => put (H := engine M) fs j (source j)) (seq 0 k) frameSamples) nan =
  if (i <? k)%nat then F64.fround (source i) else nth i frameSamples nan.
Proof.
  revert frameSamples. induction k as [| k IH]; intros frameSamples Hi.
  - reflexivity.
  - rewrite seq_S, fold_left_app. simpl.
    set (done := fold_left _ (seq 0 k) frameSamples).
    assert (Hlen : length done = length frameSamples).
    { unfold done. clear. generalize (seq 0 k). intros l. revert frameSamples.
      induction l as [| j l IHl]; intros fs; [reflexivity |].
      simpl. rewrite IHl. apply update_length. }
    change (put (H := engine M) done k (source k)) with (update done k (F64.fround (source k))).
    rewrite nth_update. rewrite Hlen.
    destruct (Nat.eqb_spec i k) as [-> | Hne].
    + apply Nat.ltb_lt in Hi. rewrite Hi. simpl.
      assert (Hk : (k <? S k)%nat = true) by (apply Nat.ltb_lt; lia).
      now rewrite Hk.
    + simpl. unfold done. rewrite (IH _ Hi).
      destruct (Nat.ltb_spec i k), (Nat.ltb_spec i (S k)); try lia; reflexivity.
Qed.

(** X23: the samples of a frame.  The frame has [fftSize] samples; the
    first [endSample - startSample] of them are the samples of the recording
    from [startSample] on, as 32-bit floats, and the rest, where the frame
    reaches beyond the end of the recording, are zeros. *)
Theorem frame_is_zero_padded (audioData : AudioData) (startFrame fftSize hopSize : float)
  (frame : nat) (frameSamples : list float) :
  copyFrame M audioData startFrame fftSize hopSize frame = Returns frameSamples ->
  let startSample := startFrame + F64.of_nat frame * hopSize in
  let endSample :=
    F64.min (startSample + fftSize) (F64.of_nat (length (samples audioData))) in
  exists n available,
    F64.to_typed_length fftSize = Some n /\
    F64.iterations (endSample - startSample) = Some available /\
    length frameSamples = n /\
    forall i, (i < n)%nat ->
      nth i frameSamples nan =
      if (i <? available)%nat
      then F64.fround (read (samples audioData) (startSample + F64.of_nat i))
      else 0.
Proof.
  intros E startSample endSample. unfold copyFrame in E.
  fold startSample endSample in E.
  destruct (F64.to_typed_length fftSize) as [n |]; [| discriminate].
  destruct (F64.iterations (endSample - startSample)) as [available |]; [| discriminate].
  injection E as <-. exists n, available.
  split; [reflexivity |]. split; [reflexivity |].
  split.
  - generalize (seq 0 available). intros l.
    rewrite <- (repeat_length 0 n) at 2. generalize (repeat 0 n).
    induction l as [| j l IHl]; intros fs; [reflexivity |].
    simpl. rewrite IHl. apply update_length.
  - intros i Hi.
    rewrite (copy_loop (fun j => read (samples audioData) (startSample + F64.of_nat j))).
    + destruct (i <? available)%nat; [reflexivity |]. apply nth_repeat_lt. exact Hi.
    + now rewrite repeat_length.
Qed.

End CopyFrame.

Section CopyFrameExample.

Local Open Scope float_scope.

Lemma frame_is_zero_padded_witness :
  exists frameSamples,
    copyFrame refMath
      {| samples := [0.5; -0.5; 0.25; -0.25; 0.5; -0.5; 0.25; -0.25];
         sampleRate := 8; duration := 1 |} 0 4 2 3 = Returns frameSamples /\
    length frameSamples = 4%nat /\
    nth 1 frameSamples nan = -0.25 /\ nth 2 frameSamples nan = 0.
Proof.
  set (audioData := {| samples := [0.5; -0.5; 0.25; -0.25; 0.5; -0.5; 0.25; -0.25];
                       sampleRate := 8; duration := 1 |}).
  destruct (copyFrame refMath audioData 0 4 2 3) as [frameSamples | |] eqn:E;
    [| vm_compute in E; discriminate E | vm_compute in E; discriminate E].
  exists frameSamples. split; [reflexivity |].
  destruct (@frame_is_zero_padded refMath audioData 0 4 2 3 frameSamples E)
    as [n [available [En [Eavailable [Hlen Hnth]]]]].
  vm_compute in En. injection En as <-.
  vm_compute in Eavailable. injection Eavailable as <-.
  split; [exact Hlen |]. split.
  - rewrite (Hnth 1%nat) by lia. vm_compute. reflexivity.
  - rewrite (Hnth 2%nat) by lia. reflexivity.
Defined.

End CopyFrameExample.

(** ** Bit reversal is an involution *)

Section BitReversal.

Local Open Scope Z_scope.

Lemma bitReverse_snoc (m : nat) (x : Z) :
  0 <= x < 2 ^ Z.of_nat (S m) ->
  bitReverse (S m) x = 2 * bitReverse m (x mod 2 ^ Z.of_nat m) + x / 2 ^ Z.of_nat m.
Proof.
  revert x. induction m as [| m IH]; intros x Hx.
  - cbn [bitReverse]. change (2 ^ Z.of_nat 0) with 1 in *.
    change (2 ^ Z.of_nat 1) with 2 in Hx.
    rewrite Z.div_1_r, Z.mod_small by lia. lia.
  - assert (Hpow : 2 ^ Z.of_nat (S m) = 2 * 2 ^ Z.of_nat m)
      by (rewrite Nat2Z.inj_succ, Z.pow_succ_r; lia).
    assert (Hpow2 : 2 ^ Z.of_nat (S (S m)) = 2 * 2 ^ Z.of_nat (S m))
      by (rewrite (Nat2Z.inj_succ (S m)), Z.pow_succ_r; lia).
    assert (HL : bitReverse (S (S m)) x =
                 x mod 2 * 2 ^ Z.of_nat (S m) + bitReverse (S m) (x / 2))
      by reflexivity.
    assert (HR : bitReverse (S m) (x mod 2 ^ Z.of_nat (S m)) =
                 (x mod 2 ^ Z.of_nat (S m)) mod 2 * 2 ^ Z.of_nat m
                 + bitReverse m ((x mod 2 ^ Z.of_nat (S m)) / 2))
      by reflexivity.
    rewrite HL, HR. clear HL HR.
    assert (Hhalf : 0 <= x / 2 < 2 ^ Z.of_nat (S m)).
    { split; [apply Z.div_pos; lia | apply Z.div_lt_upper_bound; lia]. }
    rewrite (IH (x / 2) Hhalf). rewrite Hpow in *.
    set (P := 2 ^ Z.of_nat m) in *.
    assert (HP : 0 < P) by (apply Z.pow_pos_nonneg; lia).
    pose proof (Z.div_mod x (2 * P) ltac:(lia)) as Hx1.
    pose proof (Z.mod_pos_bound x (2 * P) ltac:(lia)) as Hr.
    set (q := x / (2 * P)) in *. set (r := x mod (2 * P)) in *.
    pose proof (Z.div_mod r 2 ltac:(lia)) as Hr1.
    pose proof (Z.mod_pos_bound r 2 ltac:(lia)) as Hb.
    set (r' := r / 2) in *. set (b := r mod 2) in *.
    assert (Hr' : 0 <= r' < P) by lia.
    assert (E1 : x mod 2 = b).
    { symmetry. apply (Z.mod_unique x 2 (P * q + r')); lia. }
    assert (E2 : x / 2 = P * q + r').
    { symmetry. apply (Z.div_unique x 2 (P * q + r') b); lia. }
    assert (E3 : (x / 2) mod P = r').
    { rewrite E2. symmetry. apply (Z.mod_unique _ P q); lia. }
    assert (E4 : (x / 2) / P = q).
    { rewrite E2. symmetry. apply (Z.div_unique _ P q r'); lia. }
    rewrite E1, E3, E4. ring.
Qed.

Lemma bitReverse_involutive (m : nat) (x : Z) :
  0 <= x < 2 ^ Z.of_nat m -> bitReverse m (bitReverse m x) = x.
Proof.
  revert x. induction m as [| m IH]; intros x Hx.
  - simpl in *. lia.
  - assert (Hpow : 2 ^ Z.of_nat (S m) = 2 * 2 ^ Z.of_nat m)
      by (rewrite Nat2Z.inj_succ, Z.pow_succ_r; lia).
    set (P := 2 ^ Z.of_nat m) in *.
    assert (HP : 0 < P) by (apply Z.pow_pos_nonneg; lia).
    pose proof (bitReverse_range (S m) x) as Hy. rewrite Hpow in Hy.
    rewrite bitReverse_snoc by (rewrite Hpow; exact Hy). fold P.
    cbn [bitReverse]. fold P.
    pose proof (Z.mod_pos_bound x 2 ltac:(lia)) as Hb.
    pose proof (bitReverse_range m (x / 2)) as Hr. fold P in Hr.
    assert (Hhalf : 0 <= x / 2 < P).
    { split; [apply Z.div_pos; lia | apply Z.div_lt_upper_bound; lia]. }
    assert (E1 : (x mod 2 * P + bitReverse m (x / 2)) mod P = bitReverse m (x / 2)).
    { symmetry. apply (Z.mod_unique _ P (x mod 2)); lia. }
    assert (E2 : (x mod 2 * P + bitReverse m (x / 2)) / P = x mod 2).
    { symmetry. apply (Z.div_unique _ P (x mod 2) (bitReverse m (x / 2))); lia. }
    rewrite E1, E2, (IH (x / 2) Hhalf).
    pose proof (Z.div_mod x 2 ltac:(lia)). lia.
Qed.

End BitReversal.

Section ReverseBits.

Context {T : Type} `{Number T}.

(** X13: on numbers of up to 31 bits [reverseBits] is an involution: the
    result of reversing the [m] low bits of [x < 2 ^ m] is again below
    [2 ^ m], and reversing it gives [x] back. *)
Theorem reverseBits_involution (bits : T) (m : nat) (x : Z) :
  iterations bits = Some m -> (m <= 31)%nat -> (0 <= x < 2 ^ Z.of_nat m)%Z ->
  exists y,
    reverseBits x bits = Returns y /\ (0 <= y < 2 ^ Z.of_nat m)%Z /\
    reverseBits y bits = Returns x.
Proof.
  intros Ebits Hm Hx.
  assert (Hpow : (2 ^ Z.of_nat m <= 2 ^ 31)%Z) by (apply Z.pow_le_mono_r; lia).
  exists (bitReverse m x).
  pose proof (bitReverse_range m x) as Hy.
  rewrite !(reverseBits_returns _ _ _ Ebits).
  rewrite !reverse_bits_exact by lia.
  split; [reflexivity |]. split; [exact Hy |].
  now rewrite bitReverse_involutive.
Qed.

End ReverseBits.

Lemma reverseBits_involution_witness :
  exists y,
    reverseBits (H := binary64 refMath) 6 3%float = Returns y /\ (0 <= y < 2 ^ 3)%Z /\
    reverseBits (H := binary64 refMath) y 3%float = Returns 6%Z.
Proof.
  apply (reverseBits_involution (H := binary64 refMath) 3%float 3 6).
  - vm_compute. reflexivity.
  - lia.
  - lia.
Defined.

(** ** A frame in real arithmetic *)

Section IdealFrame.

Local Open Scope R_scope.

(** The transform of a frame, once more, in the form the next lemmas use. *)
Lemma performFFT_ideal (m : nat) (samples : list R) :
  (m <= 31)%nat -> length samples = (2 ^ m)%nat ->
  exists fftResult,
    performFFT samples = Returns fftResult /\
    size fftResult = (2 ^ m)%nat /\
    length (complexValues fftResult) = (2 ^ m * 2)%nat /\
    forall k, (k < 2 ^ m)%nat ->
      complexAt (complexValues fftResult) k = DFT samples k.
Proof.
  intros Hm Hlen.
  destruct (permute_ideal m samples Hm Hlen) as [permuted [Eperm [Hplen Hpermuted]]].
  exists {| complexValues := sizeLoop (2 ^ m) (2 ^ m) 2 permuted; size := 2 ^ m |}.
  assert (Hloop : sizeLoop (2 ^ m) (2 ^ m) 2 permuted =
                  fold_left (fun cv p => pass (2 ^ m) (2 ^ p) cv) (seq 1 m) permuted).
  { apply (sizeLoop_passes m m 1 (2 ^ m) permuted); [lia |].
    apply Nat.lt_le_incl, Nat.pow_gt_lin_r. lia. }
  split.
  { unfold performFFT. rewrite Eperm. simpl. rewrite Hlen. reflexivity. }
  split; [reflexivity |]. simpl. split.
  { now rewrite sizeLoop_length. }
  intros k Hk. rewrite Hloop.
  apply (stage_final samples m); [exact Hlen | | exact Hk].
  apply (stage_passes samples m m 0); [lia | exact Hplen |].
  now apply stage_permuted.
Qed.




End IdealFrame.


Section Mirror.

Local Open Scope R_scope.

Lemma Csum_conj (f : nat -> Complex) (n : nat) :
  Csum (fun j => Cconj (f j)) n = Cconj (Csum f n).
Proof.
  induction n as [| n IH]; simpl.
  - unfold Cconj. simpl. f_equal. ring.
  - rewrite IH. unfold Cconj, Cadd. simpl. f_equal. ring.
Qed.

Lemma DFT_mirror (samples : list R) (k : nat) :
  (0 < k < length samples)%nat ->
  DFT samples (length samples - k) = Cconj (DFT samples k).
Proof.
  intros Hk. unfold DFT. rewrite <- Csum_conj. apply Csum_ext. intros j Hj.
  set (N := length samples) in *.
  assert (HN : INR N <> 0) by (apply not_0_INR; lia).
  rewrite minus_INR by lia.
  replace (-2 * Rtrigo1.PI * INR j * (INR N - INR k) / INR N)
    with (2 * Rtrigo1.PI * INR j * INR k / INR N + - (2 * INR j * Rtrigo1.PI))
    by (field; exact HN).
  rewrite cis_plus, cis_turns.
  replace (-2 * Rtrigo1.PI * INR j * INR k / INR N)
    with (- (2 * Rtrigo1.PI * INR j * INR k / INR N)) by (field; exact HN).
  unfold Cconj, Cmul, cis. simpl. rewrite cos_neg, sin_neg. f_equal; ring.
Qed.

(** X15: in real arithmetic the spectrum [performFFT] returns for a frame
    of [N = 2 ^ m] samples is mirrored: entry [N - k] is the conjugate of
    entry [k], so that both have the same power. *)
Theorem spectrum_mirror (m : nat) (samples : list R) :
  (m <= 31)%nat -> length samples = (2 ^ m)%nat ->
  exists fftResult,
    performFFT samples = Returns fftResult /\
    forall k, (0 < k < 2 ^ m)%nat ->
      let lower := complexAt (complexValues fftResult) k in
      let upper := complexAt (complexValues fftResult) (2 ^ m - k) in
      fst upper = fst lower /\ snd upper = - snd lower /\
      fst upper * fst upper + snd upper * snd upper
        = fst lower * fst lower + snd lower * snd lower.
Proof.
  intros Hm Hlen.
  destruct (performFFT_ideal m samples Hm Hlen) as [fftResult [E [_ [_ Hdft]]]].
  exists fftResult. split; [exact E |].
  intros k Hk lower upper. subst lower upper.
  rewrite (Hdft k) by lia. rewrite (Hdft (2 ^ m - k)%nat) by lia.
  rewrite <- Hlen, DFT_mirror by (rewrite Hlen; lia).
  unfold Cconj. simpl. split; [reflexivity |]. split; [reflexivity |]. ring.
Qed.

End Mirror.

Lemma spectrum_mirror_witness :
  exists fftResult,
    performFFT [1; 2; 3; 4]%R = Returns fftResult /\
    snd (complexAt (complexValues fftResult) 3) =
      (- snd (complexAt (complexValues fftResult) 1))%R.
Proof.
  destruct (spectrum_mirror 2 [1; 2; 3; 4]%R) as [fftResult [E H]].
  - lia.
  - reflexivity.
  - exists fftResult. split; [exact E |].
    exact (proj1 (proj2 (H 1%nat ltac:(simpl; lia)))).
Defined.

Section WindowShape.

Local Open Scope R_scope.

Lemma windowValue_hanning (i len : nat) :
  windowValue (T := R) HANNING i len =
  1 / 2 * (1 - Rtrigo_def.cos (2 * Rtrigo1.PI * INR i / (INR len - 1))).
Proof.
  unfold windowValue.
  change (@HANNING_COEFFICIENT R ideal) with (IZR 5 / IZR 10).
  change (@mul R ideal) with Rmult. change (@sub R ideal) with Rminus.
  change (@div R ideal) with Rdiv. change (@cos R ideal) with Rtrigo_def.cos.
  change (@PI R ideal) with Rtrigo1.PI.
  change (@of_Z R ideal) with IZR. rewrite !ideal_of_nat.
  f_equal. lra.
Qed.

Lemma windowValue_hanning_shape (N i : nat) :
  (2 <= N)%nat -> (i < N)%nat ->
  0 <= windowValue (T := R) HANNING i N <= 1 /\
  windowValue (T := R) HANNING 0 N = 0 /\
  windowValue (T := R) HANNING (N - 1) N = 0 /\
  windowValue (T := R) HANNING (N - 1 - i) N = windowValue (T := R) HANNING i N.
Proof.
  intros HN Hi. rewrite !windowValue_hanning.
  assert (Hd : INR N - 1 <> 0).
  { assert (H2 : 2 <= INR N) by (replace 2 with (INR 2) by reflexivity; apply le_INR; lia).
    lra. }
  split; [| split; [| split]].
  - pose proof (COS_bound (2 * Rtrigo1.PI * INR i / (INR N - 1))) as [Hl Hu]. lra.
  - simpl INR. replace (2 * Rtrigo1.PI * 0 / (INR N - 1)) with 0 by (field; exact Hd).
    rewrite cos_0. lra.
  - rewrite minus_INR by lia. simpl INR.
    replace (2 * Rtrigo1.PI * (INR N - 1) / (INR N - 1)) with (2 * Rtrigo1.PI)
      by (field; exact Hd).
    rewrite cos_2PI. lra.
  - rewrite !minus_INR by lia. simpl INR.
    replace (2 * Rtrigo1.PI * (INR N - 1 - INR i) / (INR N - 1))
      with (- (2 * Rtrigo1.PI * INR i / (INR N - 1)) + 2 * INR 1 * Rtrigo1.PI)
      by (simpl INR; field; exact Hd).
    rewrite cos_period, cos_neg. reflexivity.
Qed.

Lemma applyWindow_nth (samples : list R) (windowType : WindowType) (i : nat) :
  (i < length samples)%nat ->
  nth i (applyWindow samples windowType) 0 =
  nth i samples 0 * windowValue windowType i (length samples).
Proof.
  intros Hi. unfold applyWindow.
  rewrite (nth_indep _ 0 ((fun i => fround (mul (get samples i)
                             (windowValue windowType i (length samples)))) 0%nat))
    by now rewrite length_map, length_seq.
  rewrite (map_nth (fun i => fround (mul (get samples i)
                      (windowValue windowType i (length samples))))).
  rewrite seq_nth by exact Hi. reflexivity.
Qed.

(** X16: in real arithmetic the Hanning window of a frame of two samples
    or more scales sample [i] by a weight between 0 and 1, the same for [i]
    and [N - 1 - i], and sets the first and the last sample to 0. *)
Theorem hanning_window_shape (samples : list R) (i : nat) :
  (2 <= length samples)%nat -> (i < length samples)%nat ->
  let N := length samples in
  let windowed := applyWindow samples HANNING in
  nth i windowed 0 = nth i samples 0 * windowValue HANNING i N /\
  0 <= windowValue (T := R) HANNING i N <= 1 /\
  windowValue (T := R) HANNING (N - 1 - i) N = windowValue (T := R) HANNING i N /\
  nth 0 windowed 0 = 0 /\
  nth (N - 1) windowed 0 = 0.
Proof.
  intros HN Hi N windowed. subst N windowed.
  destruct (windowValue_hanning_shape (length samples) i HN Hi) as [Hr [H0 [Hl Hs]]].
  split; [now apply applyWindow_nth |]. split; [exact Hr |]. split; [exact Hs |].
  rewrite !applyWindow_nth by lia. rewrite H0, Hl. split; ring.
Qed.

End WindowShape.

Lemma hanning_window_shape_witness :
  nth 0 (applyWindow [1; 2; 3; 4]%R HANNING) 0%R = 0%R /\
  nth 3 (applyWindow [1; 2; 3; 4]%R HANNING) 0%R = 0%R.
Proof.
  destruct (hanning_window_shape [1; 2; 3; 4]%R 0) as [_ [_ [_ [H0 H3]]]].
  - simpl. lia.
  - simpl. lia.
  - split; [exact H0 | exact H3].
Defined.

(** ** A NaN among the samples *)

Section Unroll.

Context {T : Type} `{Number T}.


End Unroll.

Section Contamination.

Variable M : MathLib.

Local Open Scope float_scope.



















End Contamination.

Section ContaminationExample.

Local Open Scope float_scope.


End ContaminationExample.

(** ** Decoding PCM *)

Section Decoding.

Local Open Scope float_scope.

Lemma readBytes_inside (pcmBuffer : list Byte.byte) (offset count : nat) :
  (offset + count <= length pcmBuffer)%nat ->
  readBytes pcmBuffer offset count = Returns (firstn count (skipn offset pcmBuffer)).
Proof.
  intros H. unfold readBytes.
  replace (offset + count <=? length pcmBuffer)%nat with true; [reflexivity |].
  symmetry. now apply Nat.leb_le.
Qed.

(** Sample [i] lies inside the buffer when [i] is below the quotient. *)
Lemma sample_inside (len width i : nat) :
  (0 < width)%nat -> (i < len / width)%nat -> (i * width + width <= len)%nat.
Proof.
  intros Hw Hi. pose proof (Nat.Div0.mul_div_le len width) as H. nia.
Qed.

Lemma fillSamples_returns (pcmBuffer : list Byte.byte) (width : nat)
  (sample : nat -> outcome float) :
  (forall i, (i < length pcmBuffer / width)%nat -> exists v, sample i = Returns v) ->
  exists samples,
    fillSamples pcmBuffer width sample = Returns samples /\
    length samples = (length pcmBuffer / width)%nat.
Proof.
  intros Hs. unfold fillSamples.
  destruct (mapM_returns
              (fun i => v <- sample i;; Returns (F64.fround v))
              (seq 0 (length pcmBuffer / width))) as [ys [E Hlen]].
  - intros i Hi. apply in_seq in Hi. destruct (Hs i) as [v Ev]; [lia |].
    rewrite Ev. simpl. eexists. reflexivity.
  - exists ys. split; [exact E |]. now rewrite Hlen, length_seq.
Qed.

Lemma convertS16_returns (pcmBuffer : list Byte.byte) :
  exists samples,
    convertS16 pcmBuffer = Returns samples /\
    length samples = (length pcmBuffer / 2)%nat.
Proof.
  apply fillSamples_returns. intros i Hi. unfold readInt16LE.
  rewrite readBytes_inside by (apply sample_inside; [lia | exact Hi]).
  simpl. eexists. reflexivity.
Qed.

Lemma convertU8_returns (pcmBuffer : list Byte.byte) :
  exists samples,
    convertToFloat32Array pcmBuffer U8 = Returns samples /\
    length samples = (length pcmBuffer / 1)%nat.
Proof.
  apply fillSamples_returns. intros i Hi. unfold readUInt8.
  rewrite readBytes_inside.
  - simpl. eexists. reflexivity.
  - pose proof (sample_inside (length pcmBuffer) 1 i ltac:(lia) Hi). lia.
Qed.

(** X17: [convertToFloat32Array] reads inside the buffer only: whatever
    the buffer and the format, it returns (no read throws), with as many
    samples as whole sample widths fit; bytes left over at the end are
    dropped. *)
Theorem convertToFloat32Array_returns (pcmBuffer : list Byte.byte)
  (sampleFormat : SampleFormat) :
  exists samples,
    convertToFloat32Array pcmBuffer sampleFormat = Returns samples /\
    length samples = (length pcmBuffer / bytesPerSample sampleFormat)%nat.
Proof.
  destruct sampleFormat; simpl;
    try exact (convertS16_returns pcmBuffer);
    try exact (convertU8_returns pcmBuffer);
    apply fillSamples_returns; intros i Hi.
  - unfold readInt32LE.
    rewrite readBytes_inside by (apply sample_inside; [lia | exact Hi]).
    simpl. eexists. reflexivity.
  - unfold readFloatLE.
    rewrite readBytes_inside by (apply sample_inside; [lia | exact Hi]).
    simpl. eexists. reflexivity.
  - unfold readDoubleLE.
    rewrite readBytes_inside by (apply sample_inside; [lia | exact Hi]).
    simpl. eexists. reflexivity.
Qed.

Ltac known_format :=
  simpl; split; [discriminate |];
  split; [split; [intros H; discriminate H
                 | intros H; exfalso; apply H; simpl; tauto] |];
  split; [intros _; reflexivity | intros H; discriminate H].

(** X19: the format parsed from a string of ffprobe is never [FLTP]; it is
    [UNKNOWN] exactly for the strings other than u8, s16, s32, flt, dbl and
    fltp; for a known format the bit depth reported is 8 times the width of
    the samples read; for an unknown one the bit depth is 0 while samples are
    read, and asked of ffmpeg, as 16-bit. *)
Theorem bit_depth_of_parsed_format (sampleFormat : string) :
  let parsed := parseSampleFormat sampleFormat in
  parsed <> FLTP /\
  (parsed = UNKNOWN <->
   ~ In sampleFormat ["u8"; "s16"; "s32"; "flt"; "dbl"; "fltp"]%string) /\
  (parsed <> UNKNOWN ->
   getBitDepth parsed = (8 * Z.of_nat (bytesPerSample parsed))%Z) /\
  (parsed = UNKNOWN ->
   getBitDepth parsed = 0%Z /\ bytesPerSample parsed = 2%nat /\
   getFFmpegFormat parsed = getFFmpegFormat S16).
Proof.
  intros parsed. subst parsed. unfold parseSampleFormat.
  destruct (String.eqb_spec sampleFormat "u8") as [-> | H1]; [known_format |].
  destruct (String.eqb_spec sampleFormat "s16") as [-> | H2]; [known_format |].
  destruct (String.eqb_spec sampleFormat "s32") as [-> | H3]; [known_format |].
  destruct (String.eqb_spec sampleFormat "flt") as [-> | H4]; [known_format |].
  destruct (String.eqb_spec sampleFormat "dbl") as [-> | H5]; [known_format |].
  destruct (String.eqb_spec sampleFormat "fltp") as [-> | H6]; [known_format |].
  split; [discriminate |]. split; [split |].
  - intros _ Hin. simpl in Hin. intuition congruence.
  - reflexivity.
  - split; [congruence |]. intros _. repeat split.
Qed.

End Decoding.

Section Exact.

Local Open Scope float_scope.

Lemma forallRange_spec (check : Z -> bool) (len : positive) (from z : Z) :
  forallRange check from len = true ->
  (from <= z < from + Zpos len)%Z -> check z = true.
Proof.
  revert from. induction len as [p IH | p IH |]; intros from H Hz; simpl in H.
  - apply andb_true_iff in H. destruct H as [H H2].
    apply andb_true_iff in H. destruct H as [H0 H1].
    destruct (Z.eq_dec z from) as [-> | Hne]; [exact H0 |].
    destruct (Z_lt_ge_dec z (from + 1 + Zpos p)) as [Hlt | Hge].
    + apply (IH (from + 1)%Z H1). lia.
    + apply (IH (from + 1 + Zpos p)%Z H2). lia.
  - apply andb_true_iff in H. destruct H as [H1 H2].
    destruct (Z_lt_ge_dec z (from + Zpos p)) as [Hlt | Hge].
    + apply (IH from H1). lia.
    + apply (IH (from + Zpos p)%Z H2). lia.
  - replace z with from by lia. exact H.
Qed.

Lemma exactU8_byte (b : Z) : (0 <= b < 256)%Z -> exactU8 b = true.
Proof.
  intros Hb. apply (forallRange_spec exactU8 256 0); [vm_compute; reflexivity | lia].
Qed.

Lemma exactS16_word (v : Z) : (-32768 <= v < 32768)%Z -> exactS16 v = true.
Proof.
  intros Hv.
  apply (forallRange_spec exactS16 65536 (-32768)); [vm_compute; reflexivity | lia].
Qed.

Lemma firstn_skipn_cons {A : Type} (k o : nat) (l : list A) (d : A) :
  (o < length l)%nat ->
  firstn (S k) (skipn o l) = nth o l d :: firstn k (skipn (S o) l).
Proof.
  revert o. induction l as [| x l IH]; intros o Ho; simpl in Ho; [lia |].
  destruct o as [| o]; [reflexivity |].
  change (skipn (S o) (x :: l)) with (skipn o l).
  change (skipn (S (S o)) (x :: l)) with (skipn (S o) l).
  change (nth (S o) (x :: l) d) with (nth o l d).
  apply IH. lia.
Qed.

Lemma Returns_inj {A : Type} (a b : A) : Returns a = Returns b -> a = b.
Proof. intros E. now injection E. Qed.

Lemma littleEndian_1 (a : Byte.byte) : littleEndian [a] = Z.of_N (Byte.to_N a).
Proof. cbn [littleEndian]. lia. Qed.

Lemma littleEndian_2 (a b : Byte.byte) :
  littleEndian [a; b] = (Z.of_N (Byte.to_N a) + 256 * Z.of_N (Byte.to_N b))%Z.
Proof. cbn [littleEndian]. lia. Qed.

Lemma byte_range (b : Byte.byte) : (0 <= Z.of_N (Byte.to_N b) < 256)%Z.
Proof. pose proof (Byte.to_N_bounded b). lia. Qed.

Lemma fillSamples_nth (pcmBuffer : list Byte.byte) (width : nat)
  (sample : nat -> outcome float) (samples : list float) (i : nat) :
  fillSamples pcmBuffer width sample = Returns samples ->
  (i < length pcmBuffer / width)%nat ->
  exists v, sample i = Returns v /\ nth i samples nan = F64.fround v.
Proof.
  intros E Hi. unfold fillSamples in E.
  destruct (mapM_nth _ _ _ E) as [Hlen Hnth].
  destruct (Hnth i i) as [y [Ey Ef]].
  { rewrite (nth_error_nth' (seq 0 _) 0%nat) by now rewrite length_seq.
    now rewrite seq_nth. }
  apply bind_returns in Ef. destruct Ef as [v [Ev Ef]].
  injection Ef as Ef. exists v. split; [exact Ev |].
  rewrite (nth_error_nth _ _ nan Ey). now symmetry.
Qed.

(** X18: 8-bit and 16-bit PCM is decoded exactly: the sample kept in the
    [Float32Array] is the quotient the source writes, [(b - 128) / 128] or
    [v / 32768], without rounding; it lies in [[-1, 1)]; and the integer of
    the file is recovered from it. *)
Theorem integer_pcm_is_exact (pcmBuffer : list Byte.byte) :
  (exists samples,
     convertToFloat32Array pcmBuffer U8 = Returns samples /\
     forall i, (i < length pcmBuffer)%nat ->
       let sample := Z.of_N (Byte.to_N (nth i pcmBuffer Byte.x00)) in
       let s := nth i samples nan in
       s = (F64.of_Z sample - 128) / 128 /\
       (-1 <=? s) = true /\ (s <? 1) = true /\
       s * 128 + 128 = F64.of_Z sample) /\
  (exists samples,
     convertToFloat32Array pcmBuffer S16 = Returns samples /\
     forall i, (i < length pcmBuffer / 2)%nat ->
       let low := Z.of_N (Byte.to_N (nth (i * 2) pcmBuffer Byte.x00)) in
       let high := Z.of_N (Byte.to_N (nth (i * 2 + 1) pcmBuffer Byte.x00)) in
       let sample := signed 16 (low + 256 * high) in
       let s := nth i samples nan in
       s = F64.of_Z sample / 32768 /\
       (-1 <=? s) = true /\ (s <? 1) = true /\
       s * 32768 = F64.of_Z sample).
Proof.
  split.
  - destruct (convertU8_returns pcmBuffer) as [samples [E Hlen]].
    exists samples. split; [exact E |]. intros i Hi sample s.
    simpl in E.
    destruct (fillSamples_nth _ _ _ _ i E) as [v [Ev Es]].
    { now rewrite Nat.div_1_r. }
    unfold readUInt8 in Ev. rewrite readBytes_inside in Ev by lia.
    rewrite (firstn_skipn_cons 0 i pcmBuffer Byte.x00 Hi) in Ev.
    cbn [bind] in Ev. rewrite littleEndian_1 in Ev. apply Returns_inj in Ev.
    fold sample in Ev.
    pose proof (exactU8_byte sample (byte_range _)) as Hx.
    unfold exactU8 in Hx. cbv zeta in Hx. rewrite Ev, <- Es in Hx. fold s in Hx.
    apply andb_true_iff in Hx. destruct Hx as [Hx H4].
    apply andb_true_iff in Hx. destruct Hx as [Hx H3].
    apply andb_true_iff in Hx. destruct Hx as [H1 H2].
    apply Leibniz.eqb_spec in H1, H4.
    rewrite Ev. repeat split; assumption.
  - destruct (convertS16_returns pcmBuffer) as [samples [E Hlen]].
    exists samples. split; [exact E |]. intros i Hi low high sample s.
    simpl in E. unfold convertS16 in E.
    destruct (fillSamples_nth _ _ _ _ i E Hi) as [v [Ev Es]].
    pose proof (sample_inside (length pcmBuffer) 2 i ltac:(lia) Hi) as Hin.
    unfold readInt16LE in Ev. rewrite readBytes_inside in Ev by exact Hin.
    rewrite (firstn_skipn_cons 1 (i * 2) pcmBuffer Byte.x00) in Ev by lia.
    rewrite (firstn_skipn_cons 0 (S (i * 2)) pcmBuffer Byte.x00) in Ev by lia.
    replace (S (i * 2)) with (i * 2 + 1)%nat in Ev by lia.
    cbn [bind] in Ev. rewrite littleEndian_2 in Ev. apply Returns_inj in Ev.
    fold low high in Ev. fold sample in Ev.
    assert (Hrange : (-32768 <= sample < 32768)%Z).
    { subst sample. unfold signed.
      pose proof (byte_range (nth (i * 2) pcmBuffer Byte.x00)).
      pose proof (byte_range (nth (i * 2 + 1) pcmBuffer Byte.x00)).
      fold low high in H, H0.
      change (2 ^ (16 - 1))%Z with 32768%Z. change (2 ^ 16)%Z with 65536%Z.
      destruct (low + 256 * high <? 32768)%Z eqn:Hc;
        [apply Z.ltb_lt in Hc | apply Z.ltb_ge in Hc]; lia. }
    pose proof (exactS16_word sample Hrange) as Hx.
    unfold exactS16 in Hx. cbv zeta in Hx. rewrite Ev, <- Es in Hx. fold s in Hx.
    apply andb_true_iff in Hx. destruct Hx as [Hx H4].
    apply andb_true_iff in Hx. destruct Hx as [Hx H3].
    apply andb_true_iff in Hx. destruct Hx as [H1 H2].
    apply Leibniz.eqb_spec in H1, H4.
    rewrite Ev. repeat split; assumption.
Qed.

End Exact.

(** ** The images of a run *)

Section ActionTheorems.

Variable M : MathLib.

Local Open Scope float_scope.

(** X20: a recording wider than [MAX_WIDTH = 2048] pixels is drawn as an
    overview of 2048 columns over the whole recording, followed by one image
    per part; all of them use the range of [calculateGlobalDbRange] as their
    dB range, and the minimum and the maximum dB of the command line have no
    effect on the run. *)
Theorem split_run_uses_global_range (audioData : AudioData)
  (height pixelsPerSecond : float) (colorPreset : ColorPreset)
  (frequencyScale : FrequencyScale) (mappingType : MappingType)
  (minFrequency maxFrequency : option float)
  (minDbParam maxDbParam : option float)
  (fftSize hopSize : float) (images : list (list (list RGB))) :
  (DEFAULTS_MAX_WIDTH <? Math_ceil (duration audioData * pixelsPerSecond)) = true ->
  renderSpectrograms M audioData height pixelsPerSecond colorPreset frequencyScale
    mappingType minFrequency maxFrequency minDbParam maxDbParam fftSize hopSize
    = Returns images ->
  exists (range : GlobalDBRange) (numImages : nat),
    calculateGlobalDbRange M audioData = Returns range /\
    F64.iterations
      (Math_ceil (Math_ceil (duration audioData * pixelsPerSecond) / DEFAULTS_MAX_WIDTH))
      = Some numImages /\
    length images = S numImages /\
    generateSpectrogram M audioData DEFAULTS_MAX_WIDTH height colorPreset
      frequencyScale mappingType minFrequency maxFrequency
      (Some (minDb range)) (Some (maxDb range)) fftSize hopSize 0 None
      = Returns (hd [] images) /\
    (forall i, (i < numImages)%nat ->
       generateSpectrogram M audioData
         (snd (partRange audioData pixelsPerSecond i)) height colorPreset
         frequencyScale mappingType minFrequency maxFrequency
         (Some (minDb range)) (Some (maxDb range)) fftSize hopSize
         (fst (fst (partRange audioData pixelsPerSecond i)))
         (Some (snd (fst (partRange audioData pixelsPerSecond i))))
       = Returns (nth (S i) images [])) /\
    forall minDbParam' maxDbParam',
      renderSpectrograms M audioData height pixelsPerSecond colorPreset frequencyScale
        mappingType minFrequency maxFrequency minDbParam' maxDbParam' fftSize hopSize
      = Returns images.
Proof.
  intros Hwide E.
  assert (Hsame : forall minDbParam' maxDbParam',
    renderSpectrograms M audioData height pixelsPerSecond colorPreset frequencyScale
      mappingType minFrequency maxFrequency minDbParam' maxDbParam' fftSize hopSize
    = Returns images).
  { intros a b. rewrite <- E. unfold renderSpectrograms. rewrite Hwide. reflexivity. }
  unfold renderSpectrograms in E. rewrite Hwide in E.
  apply bind_returns in E. destruct E as [range [Erange E]].
  apply bind_returns in E. destruct E as [overview [Eoverview E]].
  destruct (F64.iterations _) as [numImages |] eqn:Enum.
  - apply bind_returns in E. destruct E as [parts [Eparts E]].
    injection E as <-.
    exists range, numImages.
    destruct (mapM_nth _ _ _ Eparts) as [Hlen Hnth].
    rewrite length_seq in Hlen.
    repeat split.
    + exact Erange.
    + simpl. now rewrite Hlen.
    + exact Eoverview.
    + intros i Hi. cbn [nth].
      destruct (Hnth i i) as [image [Eimage Epart]].
      { rewrite (nth_error_nth' (seq 0 numImages) 0%nat) by now rewrite length_seq.
        now rewrite seq_nth. }
      rewrite (nth_error_nth _ _ _ Eimage).
      destruct (partRange audioData pixelsPerSecond i) as [[startTime endTime] w].
      cbn [fst snd]. exact Epart.
    + exact Hsame.
  - apply bind_returns in E. destruct E as [image [_ E]]. discriminate E.
Qed.

Lemma SFcompare_Eq (a b : spec_float) :
  SFcompare a b = Some Eq ->
  a = b \/ (exists s s', a = S754_zero s /\ b = S754_zero s').
Proof.
  destruct a as [sa | sa | | sa ma ea], b as [sb | sb | | sb mb eb]; simpl;
    try destruct sa; try destruct sb; try discriminate; intros H;
    try (left; reflexivity); try (right; eexists; eexists; split; reflexivity).
  - destruct (Z.compare_spec ea eb); try discriminate. subst.
    change (PosDef.Pos.compare_cont Eq ma mb) with (Pos.compare ma mb) in H.
    destruct (Pos.compare_spec ma mb); try discriminate. subst. left. reflexivity.
  - destruct (Z.compare_spec ea eb); try discriminate. subst.
    change (PosDef.Pos.compare_cont Eq ma mb) with (Pos.compare ma mb) in H.
    destruct (Pos.compare_spec ma mb); try discriminate. subst. left. reflexivity.
Qed.

(** [Math.min(a, b)] is [a] when [a <= b] and [a] is not a zero. *)
Lemma min_left (a b : float) :
  (a <=? b) = true -> is_zero a = false -> F64.min a b = a.
Proof.
  intros Hle Hz. destruct (leb_not_nan _ _ Hle) as [Ha Hb].
  unfold F64.min. rewrite Ha, Hb. simpl.
  destruct (a <? b) eqn:Hab; [reflexivity |].
  assert (Hcmp : SFcompare (Prim2SF a) (Prim2SF b) = Some Eq).
  { rewrite leb_spec in Hle. rewrite ltb_spec in Hab. unfold SFleb, SFltb in *.
    destruct (SFcompare _ _) as [[| |] |]; congruence. }
  assert (E : a = b).
  { apply Prim2SF_inj. destruct (SFcompare_Eq _ _ Hcmp) as [E | [s [s' [E1 E2]]]].
    - exact E.
    - exfalso. unfold is_zero in Hz. rewrite eqb_spec in Hz.
      rewrite E1 in Hz. vm_compute in Hz. destruct s; discriminate. }
  subst b. rewrite Hab. destruct (get_sign a); reflexivity.
Qed.

(** X21: a part can be wider than [MAX_WIDTH]: at the default 96 pixels
    per second the fifth part of every recording of 106.67 s or more runs
    from 85.33 s to 106.67 s and is 2049 pixels wide, since
    [(endTime - startTime) * 96] is 2048.0000000000005 in binary64. *)
Theorem fifth_part_exceeds_max_width (audioData : AudioData) :
  (106.66666666666667 <=? duration audioData) = true ->
  partRange audioData DEFAULTS_PIXELS_PER_SECOND 4 =
    (85.333333333333329, 106.66666666666667, 2049) /\
  (DEFAULTS_MAX_WIDTH <? 2049) = true.
Proof.
  intros H. split; [| vm_compute; reflexivity]. unfold partRange.
  replace ((F64.of_nat 4 + 1) * DEFAULTS_MAX_WIDTH / DEFAULTS_PIXELS_PER_SECOND)
    with 106.66666666666667 by (vm_compute; reflexivity).
  rewrite (min_left _ _ H) by (vm_compute; reflexivity).
  vm_compute. reflexivity.
Qed.

End ActionTheorems.

Section ActionExamples.

Local Open Scope float_scope.

Lemma split_run_uses_global_range_witness :
  exists images,
    renderSpectrograms refMath
      {| samples := [0.5; -0.5; 0.25; -0.25; 0.5; -0.5; 0.25; -0.25];
         sampleRate := 8; duration := 1 |}
      1 4096 HEAT LINEAR_SCALE LINEAR None None (Some (-80)) (Some (-10)) 4 2
    = Returns images /\
    length images = 3%nat /\
    renderSpectrograms refMath
      {| samples := [0.5; -0.5; 0.25; -0.25; 0.5; -0.5; 0.25; -0.25];
         sampleRate := 8; duration := 1 |}
      1 4096 HEAT LINEAR_SCALE LINEAR None None None None 4 2
    = Returns images.
Proof.
  set (audioData := {| samples := [0.5; -0.5; 0.25; -0.25; 0.5; -0.5; 0.25; -0.25];
                       sampleRate := 8; duration := 1 |}).
  assert (R : returned (renderSpectrograms refMath audioData 1 4096 HEAT LINEAR_SCALE
                          LINEAR None None (Some (-80)) (Some (-10)) 4 2) = true)
    by (vm_compute; reflexivity).
  destruct (renderSpectrograms refMath audioData 1 4096 HEAT LINEAR_SCALE LINEAR
              None None (Some (-80)) (Some (-10)) 4 2) as [images | |] eqn:E;
    [| discriminate R | discriminate R].
  exists images. split; [reflexivity |].
  destruct (@split_run_uses_global_range refMath audioData 1 4096 HEAT LINEAR_SCALE
              LINEAR None None (Some (-80)) (Some (-10)) 4 2 images eq_refl E)
    as [range [numImages [_ [Enum [Hlen [_ [_ Hsame]]]]]]].
  vm_compute in Enum. injection Enum as <-.
  split; [exact Hlen | exact (Hsame None None)].
Defined.

Lemma fifth_part_exceeds_max_width_witness :
  partRange {| samples := []; sampleRate := 44100; duration := 120 |}
            DEFAULTS_PIXELS_PER_SECOND 4
  = (85.333333333333329, 106.66666666666667, 2049).
Proof.
  apply (fifth_part_exceeds_max_width
           {| samples := []; sampleRate := 44100; duration := 120 |}).
  vm_compute. reflexivity.
Defined.

End ActionExamples.


(** * Worked examples *)

Section Examples.

Local Open Scope float_scope.

(** The pipeline run on eight samples with the reference [Math] library. *)

Definition exampleAudio : AudioData :=
  {| samples := [0.5; -0.5; 0.25; -0.25; 0.5; -0.5; 0.25; -0.25];
     sampleRate := 8;
     duration := 1 |}.

(** The bit reversal of the indices of a frame of eight samples. *)
Example reverseBits_of_eight :
  map (fun i => fst (Nat.iter 3 reverseStep (0%Z, Z.of_nat i))) (seq 0 8)
    = [0; 4; 2; 6; 1; 5; 3; 7]%Z.
Proof. vm_compute. reflexivity. Qed.

(** The transform of the ramp 1, 2, 3, 4: 10, -2 + 2i, -2, -2 - 2i. *)
Example performFFT_of_ramp :
  performFFT (H := binary64 refMath) [1; 2; 3; 4]
    = Returns {| complexValues := [10; 0; -2; 2; -2; 0; -2; -2];
                 size := 4 |}.
Proof. vm_compute. reflexivity. Qed.

(** Three frames of two bins each with [fftSize = 4] and [hopSize = 2]. *)
Example calculateSpectrogram_of_exampleAudio :
  calculateSpectrogram refMath exampleAudio 0 1 4 2
    = Returns
        {| frames :=
             [ {| frequencyBins := [-26.581174385284491; -19.591474341924304];
                  timePosition := 0;
                  frameDuration := 0.25 |};
               {| frequencyBins := [-26.581174385284491; -19.591474341924304];
                  timePosition := 0.25;
                  frameDuration := 0.25 |};
               {| frequencyBins := [-26.581174385284491; -19.591474341924304];
                  timePosition := 0.5;
                  frameDuration := 0.25 |} ];
           dataSampleRate := 8;
           dataFftSize := 4;
           dataHopSize := 2;
           dataDuration := 1;
           numFrequencyBins := 2;
           frequencyResolution := 2;
           timeResolution := 0.25 |}.
Proof. vm_compute. reflexivity. Qed.

(** With [fftSize = 6] the same audio gives two frames of three bins, every
    bin at the floor: the permutation reads past the end of the frame. *)
Example calculateSpectrogram_fftSize_six :
  calculateSpectrogram refMath exampleAudio 0 1 6 2
    = Returns
        {| frames :=
             [ {| frequencyBins := [-120; -120; -120];
                  timePosition := 0;
                  frameDuration := 0.25 |};
               {| frequencyBins := [-120; -120; -120];
                  timePosition := 0.25;
                  frameDuration := 0.25 |} ];
           dataSampleRate := 8;
           dataFftSize := 6;
           dataHopSize := 2;
           dataDuration := 1;
           numFrequencyBins := 3;
           frequencyResolution := 1.3333333333333333;
           timeResolution := 0.25 |}.
Proof. vm_compute. reflexivity. Qed.

(** The image of the example, three columns by two rows, Heat palette. *)
Example generateSpectrogram_of_exampleAudio :
  generateSpectrogram refMath exampleAudio 3 2 HEAT LINEAR_SCALE LINEAR
    None None None None 4 2 0 None
    = Returns
        [ [ {| r := 255; g := 255; b := 128 |}; {| r := 255; g := 255; b := 83 |} ];
          [ {| r := 255; g := 255; b := 128 |}; {| r := 255; g := 255; b := 83 |} ];
          [ {| r := 255; g := 255; b := 128 |}; {| r := 255; g := 255; b := 83 |} ] ].
Proof. vm_compute. reflexivity. Qed.

End Examples.
